(** * RAG mini-project: segmentation, cosine ranking and the persisted index

    A shallow embedding of [rag.js] (chunkText, cosineSimilarity,
    indexPdfToJson, answerQuestion), which the source tree holds in
    [public/app.js] from line 64 on, of the routes of [server.js], and of
    the two handlers of the page at the beginning of [public/app.js].

    - JavaScript strings are lists of code units; the embedding keeps the
      code units below 256 ([ascii]).
    - JavaScript numbers are IEEE 754 binary64 values: Rocq's primitive
      [float].  Character counts, cursors and sequence numbers, which the
      program only uses as integers, are kept in [Z].
    - The [while] loop of chunkText is run with fuel: [None] means that the
      loop is still running when the fuel is used up.
    - Errors are the pair of the [name] and the [message] of the thrown
      object.
    - The file system is a finite map from paths to contents, and a write
      to it succeeds; the two Ollama end points, the clock and
      [Number.prototype.toFixed] are taken from an environment record. *)

From Stdlib Require Import ZArith List Ascii String Floats Lia Bool Sorted.
From stdpp Require Import base tactics option list gmap strings pretty.

Local Open Scope Z_scope.

(* Decimal literals such as [0.9] denote the nearest binary64 number, as they
   do in JavaScript. *)
Set Warnings "-inexact-float".

(** ** JavaScript strings *)

Module Str.

Definition jsstring := list ascii.

(** A literal. *)
Definition lit (s : string) : jsstring := list_ascii_of_string s.

Definition code (c : ascii) : N := N_of_ascii c.

Definition LF : ascii := ascii_of_N 10.
Definition SP : ascii := ascii_of_N 32.

(** The accented letters of the messages and of the prompt, each of them one
    code unit: U+00E9, U+00E0 and U+00C0. *)
Definition e_acute : ascii := ascii_of_N 233.
Definition a_grave : ascii := ascii_of_N 224.
Definition A_grave : ascii := ascii_of_N 192.

(** WhiteSpace and LineTerminator of ECMAScript, as far as they are code
    units below 256: TAB, LF, VT, FF, CR, SP and NBSP. *)
Definition is_white (c : ascii) : bool :=
  let n := code c in
  ((9 <=? n) && (n <=? 13) || (n =? 32) || (n =? 160))%N.

(** The class [[ \t]]. *)
Definition is_blank (c : ascii) : bool :=
  let n := code c in ((n =? 32) || (n =? 9))%N.

Definition is_cr (c : ascii) : bool := (code c =? 13)%N.
Definition is_lf (c : ascii) : bool := (code c =? 10)%N.

Fixpoint drop_white (s : jsstring) : jsstring :=
  match s with
  | [] => []
  | c :: s' => if is_white c then drop_white s' else s
  end.

(** [String.prototype.trim] *)
Definition trim (s : jsstring) : jsstring :=
  rev (drop_white (rev (drop_white s))).

(** Relative index of [Array.prototype.slice] and [String.prototype.slice]:
    a negative index counts from the end, and the result is clamped to
    [0, len]. *)
Definition rel_index (len k : Z) : Z :=
  if k <? 0 then Z.max (len + k) 0 else Z.min k len.

(** [x.slice(start, end)] for strings and arrays alike. *)
Definition slice {A} (l : list A) (start end_ : Z) : list A :=
  let len := Z.of_nat (length l) in
  let from := rel_index len start in
  let to := rel_index len end_ in
  take (Z.to_nat (to - from)) (drop (Z.to_nat from) l).

(** [.replace(/\r/g, '')] *)
Definition strip_cr (s : jsstring) : jsstring :=
  List.filter (fun c => negb (is_cr c)) s.

(** [.replace(/[ \t]+/g, ' ')]: [in_run] tells that the previous code unit
    was already part of the run being replaced. *)
Fixpoint collapse_blanks (in_run : bool) (s : jsstring) : jsstring :=
  match s with
  | [] => []
  | c :: s' =>
      if is_blank c
      then (if in_run then collapse_blanks true s'
            else SP :: collapse_blanks true s')
      else c :: collapse_blanks false s'
  end.

(** [.replace(/\n{3,}/g, '\n\n')]: a run of line feeds keeps its first two,
    [seen] counts the line feeds of the current run. *)
Fixpoint collapse_newlines (seen : nat) (s : jsstring) : jsstring :=
  match s with
  | [] => []
  | c :: s' =>
      if is_lf c
      then (if (seen <? 2)%nat then c :: collapse_newlines (S seen) s'
            else collapse_newlines (S seen) s')
      else c :: collapse_newlines 0 s'
  end.

(** [parts.join(sep)] *)
Fixpoint join (sep : jsstring) (parts : list jsstring) : jsstring :=
  match parts with
  | [] => []
  | [p] => p
  | p :: rest => p ++ sep ++ join sep rest
  end.

(** [`${n}`] for an integer [n]. *)
Definition decimal (n : Z) : jsstring := lit (pretty n).

End Str.

Import Str.

(** ** Outcomes of a call *)

Inductive outcome (A : Type) : Type :=
| Returns (a : A)
| Throws (name message : string)
| Spins
| Untyped.
Arguments Returns {A} a.
Arguments Throws {A} name message.
Arguments Spins {A}.
Arguments Untyped {A}.

(** [Spins]: a loop is still running when the fuel is used up.  [Untyped]:
    the run applies an operation to a value of another type than the code
    expects, where JavaScript would go on with a coercion that the embedding
    does not cover. *)

Definition bind {A B} (c : outcome A) (k : A -> outcome B) : outcome B :=
  match c with
  | Returns a => k a
  | Throws n m => Throws n m
  | Spins => Spins
  | Untyped => Untyped
  end.

#[global] Instance outcome_ret : MRet outcome := fun _ a => Returns a.
#[global] Instance outcome_bind : MBind outcome := fun _ _ k c => bind c k.

(** ** PARTIE 2: chunkText *)

(** The [cleaned] text of chunkText. *)
Definition normalize (text : jsstring) : jsstring :=
  trim (collapse_newlines 0 (collapse_blanks false (strip_cr text))).

Definition jslength {A} (l : list A) : Z := Z.of_nat (length l).

(** One pass through the body of the [while] loop, entered with
    [i < cleaned.length]: the chunks pushed so far, and the next cursor
    unless the loop breaks. *)
Definition chunk_step (cleaned : jsstring) (chunkSize overlap : Z)
    (i : Z) (chunks : list jsstring) : list jsstring * option Z :=
  let end_ := Z.min (i + chunkSize) (jslength cleaned) in
  let chunk := trim (slice cleaned i end_) in
  let chunks := match chunk with [] => chunks | _ => chunks ++ [chunk] end in
  if end_ =? jslength cleaned then (chunks, None)
  else (chunks, Some (Z.max 0 (end_ - overlap))).

(** The [while] loop, for at most [fuel] passes; [chunks.push] is taken to
    succeed, so that a loop that makes no progress goes on for ever (the
    array of a real run is bounded, and such a run ends when the engine
    refuses to extend it). *)
Fixpoint chunk_loop (fuel : nat) (cleaned : jsstring) (chunkSize overlap : Z)
    (i : Z) (chunks : list jsstring) : option (list jsstring) :=
  if i <? jslength cleaned then
    match fuel with
    | O => None
    | S fuel' =>
        match chunk_step cleaned chunkSize overlap i chunks with
        | (chunks', None) => Some chunks'
        | (chunks', Some i') =>
            chunk_loop fuel' cleaned chunkSize overlap i' chunks'
        end
    end
  else Some chunks.

Definition chunkText (fuel : nat) (text : jsstring) (chunkSize overlap : Z)
  : option (list jsstring) :=
  chunk_loop fuel (normalize text) chunkSize overlap 0 [].

(** ** cosineSimilarity *)

Definition vector := list float.

(** [a[i]]; an index out of range reads [undefined], which is NaN in
    arithmetic. *)
Definition at_index (a : vector) (i : nat) : float := nth i a nan.

(** ToBoolean on a number: [+0], [-0] and NaN are falsy. *)
Definition truthy (x : float) : bool := negb (is_zero x || is_nan x).

(** The [for] loop, with [n] iterations left from index [i]. *)
Fixpoint cosine_loop (n i : nat) (a b : vector) (dot na nb : float)
  : float * float * float :=
  match n with
  | O => (dot, na, nb)
  | S n' =>
      cosine_loop n' (S i) a b
        (dot + at_index a i * at_index b i)%float
        (na + at_index a i * at_index a i)%float
        (nb + at_index b i * at_index b i)%float
  end.

Definition cosineSimilarity (a b : vector) : float :=
  let len := Nat.min (length a) (length b) in
  let '(dot, na, nb) := cosine_loop len 0 a b 0%float 0%float 0%float in
  let denom := (sqrt na * sqrt nb)%float in
  if truthy denom then (dot / denom)%float else 0%float.

(** ** JavaScript values and JSON *)

(** A number that the program only uses as an integer (a size, a count, a
    sequence number) is [VInt]; the other numbers are [VNum].  The property
    list of an object is in creation order. *)
Unset Elimination Schemes.
Inductive value : Type :=
| VUndefined
| VNull
| VBool (b : bool)
| VInt (z : Z)
| VNum (x : float)
| VStr (s : jsstring)
| VArr (xs : list value)
| VObj (props : list (string * value)).
Set Elimination Schemes.

(** Induction on values, through the elements of arrays and the property
    values of objects. *)
Fixpoint value_ind (P : value -> Prop)
    (Hundef : P VUndefined) (Hnull : P VNull)
    (Hbool : forall b, P (VBool b)) (Hint : forall z, P (VInt z))
    (Hnum : forall x, P (VNum x)) (Hstr : forall s, P (VStr s))
    (Harr : forall xs, Forall P xs -> P (VArr xs))
    (Hobj : forall props, Forall (fun kv => P (snd kv)) props -> P (VObj props))
    (v : value) {struct v} : P v :=
  let rec := value_ind P Hundef Hnull Hbool Hint Hnum Hstr Harr Hobj in
  match v with
  | VUndefined => Hundef
  | VNull => Hnull
  | VBool b => Hbool b
  | VInt z => Hint z
  | VNum x => Hnum x
  | VStr s => Hstr s
  | VArr xs =>
      Harr xs ((fix all (l : list value) : Forall P l :=
                  match l with
                  | [] => @List.Forall_nil _ P
                  | x :: l' => @List.Forall_cons _ P x l' (rec x) (all l')
                  end) xs)
  | VObj props =>
      Hobj props
        ((fix all (l : list (string * value)) : Forall (fun kv => P (snd kv)) l :=
            match l with
            | [] => @List.Forall_nil _ (fun kv => P (snd kv))
            | kv :: l' => @List.Forall_cons _ (fun kv => P (snd kv)) kv l' (rec (snd kv)) (all l')
            end) props)
  end.

(** The binary64 number nearest to an integer (ties to even, and infinity
    beyond the range). *)
Definition num_of_Z (z : Z) : float :=
  SF2Prim (binary_normalize prec emax z 0 false).

(** ToBoolean *)
Definition to_boolean (v : value) : bool :=
  match v with
  | VUndefined | VNull => false
  | VBool b => b
  | VInt z => negb (z =? 0)
  | VNum x => truthy x
  | VStr s => match s with [] => false | _ => true end
  | VArr _ | VObj _ => true
  end.

Fixpoint lookup_prop (props : list (string * value)) (k : string) : value :=
  match props with
  | [] => VUndefined
  | (k', v) :: rest => if String.eqb k' k then v else lookup_prop rest k
  end.

(** [v?.k]: the properties that the program reads are own properties of
    plain objects, or [length]. *)
Definition opt_prop (v : value) (k : string) : value :=
  match v with
  | VObj props => lookup_prop props k
  | VArr xs => if String.eqb k "length" then VInt (jslength xs) else VUndefined
  | VStr s => if String.eqb k "length" then VInt (jslength s) else VUndefined
  | _ => VUndefined
  end.

(** [v.k] *)
Definition prop (v : value) (k : string) : outcome value :=
  match v with
  | VUndefined | VNull =>
      Throws "TypeError" ("Cannot read properties of undefined or null: " +:+ k)
  | _ => Returns (opt_prop v k)
  end.

(** SerializeJSONProperty of ECMAScript on the values above, the text of a
    JSON document being identified with the document: [None] is
    [undefined].  A number that is not finite is written [null], and [-0]
    is written [0]. *)
Fixpoint SerializeJSONProperty (v : value) : option value :=
  match v with
  | VUndefined => None
  | VNull => Some VNull
  | VBool b => Some (VBool b)
  | VInt z => Some (VInt z)
  | VNum x =>
      Some (if is_finite x then (if is_zero x then VNum 0%float else VNum x)
            else VNull)
  | VStr s => Some (VStr s)
  | VArr xs =>
      Some (VArr (List.map
                    (fun x => match SerializeJSONProperty x with
                              | Some j => j
                              | None => VNull
                              end) xs))
  | VObj props =>
      Some (VObj ((fix members (ps : list (string * value)) :=
                     match ps with
                     | [] => []
                     | (k, x) :: rest =>
                         match SerializeJSONProperty x with
                         | Some j => (k, j) :: members rest
                         | None => members rest
                         end
                     end) props))
  end.

(** [JSON.stringify(v, null, 2)] *)
Definition JSON_stringify (v : value) : option value := SerializeJSONProperty v.

(** ** The file system and the services *)

Inductive content : Type :=
| Pdf (text : jsstring)
| Json (doc : value)
| Other.

(** [Pdf text]: a PDF file from which pdf-parse extracts [text].
    [Json doc]: the text of the JSON document [doc].  [Other]: any other
    file. *)

(** [JSON.parse(raw)] *)
Definition JSON_parse (raw : content) : outcome value :=
  match raw with
  | Json doc => Returns doc
  | _ => Throws "SyntaxError" "Unexpected token"
  end.

Record env : Type := {
  embeddings_api : jsstring -> jsstring -> outcome value;
  chat_api : jsstring -> jsstring -> jsstring -> outcome value;
  now_iso : jsstring;
  fixed4 : float -> float
}.

(** [embeddings_api model text] and [chat_api model system user]: the parsed
    response ([await response.json()]) of the two Ollama end points.
    [now_iso]: [new Date().toISOString()].  [fixed4 x]:
    [Number(x.toFixed(4))]. *)

Definition ollamaEmbeddings (E : env) (model text : jsstring) : outcome value :=
  data ← embeddings_api E model text;
  prop data "embedding".

Definition ollamaChat (E : env) (model system user : jsstring)
  : outcome jsstring :=
  data ← chat_api E model system user;
  match opt_prop (opt_prop data "message") "content" with
  | VStr content => Returns (trim content)
  | _ => Throws "Error" ("R" +:+ String e_acute "ponse Ollama chat invalide")
  end.

(** ** PARTIE 3: indexPdfToJson *)

Record index_args : Type := {
  pdfPath : string;
  outPath : string;
  sourceName : jsstring;
  chunkSize : Z;
  chunkOverlap : Z;
  embedModel : jsstring
}.

Record index_stats : Type := {
  stats_chunks : Z;
  stats_embedModel : jsstring;
  stats_source : jsstring
}.

Definition make_item (sourceName : jsstring) (i : Z) (text : jsstring)
    (embedding : value) : value :=
  VObj [("id", VStr (sourceName ++ lit "::chunk_" ++ decimal (i + 1)));
        ("source", VStr sourceName);
        ("chunk", VInt (i + 1));
        ("text", VStr text);
        ("embedding", embedding)].

(** The [for] loop over [chunks], from index [i] on. *)
Fixpoint embed_chunks (E : env) (sourceName embedModel : jsstring) (i : Z)
    (chunks : list jsstring) (items : list value) : outcome (list value) :=
  match chunks with
  | [] => Returns items
  | text :: rest =>
      embedding ← ollamaEmbeddings E embedModel text;
      embed_chunks E sourceName embedModel (i + 1) rest
        (items ++ [make_item sourceName i text embedding])
  end.

Definition make_payload (E : env) (a : index_args) (items : list value)
  : value :=
  VObj [("createdAt", VStr (now_iso E));
        ("source", VStr (sourceName a));
        ("embedModel", VStr (embedModel a));
        ("chunkSize", VInt (chunkSize a));
        ("chunkOverlap", VInt (chunkOverlap a));
        ("count", VInt (jslength items));
        ("items", VArr items)].

(** The result of the call and the file system that it leaves.  Reading
    [pdfPath] fails when there is no such file, pdf-parse fails on a file
    that is no PDF; [mkdirSync] creates directories only, which the file
    system of the embedding does not record.  The two calls [mkdirSync] and
    [writeFileSync] are taken to succeed: a disk that refuses the write (no
    permission, no space left) is outside the embedding, and so is what
    such a refusal leaves of the file. *)
Definition indexPdfToJson (E : env) (fuel : nat) (a : index_args)
    (fs : gmap string content) : outcome index_stats * gmap string content :=
  match fs !! pdfPath a with
  | None => (Throws "Error" "ENOENT: no such file or directory", fs)
  | Some (Pdf texte) =>
      match chunkText fuel texte (chunkSize a) (chunkOverlap a) with
      | None => (Spins, fs)
      | Some chunks =>
          match embed_chunks E (sourceName a) (embedModel a) 0 chunks [] with
          | Returns items =>
              match JSON_stringify (make_payload E a items) with
              | Some doc =>
                  (Returns {| stats_chunks := jslength items;
                              stats_embedModel := embedModel a;
                              stats_source := sourceName a |},
                   <[outPath a := Json doc]> fs)
              | None => (Throws "TypeError" "data must be a string", fs)
              end
          | Throws n m => (Throws n m, fs)
          | Spins => (Spins, fs)
          | Untyped => (Untyped, fs)
          end
      end
  | Some _ => (Throws "InvalidPDFException" "Invalid PDF structure", fs)
  end.

(** ** PARTIE 4: answerQuestion *)

Section Sort.

Context {A : Type}.

(** [Array.prototype.sort(compareFn)] is a stable sort: of two elements, the
    second is moved before the first only when [compareFn first second] is
    positive (a result that is NaN counts as [+0]).  The result is fixed by
    the language as soon as [compareFn] is a consistent comparison, and it
    is computed here by insertion from the right.  The comparison by score
    is consistent when no score is NaN.  A score that is NaN ties with
    every other score, while those need not tie with each other: the
    comparison is then not consistent, the order is left to the engine, and
    [js_sort] does not tell it.  The statements about the sorted records
    are therefore made for scores none of which is NaN. *)
Variable compareFn : A -> A -> float.

Fixpoint sort_insert (x : A) (sorted : list A) : list A :=
  match sorted with
  | [] => [x]
  | y :: rest =>
      if (0 <? compareFn x y)%float then y :: sort_insert x rest
      else x :: sorted
  end.

Fixpoint js_sort (l : list A) : list A :=
  match l with
  | [] => []
  | x :: rest => sort_insert x (js_sort rest)
  end.

(** [x] may stay before [y]: the comparison does not ask for [y] first. *)
Definition in_order (x y : A) : Prop := (0 <? compareFn x y)%float = false.

End Sort.

(** [x] occurs before [y] in [l]. *)
Definition before {A} (x y : A) (l : list A) : Prop :=
  exists r1 r2 r3, l = r1 ++ x :: r2 ++ y :: r3.


Record scored : Type := { item : value; score : float }.

(** [(a, b) => b.score - a.score] *)
Definition by_score_desc (a b : scored) : float := (score b - score a)%float.

(** ToNumber of an operand of [*], for the operands without a string
    conversion. *)
Definition to_number (v : value) : option float :=
  match v with
  | VNum x => Some x
  | VInt z => Some (num_of_Z z)
  | VNull => Some 0%float
  | VBool b => Some (if b then 1%float else 0%float)
  | VUndefined => Some nan
  | VStr _ | VArr _ | VObj _ => None
  end.

(** The argument of cosineSimilarity, read as an array of numbers. *)
Definition as_vector (v : value) : outcome vector :=
  match v with
  | VUndefined | VNull =>
      Throws "TypeError" "Cannot read properties of undefined or null: length"
  | VArr xs =>
      match mapM to_number xs with
      | Some a => Returns a
      | None => Untyped
      end
  | _ => Untyped
  end.

(** [items.map(item => ({ item, score: cosineSimilarity(q, item.embedding) }))] *)
Fixpoint score_items (q : value) (items : list value) : outcome (list scored) :=
  match items with
  | [] => Returns []
  | it :: rest =>
      embedding ← prop it "embedding";
      a ← as_vector q;
      b ← as_vector embedding;
      more ← score_items q rest;
      Returns ({| item := it; score := cosineSimilarity a b |} :: more)
  end.

(** [.sort((a, b) => b.score - a.score).slice(0, topK)] *)
Definition rank (scoredItems : list scored) (topK : Z) : list scored :=
  slice (js_sort by_score_desc scoredItems) 0 topK.

(** ToString in a template literal, for strings. *)
Definition as_string (v : value) : outcome jsstring :=
  match v with
  | VStr s => Returns s
  | _ => Untyped
  end.

(** [scored.map((s, idx) => `[#${idx + 1} | ${s.item.id}]\n${s.item.text}`)] *)
Fixpoint context_parts (idx : Z) (l : list scored) : outcome (list jsstring) :=
  match l with
  | [] => Returns []
  | s :: rest =>
      id ← as_string (opt_prop (item s) "id");
      text ← as_string (opt_prop (item s) "text");
      more ← context_parts (idx + 1) rest;
      Returns ((lit "[#" ++ decimal (idx + 1) ++ lit " | " ++ id ++ lit "]"
                ++ [LF] ++ text) :: more)
  end.

Definition systemPrompt : jsstring :=
  join [SP]
    [lit "Tu es un assistant NLP.";
     lit "Tu r" ++ [e_acute] ++ lit "ponds UNIQUEMENT " ++ [a_grave]
       ++ lit " partir du CONTEXTE fourni ci-dessous.";
     lit "Si l'information n'est pas dans le contexte, dis clairement : 'Je ne trouve pas cette information dans le document.'";
     [A_grave] ++ lit " la fin de ta r" ++ [e_acute]
       ++ lit "ponse, ajoute une section 'Sources' qui liste les IDs des chunks utilis"
       ++ [e_acute] ++ lit "s."].

Record ask_args : Type := {
  indexPath : string;
  question : jsstring;
  topK : Z;
  chatModel : jsstring;
  askEmbedModel : jsstring
}.

Record source_ref : Type := { ref_id : value; ref_score : float }.

Record ask_result : Type := {
  answer : jsstring;
  sources : list source_ref
}.

(** The index as it is loaded: [existsSync], [readFileSync], [JSON.parse]. *)
Definition load_index (fs : gmap string content) (path : string)
  : outcome value :=
  match fs !! path with
  | None =>
      Throws "Error" "Index introuvable. Fais d'abord l'indexation du PDF."
  | Some raw => JSON_parse raw
  end.

(** [db?.items || []], and the test [!items.length]. *)
Definition index_items (db : value) : outcome value :=
  let items :=
    if to_boolean (opt_prop db "items") then opt_prop db "items"
    else VArr [] in
  if negb (to_boolean (opt_prop items "length"))
  then Throws "Error" "Index vide."
  else Returns items.

Definition answerQuestion (E : env) (a : ask_args) (fs : gmap string content)
  : outcome ask_result :=
  db ← load_index fs (indexPath a);
  items ← index_items db;
  questionEmbedding ← ollamaEmbeddings E (askEmbedModel a) (question a);
  match items with
  | VArr items =>
      all ← score_items questionEmbedding items;
      let scoredItems := rank all (topK a) in
      parts ← context_parts 0 scoredItems;
      let context := join [LF; LF] parts in
      let userPrompt :=
        lit "CONTEXTE:" ++ [LF] ++ context ++ [LF; LF] ++ lit "QUESTION:"
        ++ [LF] ++ question a ++ [LF; LF] ++ lit "R" ++ [e_acute] ++ lit "ponse:" in
      answer ← ollamaChat E (chatModel a) systemPrompt userPrompt;
      Returns {| answer := answer;
                 sources :=
                   List.map (fun s => {| ref_id := opt_prop (item s) "id";
                                         ref_score := fixed4 E (score s) |})
                     scoredItems |}
  | _ => Throws "TypeError" "items.map is not a function"
  end.

(** ** server.js *)

(** The routes are embedded from their handlers on: the request has passed
    the middleware ([express.json], and [upload.single('pdf')], which has
    stored the uploaded file, if there is one, and describes it in
    [req.file]).  What a handler writes to the console is left out. *)

(** What [res.status(code).json(v)] sends: the status and the JSON text of
    [v]. *)
Record response : Type := { status : Z; body : option value }.

Definition send_json (code : Z) (v : value) : response :=
  {| status := code; body := JSON_stringify v |}.

(** [process.env.EMBED_MODEL] and [process.env.CHAT_MODEL], [None] when the
    variable is not set, with the record of the services. *)
Record server_env : Type := {
  rag_env : env;
  EMBED_MODEL : option jsstring;
  CHAT_MODEL : option jsstring
}.

(** [s || d] for [s] a string or [undefined]. *)
Definition or_default (s : option jsstring) (d : jsstring) : jsstring :=
  match s with
  | Some (c :: r) => c :: r
  | _ => d
  end.

(** [path.join(DATA_DIR, 'index.json')], from the directory of the server. *)
Definition INDEX_PATH : string := "data/index.json".

(** [String(e?.message || e)] for the error object [e] that was thrown:
    its message, or what [Error.prototype.toString] gives without a
    message, the name. *)
Definition error_text (name message : string) : jsstring :=
  match message with
  | EmptyString => lit name
  | _ => lit message
  end.

(** The [filename] function of the disk storage of multer, which names the
    stored file: [Date.now() + '-' + file.originalname]. *)
Definition filename (now : Z) (originalname : jsstring) : jsstring :=
  decimal now ++ lit "-" ++ originalname.

(** The decimal digits. *)
Definition is_digit (c : ascii) : bool := ((48 <=? code c) && (code c <=? 57))%N.

(** [req.file] *)
Record upload : Type := { file_path : string; originalname : jsstring }.

(** The value of the statistics that indexPdfToJson returns. *)
Definition stats_value (s : index_stats) : value :=
  VObj [("chunks", VInt (stats_chunks s));
        ("embedModel", VStr (stats_embedModel s));
        ("source", VStr (stats_source s))].

(** [GET /api/health] *)
Definition get_health : response :=
  send_json 200
    (VObj [("ok", VBool true);
           ("message", VStr (lit "Serveur RAG op" ++ [e_acute] ++ lit "rationnel"))]).

(** The arguments of the call of indexPdfToJson in [POST /api/index]. *)
Definition index_call (S : server_env) (f : upload) : index_args := {|
  pdfPath := file_path f;
  outPath := INDEX_PATH;
  sourceName := or_default (Some (originalname f)) (lit "document.pdf");
  chunkSize := 1200;
  chunkOverlap := 200;
  embedModel := or_default (EMBED_MODEL S) (lit "nomic-embed-text")
|}.

(** The handler of [POST /api/index], [file] being [req.file].  The
    handler is entered after [upload.single('pdf')]: [fs] is the file system
    with the upload already stored in it, whatever the handler then
    answers. *)
Definition post_index (S : server_env) (fuel : nat) (file : option upload)
    (fs : gmap string content) : outcome response * gmap string content :=
  match file with
  | None =>
      (Returns (send_json 400
         (VObj [("error", VStr (lit "Aucun fichier PDF upload" ++ [e_acute]))])),
       fs)
  | Some f =>
      match indexPdfToJson (rag_env S) fuel (index_call S f) fs with
      | (Returns stats, fs') =>
          (Returns (send_json 200
             (VObj [("ok", VBool true);
                    ("indexPath", VStr (lit "data/index.json"));
                    ("stats", stats_value stats)])),
           fs')
      | (Throws name message, fs') =>
          (Returns (send_json 500 (VObj [("error", VStr (error_text name message))])),
           fs')
      | (Spins, fs') => (Spins, fs')
      | (Untyped, fs') => (Untyped, fs')
      end
  end.

(** [String(v)], for the values whose conversion is a literal or a decimal
    numeral. *)
Definition to_string (v : value) : outcome jsstring :=
  match v with
  | VUndefined => Returns (lit "undefined")
  | VNull => Returns (lit "null")
  | VBool true => Returns (lit "true")
  | VBool false => Returns (lit "false")
  | VInt z => Returns (decimal z)
  | VStr s => Returns s
  | VNum _ | VArr _ | VObj _ => Untyped
  end.

(** The arguments of the call of answerQuestion in [POST /api/ask]. *)
Definition ask_call (S : server_env) (question : jsstring) : ask_args := {|
  indexPath := INDEX_PATH;
  question := question;
  topK := 5;
  chatModel := or_default (CHAT_MODEL S) (lit "llama3.2");
  askEmbedModel := or_default (EMBED_MODEL S) (lit "nomic-embed-text")
|}.

Definition source_value (s : source_ref) : value :=
  VObj [("id", ref_id s); ("score", VNum (ref_score s))].

(** [POST /api/ask], [body] being [req.body]. *)
Definition post_ask (S : server_env) (body : value) (fs : gmap string content)
  : outcome response :=
  let asked := opt_prop body "question" in
  text ← to_string (if to_boolean asked then asked else VStr []);
  match trim text with
  | [] => Returns (send_json 400 (VObj [("error", VStr (lit "Question vide"))]))
  | question =>
      match answerQuestion (rag_env S) (ask_call S question) fs with
      | Returns result =>
          Returns (send_json 200
            (VObj [("ok", VBool true);
                   ("answer", VStr (answer result));
                   ("sources", VArr (List.map source_value (sources result)))]))
      | Throws name message =>
          Returns (send_json 500 (VObj [("error", VStr (error_text name message))]))
      | Spins => Spins
      | Untyped => Untyped
      end
  end.

(** ** public/app.js: the page *)

(** The texts that the page shows are lists of UTF-16 code units, one of
    them being above 255; the question that is typed and the texts that
    travel are the strings of above. *)
Definition page_text := list N.

Definition shown (s : jsstring) : page_text := List.map code s.

(** [✓] *)
Definition CHECK_MARK : N := 10003.

(** The [textContent] of the three elements that the handlers write. *)
Record page : Type := {
  indexStatus_textContent : page_text;
  answer_textContent : page_text;
  sources_textContent : page_text
}.

(** The response of a [fetch]: [res.status], [await res.text()] and
    [await res.json()]. *)
Record http_response : Type := {
  res_status : Z;
  res_text : page_text;
  res_json : outcome value
}.

(** [res.ok] *)
Definition res_ok (res : http_response) : bool :=
  (200 <=? res_status res) && (res_status res <=? 299).

(** [`Erreur: ${err.message}`] *)
Definition error_line (message : string) : page_text :=
  shown (lit "Erreur: ") ++ shown (lit message).

(** [`Erreur: ${res.status} - ${text}`] *)
Definition status_line (res : http_response) : page_text :=
  shown (lit "Erreur: ") ++ shown (decimal (res_status res)) ++ shown (lit " - ")
  ++ res_text res.

(** What a handler leaves on the page: [during] while it waits for the
    response, and [after] when it has ended. *)
Record shows : Type := { during : page; after : outcome page }.

(** What a [try] block leaves: when its body has thrown, the [catch] block
    has written the message, and [line] is the page with that text. *)
Definition caught (line : page_text -> page) (r : outcome page) : outcome page :=
  match r with
  | Throws name message => Returns (line (error_line message))
  | _ => r
  end.

(** [`✓ ${count} chunks indexés`] *)
Definition indexed_line (count : jsstring) : page_text :=
  [CHECK_MARK] ++ shown (lit " ") ++ shown count
  ++ shown (lit " chunks index") ++ [233%N] ++ shown (lit "s").

(** The handler of the [submit] event of [indexForm]: [fetch_index] is the
    response to the request [POST /api/index] with the data of the form. *)
Definition indexForm_submit (fetch_index : outcome http_response) (p : page) : shows :=
  let p1 := {| indexStatus_textContent := shown (lit "Indexation en cours...");
               answer_textContent := [];
               sources_textContent := [] |} in
  let status line := {| indexStatus_textContent := line;
                        answer_textContent := [];
                        sources_textContent := [] |} in
  {| during := p1;
     after :=
       caught status
         (res ← fetch_index;
          if negb (res_ok res) then Returns (status (status_line res))
          else
            data ← res_json res;
            stats ← prop data "stats";
            chunks ← prop stats "chunks";
            count ← to_string chunks;
            Returns (status (indexed_line count))) |}.

(** What assigning [v] to [textContent] shows: nothing for [null] and
    [undefined], the string for a string. *)
Definition as_textContent (v : value) : outcome page_text :=
  match v with
  | VUndefined | VNull => Returns []
  | _ => s ← to_string v; Returns (shown s)
  end.

(** The handler of the [submit] event of [askForm]: [typed] is
    [questionInput.value], [fetch_ask body] the response to the request
    [POST /api/ask] whose body is the JSON document [body], and [indented v]
    the text [JSON.stringify(v, null, 2)] of the document [v]. *)
Definition askForm_submit (fetch_ask : value -> outcome http_response)
    (indented : value -> page_text) (typed : jsstring) (p : page) : shows :=
  match trim typed with
  | [] => {| during := p; after := Returns p |}
  | question =>
      let p1 := {| indexStatus_textContent := indexStatus_textContent p;
                   answer_textContent :=
                     shown (lit "R") ++ [233%N] ++ shown (lit "ponse en cours...");
                   sources_textContent := [] |} in
      let answer line := {| indexStatus_textContent := indexStatus_textContent p;
                            answer_textContent := line;
                            sources_textContent := [] |} in
      {| during := p1;
         after :=
           caught answer
             (res ← fetch_ask (VObj [("question", VStr question)]);
              if negb (res_ok res) then Returns (answer (status_line res))
              else
                data ← res_json res;
                reply ← prop data "answer";
                line ← as_textContent reply;
                cited ← prop data "sources";
                Returns {| indexStatus_textContent := indexStatus_textContent p;
                           answer_textContent := line;
                           sources_textContent :=
                             shown (lit "Sources:") ++ [10%N]
                             ++ match JSON_stringify cited with
                                | Some doc => indented doc
                                | None => shown (lit "undefined")
                                end |}) |}
  end.

(** A response of the server as [fetch] gives it to the page: [compact v] is
    the text [JSON.stringify(v)] that [res.json(v)] has sent. *)
Definition over_http (compact : value -> page_text) (r : outcome response)
  : outcome http_response :=
  resp ← r;
  Returns {| res_status := status resp;
             res_text := match body resp with Some doc => compact doc | None => [] end;
             res_json := match body resp with
                         | Some doc => Returns doc
                         | None => Throws "SyntaxError" "Unexpected end of JSON input"
                         end |}.

(** ** Notions used in the statements *)

(** The slices [cleaned.slice(i, end)] that the loop of chunkText takes from
    cursor [i] on, before they are trimmed. *)
Fixpoint windows (fuel : nat) (cleaned : jsstring) (chunkSize overlap : Z)
    (i : Z) : list jsstring :=
  if i <? jslength cleaned then
    match fuel with
    | O => []
    | S fuel' =>
        let end_ := Z.min (i + chunkSize) (jslength cleaned) in
        slice cleaned i end_ ::
          (if end_ =? jslength cleaned then []
           else windows fuel' cleaned chunkSize overlap (Z.max 0 (end_ - overlap)))
    end
  else [].

(** The chunks that are pushed: the trimmed slices that are not empty. *)
Definition pushed (slices : list jsstring) : list jsstring :=
  List.filter (fun c => match c with [] => false | _ => true end)
    (List.map trim slices).

(** Segments put back together: every segment but the first gives up its
    first [overlap] code units, which repeat the end of the segment before. *)
Definition reassemble (overlap : Z) (segments : list jsstring) : jsstring :=
  match segments with
  | [] => []
  | s :: rest => s ++ concat (List.map (drop (Z.to_nat overlap)) rest)
  end.

(** The bound on the iterations in the words of the specification:
    the ceiling of [length / max(1, w - o)], plus one. *)
Definition iteration_bound (len w o : Z) : nat :=
  let d := Z.max 1 (w - o) in
  Z.to_nat ((len + d - 1) / d + 1).

(** The sum of the products [A[i] * B[i]] over the indices that [A] and [B]
    both have, the indices below [min(len(A), len(B))], added from the
    left. *)
Definition sum_products (A B : vector) : float :=
  fold_left (fun acc p => (acc + fst p * snd p)%float) (combine A B) 0%float.

(** The sum of the squares [A[i] * A[i]] over the indices below [L], added
    from the left. *)
Definition sum_squares (L : nat) (A : vector) : float :=
  fold_left (fun acc a => (acc + a * a)%float) (firstn L A) 0%float.

(** The denominator [sqrt(normA) * sqrt(normB)], the sums ranging over the
    indices below [L = min(len(A), len(B))]. *)
Definition denominator (A B : vector) : float :=
  let L := Nat.min (length A) (length B) in
  (sqrt (sum_squares L A) * sqrt (sum_squares L B))%float.

(** Cosine similarity in the words of the specification:
    [dot / (sqrt(normA) * sqrt(normB))] if that denominator is non-zero,
    else [0]. *)
Definition cosine_formula_claimed (A B : vector) : float :=
  if is_zero (denominator A B) then 0%float
  else (sum_products A B / denominator A B)%float.

(** Cosine similarity as the code computes it: [0] also when the
    denominator is not a number. *)
Definition cosine_formula (A B : vector) : float :=
  if is_zero (denominator A B) || is_nan (denominator A B) then 0%float
  else (sum_products A B / denominator A B)%float.

(** A number that [JSON.stringify] writes and [JSON.parse] reads back
    unchanged: finite, and not [-0]. *)
Definition json_number (x : float) : bool :=
  is_finite x && (negb (is_zero x) || PrimFloat.Leibniz.eqb x 0%float).

(** The values that are JSON documents: no [undefined] in them, and their
    numbers are JSON numbers. *)
Fixpoint json_doc (v : value) : bool :=
  match v with
  | VUndefined => false
  | VNull | VBool _ | VInt _ | VStr _ => true
  | VNum x => json_number x
  | VArr xs => forallb json_doc xs
  | VObj props => forallb (fun kv => json_doc (snd kv)) props
  end.

(** What is read back of a number that the index held when it was written:
    the number itself if it is finite and no zero, [0] for both zeros, and
    [null] for NaN and for the infinities. *)
Definition stored_number (x : float) : value :=
  if is_nan x || is_infinity x then VNull
  else if is_zero x then VNum 0%float
  else VNum x.

(** The numbers above zero. *)
Definition SFpositive (r : spec_float) : bool :=
  match r with
  | S754_finite false _ _ | S754_infinity false => true
  | _ => false
  end.

(** The length of the run of code units in the class [p] at the beginning
    of [s]. *)
Fixpoint run_at (p : ascii -> bool) (s : jsstring) : nat :=
  match s with
  | [] => 0
  | c :: s' => if p c then S (run_at p s') else 0
  end.

(** The length of the longest run of code units in the class [p] in [s]. *)
Fixpoint max_run (p : ascii -> bool) (s : jsstring) : nat :=
  match s with
  | [] => 0
  | _ :: s' => Nat.max (run_at p s) (max_run p s')
  end.

Definition is_tab (c : ascii) : bool := (code c =? 9)%N.

(** The number of passes of the loop of chunkText over a cleaned text of
    [len] code units: one pass when the text fits the window, and one more
    for every further [w - o] code units, or part of them. *)
Definition window_count (len w o : Z) : nat :=
  if len <=? 0 then 0%nat
  else if len <=? w then 1%nat
  else Z.to_nat ((len - w + (w - o) - 1) / (w - o) + 1).

(** The window of pass [k], counted from 0. *)
Definition window_at (cleaned : jsstring) (w o : Z) (k : nat) : jsstring :=
  slice cleaned (Z.of_nat k * (w - o)) (Z.of_nat k * (w - o) + w).

(** [c] is a part of [s]: code units of [s] that follow one another. *)
Definition part_of (c s : jsstring) : Prop := exists l1 l2, s = l1 ++ c ++ l2.

(** ** Data of the examples *)

(** The sequence number of a match. *)
Definition sequence_number (s : scored) : value := opt_prop (item s) "chunk".

(** A record of the collection with sequence number [n]. *)
Definition record (n : Z) : value :=
  make_item (lit "doc.pdf") (n - 1) (lit "text") (VArr []).

(** The collection of the example of the specification: scores 0.9, 0.9 and
    0.2 for the sequence numbers 2, 1 and 3. *)
Definition tie_example : list scored :=
  [ {| item := record 2; score := 0.9 |};
    {| item := record 1; score := 0.9 |};
    {| item := record 3; score := 0.2 |} ].

(** The embedding service answers every text with the vector [1, 0.5], the
    chat service answers [" ok "]; [fixed4] is exact on the scores [0] and
    [1] of the examples. *)
Definition demo_env : env := {|
  embeddings_api := fun _ _ => Returns (VObj [("embedding", VArr [VNum 1; VNum 0.5])]);
  chat_api := fun _ _ _ =>
    Returns (VObj [("message", VObj [("role", VStr (lit "assistant"));
                                     ("content", VStr (lit " ok "))])]);
  now_iso := lit "2026-01-01T00:00:00.000Z";
  fixed4 := fun x => x
|}.

Definition demo_index_args : index_args := {|
  pdfPath := "uploads/doc.pdf";
  outPath := "data/index.json";
  sourceName := lit "doc.pdf";
  chunkSize := 1200;
  chunkOverlap := 200;
  embedModel := lit "nomic-embed-text"
|}.

Definition demo_ask_args : ask_args := {|
  indexPath := "data/index.json";
  question := lit "Quels sont les objectifs ?";
  topK := 5;
  chatModel := lit "llama3.2";
  askEmbedModel := lit "nomic-embed-text"
|}.

(** An environment whose embedding service is down. *)
Definition offline_env : env := {|
  embeddings_api := fun _ _ => Throws "TypeError" "fetch failed";
  chat_api := fun _ _ _ => Throws "TypeError" "fetch failed";
  now_iso := lit "2026-01-01T00:00:00.000Z";
  fixed4 := fun x => x
|}.

(** A file system that holds one PDF, with the given text. *)
Definition one_pdf (text : jsstring) : gmap string content :=
  {[ "uploads/doc.pdf" := Pdf text ]}.

(** The index that is written when there is no chunk. *)
Definition empty_index (E : env) (a : index_args) : value :=
  VObj [("createdAt", VStr (now_iso E));
        ("source", VStr (sourceName a));
        ("embedModel", VStr (embedModel a));
        ("chunkSize", VInt (chunkSize a));
        ("chunkOverlap", VInt (chunkOverlap a));
        ("count", VInt 0);
        ("items", VArr [])].

(** An index with one record, whose vector is empty. *)
Definition index_with_empty_vector : gmap string content :=
  {[ "data/index.json" := Json (VObj [("count", VInt 1); ("items", VArr [record 1])]) ]}.

(** The embedding service answers every text with the vector [3, 4], so
    that every score is [1], on which [fixed4] is exact. *)
Definition steady_env : env := {|
  embeddings_api := fun _ _ => Returns (VObj [("embedding", VArr [VNum 3; VNum 4])]);
  chat_api := chat_api demo_env;
  now_iso := now_iso demo_env;
  fixed4 := fun x => x
|}.

(** An environment whose embedding service answers with an object that has
    no [embedding] field: the report of an error. *)
Definition no_model_env : env := {|
  embeddings_api := fun _ _ => Returns (VObj [("error", VStr (lit "model not found"))]);
  chat_api := chat_api demo_env;
  now_iso := now_iso demo_env;
  fixed4 := fixed4 demo_env
|}.

(** The services of the examples, with the variables of the environment not
    set. *)
Definition demo_server : server_env :=
  {| rag_env := steady_env; EMBED_MODEL := None; CHAT_MODEL := None |}.

Definition demo_upload : upload :=
  {| file_path := "uploads/doc.pdf"; originalname := lit "doc.pdf" |}.

(** A page with texts from earlier requests. *)
Definition used_page : page := {|
  indexStatus_textContent := shown (lit "Erreur: 500");
  answer_textContent := shown (lit "ok");
  sources_textContent := shown (lit "Sources:")
|}.

(** The embedding service answers every text with the vector
    [-0, Infinity, 0.5]. *)
Definition lossy_env : env := {|
  embeddings_api := fun _ _ =>
    Returns (VObj [("embedding", VArr [VNum neg_zero; VNum infinity; VNum 0.5])]);
  chat_api := chat_api demo_env;
  now_iso := now_iso demo_env;
  fixed4 := fun x => x
|}.

(** The embedding service answers for a text that begins with the letter
    [A], and is down for every other text. *)
Definition flaky_env : env := {|
  embeddings_api := fun _ text =>
    match text with
    | c :: _ =>
        if (code c =? 65)%N then Returns (VObj [("embedding", VArr [VNum 3; VNum 4])])
        else Throws "TypeError" "fetch failed"
    | [] => Throws "TypeError" "fetch failed"
    end;
  chat_api := chat_api demo_env;
  now_iso := now_iso demo_env;
  fixed4 := fun x => x
|}.

(** Windows of five code units that share two. *)
Definition small_index_args : index_args := {|
  pdfPath := "uploads/doc.pdf";
  outPath := "data/index.json";
  sourceName := lit "doc.pdf";
  chunkSize := 5;
  chunkOverlap := 2;
  embedModel := lit "nomic-embed-text"
|}.

(** An index with three records, whose vectors are at the angles of 90, 180
    and 0 degrees to the vector [3, 4] of the question of [steady_env]. *)
Definition index_with_three_vectors : gmap string content :=
  {[ "data/index.json" :=
       Json (VObj [("count", VInt 3);
                   ("items",
                    VArr [make_item (lit "doc.pdf") 0 (lit "one")
                            (VArr [VNum 4; VNum (-3)]);
                          make_item (lit "doc.pdf") 1 (lit "two")
                            (VArr [VNum (-3); VNum (-4)]);
                          make_item (lit "doc.pdf") 2 (lit "three")
                            (VArr [VNum 3; VNum 4])])]) ]}.

(** The two best matches are asked for. *)
Definition two_best_args : ask_args := {|
  indexPath := "data/index.json";
  question := lit "Quels sont les objectifs ?";
  topK := 2;
  chatModel := lit "llama3.2";
  askEmbedModel := lit "nomic-embed-text"
|}.

(** * Properties *)

(** Equations between lists that differ in the bracketing of [++] only. *)
Ltac reassoc :=
  repeat first [rewrite <- app_assoc | rewrite <- app_comm_cons
               | rewrite app_nil_r | rewrite app_nil_l];
  reflexivity.


(** ** The definitions at work *)

Example normalize_example :
  normalize (lit "  a" ++ [ascii_of_N 13; LF; LF; LF; LF] ++ lit "b  "
             ++ [ascii_of_N 9] ++ lit " c  ")
  = lit "a" ++ [LF; LF] ++ lit "b c".
Proof. reflexivity. Qed.

Example slice_example :
  slice (lit "abcdef") 2 4 = lit "cd" /\ slice (lit "abcdef") 4 100 = lit "ef" /\
  slice (lit "abcdef") 0 (-2) = lit "abcd".
Proof. repeat split. Qed.

(** The example of the specification: 15 characters, a window of 5 and an
    overlap of 2; the cursor takes the values 0, 3, 6, 9 and 12. *)
Example chunkText_example :
  chunkText (iteration_bound 15 5 2) (lit "AAAAABBBBBCCCCC") 5 2
  = Some [lit "AAAAA"; lit "AABBB"; lit "BBBBC"; lit "BCCCC"; lit "CCC"].
Proof. reflexivity. Qed.

Example chunkText_blank : chunkText 0 (lit "   ") 1200 200 = Some [].
Proof. reflexivity. Qed.

Example js_sort_example :
  List.map score (js_sort by_score_desc tie_example) = [0.9; 0.9; 0.2]%float.
Proof. reflexivity. Qed.

(** ** Strings *)

Lemma drop_white_head s c r : drop_white s = c :: r -> is_white c = false.
Proof.
  induction s as [|a s IH]; simpl; [discriminate|].
  destruct (is_white a) eqn:Ha; [exact IH|].
  intros [= <- <-]. exact Ha.
Qed.

Lemma drop_white_suffix s : suffix (drop_white s) s.
Proof.
  induction s as [|a s IH]; simpl; [done|].
  destruct (is_white a); [|done].
  by apply suffix_cons_r.
Qed.

Lemma drop_white_id c s : is_white c = false -> drop_white (c :: s) = c :: s.
Proof. intros H. simpl. by rewrite H. Qed.

Lemma drop_white_snoc s c :
  is_white c = false -> exists p, drop_white (s ++ [c]) = p ++ [c].
Proof.
  intros Hc. induction s as [|a s [p IH]]; simpl.
  - rewrite Hc. by exists [].
  - destruct (is_white a); [by exists p|]. by exists (a :: s).
Qed.

(** A trimmed string neither begins nor ends with white space. *)
Lemma trim_head s c r : trim s = c :: r -> is_white c = false.
Proof.
  unfold trim. intros H.
  destruct (drop_white_suffix (rev (drop_white s))) as [k Hk].
  apply (f_equal (@rev ascii)) in Hk.
  rewrite rev_involutive, rev_app_distr, H in Hk. simpl in Hk.
  by apply (drop_white_head s c (r ++ rev k)).
Qed.

Lemma trim_last s r d : trim s = r ++ [d] -> is_white d = false.
Proof.
  unfold trim. intros H.
  apply (f_equal (@rev ascii)) in H.
  rewrite rev_involutive, rev_app_distr in H. simpl in H.
  by apply (drop_white_head _ _ _ H).
Qed.

(** Trimming a string that begins with a code unit that is not white space
    leaves a string that is not empty. *)
Lemma trim_cons_nonwhite c s : is_white c = false -> trim (c :: s) <> [].
Proof.
  intros Hc. unfold trim. rewrite drop_white_id by done. simpl.
  destruct (drop_white_snoc (rev s) c Hc) as [p ->].
  rewrite rev_app_distr. simpl. discriminate.
Qed.

(** Trimming a string that ends with a code unit that is not white space
    only drops white space at its beginning. *)
Lemma trim_snoc_nonwhite s d :
  is_white d = false -> trim (s ++ [d]) = drop_white (s ++ [d]).
Proof.
  intros Hd. unfold trim.
  destruct (drop_white_snoc s d Hd) as [p ->].
  rewrite rev_app_distr. simpl. rewrite Hd. simpl.
  by rewrite rev_involutive.
Qed.

Lemma slice_range {A} (l : list A) (i e : Z) :
  0 <= i -> i <= e -> e <= jslength l ->
  slice l i e = take (Z.to_nat (e - i)) (drop (Z.to_nat i) l).
Proof.
  unfold jslength. intros Hi Hie He. unfold slice, rel_index.
  destruct (Z.ltb_spec i 0); [lia|]. destruct (Z.ltb_spec e 0); [lia|].
  by rewrite !Z.min_l by lia.
Qed.

Lemma slice_to_end {A} (l : list A) (i : Z) :
  0 <= i -> i <= jslength l -> slice l i (jslength l) = drop (Z.to_nat i) l.
Proof.
  intros Hi Hl. rewrite slice_range by lia.
  apply take_ge. rewrite length_drop. unfold jslength in *. lia.
Qed.

(** ** chunkText: the loop *)

Section Loop.

Variable cleaned : jsstring.
Variables chunkSize overlap : Z.

Let len := jslength cleaned.

Lemma pushed_cons s rest :
  pushed (s :: rest)
  = match trim s with [] => pushed rest | _ => trim s :: pushed rest end.
Proof. unfold pushed. simpl. by destruct (trim s). Qed.

(** The chunks returned are the chunks pushed for the slices of the loop. *)
Lemma chunk_loop_windows fuel : forall i chunks r,
  chunk_loop fuel cleaned chunkSize overlap i chunks = Some r ->
  r = chunks ++ pushed (windows fuel cleaned chunkSize overlap i).
Proof.
  induction fuel as [|fuel IH]; intros i chunks r; simpl;
    destruct (i <? jslength cleaned) eqn:Hi;
    try (intros [= <-]; by rewrite app_nil_r); try discriminate.
  unfold chunk_step. rewrite pushed_cons.
  destruct (Z.min (i + chunkSize) (jslength cleaned) =? jslength cleaned).
  - intros [= <-]. destruct (trim _); [by rewrite app_nil_r|done].
  - intros H. apply IH in H. subst r.
    destruct (trim _); [done|]. by rewrite <- app_assoc.
Qed.

Hypothesis window_pos : 0 < chunkSize.
Hypothesis overlap_lt : 0 <= overlap < chunkSize.

Let d := chunkSize - overlap.

(** With an overlap below the window, a pass that does not break moves the
    cursor forward by [chunkSize - overlap]. *)
Lemma chunk_step_advances i chunks chunks' i' :
  0 <= i ->
  chunk_step cleaned chunkSize overlap i chunks = (chunks', Some i') ->
  i' = i + d /\ i < i' < len.
Proof.
  intros Hi. unfold chunk_step. fold len.
  destruct (Z.eqb_spec (Z.min (i + chunkSize) len) len); [discriminate|].
  intros [= _ <-]. subst d. lia.
Qed.

Lemma chunk_loop_enough fuel : forall i chunks,
  0 <= i ->
  (len - i + d - 1) / d + 1 <= Z.of_nat fuel ->
  is_Some (chunk_loop fuel cleaned chunkSize overlap i chunks).
Proof.
  assert (Hd : 0 < d) by (subst d; lia).
  induction fuel as [|fuel IH]; intros i chunks Hi Hfuel; simpl; fold len;
    destruct (Z.ltb_spec i len) as [Hlt|Hge]; try done.
  - exfalso.
    assert (1 <= (len - i + d - 1) / d); [|lia].
    apply Z.div_le_lower_bound; lia.
  - destruct (chunk_step cleaned chunkSize overlap i chunks) as [chunks' [i'|]] eqn:Hs;
      [|done].
    apply chunk_step_advances in Hs as [-> _]; [|done].
    apply IH; [lia|].
    replace (len - (i + d) + d - 1) with (len - i + d - 1 + (-1) * d) by lia.
    rewrite Z.div_add by lia. lia.
Qed.

(** The loop ends within the bound of the specification. *)
Lemma chunk_loop_bound chunks :
  is_Some (chunk_loop (iteration_bound len chunkSize overlap) cleaned
             chunkSize overlap 0 chunks).
Proof.
  apply chunk_loop_enough; [done|]. unfold iteration_bound.
  rewrite Z.max_r by lia. fold d. rewrite Z.sub_0_r.
  assert (0 <= (len + d - 1) / d); [|lia].
  apply Z.div_pos; subst d len; unfold jslength; lia.
Qed.

(** The slices of the loop, put back together, are the text from the cursor
    on. *)
Lemma windows_reassemble fuel : forall i,
  0 <= i < len ->
  (len - i + d - 1) / d + 1 <= Z.of_nat fuel ->
  exists win rest,
    windows fuel cleaned chunkSize overlap i = win :: rest /\
    win = take (Z.to_nat (Z.min chunkSize (len - i))) (drop (Z.to_nat i) cleaned) /\
    (exists final, last (win :: rest) = Some final /\ suffix final cleaned) /\
    reassemble overlap (win :: rest) = drop (Z.to_nat i) cleaned.
Proof.
  assert (Hd : 0 < d) by (subst d; lia).
  induction fuel as [|fuel IH]; intros i Hi Hfuel.
  { exfalso. assert (1 <= (len - i + d - 1) / d); [|lia].
    apply Z.div_le_lower_bound; lia. }
  simpl. fold len. destruct (Z.ltb_spec i len) as [_|]; [|lia].
  destruct (Z.eqb_spec (Z.min (i + chunkSize) len) len) as [He|He].
  - exists (slice cleaned i (Z.min (i + chunkSize) len)), [].
    rewrite He. subst len. rewrite slice_to_end by lia.
    split; [done|]. split.
    { symmetry. rewrite Z.min_r by lia. apply take_ge. rewrite length_drop.
      unfold jslength. lia. }
    simpl. rewrite app_nil_r. split; [|done].
    eexists. split; [done|]. apply suffix_drop.
  - assert (Hend : Z.min (i + chunkSize) len = i + chunkSize) by lia.
    rewrite Hend. rewrite Z.max_r by lia.
    destruct (IH (i + chunkSize - overlap)) as (win' & rest' & Hw & Hwin' & Hlast & Hre).
    { lia. }
    { replace (len - (i + chunkSize - overlap) + d - 1)
        with (len - i + d - 1 + (-1) * d) by (subst d; lia).
      rewrite Z.div_add by lia. lia. }
    rewrite Hw.
    exists (slice cleaned i (i + chunkSize)), (win' :: rest').
    split; [done|].
    assert (Hslice : slice cleaned i (i + chunkSize)
              = take (Z.to_nat chunkSize) (drop (Z.to_nat i) cleaned)).
    { subst len. rewrite slice_range by lia. do 2 f_equal. lia. }
    split. { rewrite Hslice. do 2 f_equal. lia. }
    split. { destruct Hlast as (final & Hf & Hsuf). by exists final. }
    rewrite Hslice. simpl in Hre |- *.
    assert (Hlen' : (Z.to_nat overlap <= length win')%nat).
    { rewrite Hwin', length_take, length_drop. subst len. unfold jslength in *. lia. }
    assert (Hdrop : drop (Z.to_nat overlap) win'
                      ++ concat (List.map (drop (Z.to_nat overlap)) rest')
                    = drop (Z.to_nat (i + chunkSize)) cleaned).
    { rewrite <- drop_app_le by done. rewrite Hre, drop_drop. f_equal. lia. }
    rewrite Hdrop.
    replace (Z.to_nat (i + chunkSize)) with (Z.to_nat i + Z.to_nat chunkSize)%nat by lia.
    rewrite <- drop_drop. apply take_drop.
Qed.

End Loop.

Lemma windows_nonempty cleaned w o fuel : forall i,
  0 <= i -> 0 < w -> Forall (fun s => s <> []) (windows fuel cleaned w o i).
Proof.
  induction fuel as [|fuel IH]; intros i Hi Hw; simpl;
    destruct (Z.ltb_spec i (jslength cleaned)) as [Hlt|]; try done.
  constructor.
  - rewrite slice_range by lia. intros H%(f_equal length).
    rewrite length_take, length_drop in H. unfold jslength in *. simpl in H. lia.
  - destruct (_ =? _); [done|]. apply IH; lia.
Qed.

Lemma pushed_id slices :
  Forall (fun s => s <> []) slices -> Forall (fun s => trim s = s) slices ->
  pushed slices = slices.
Proof.
  induction 1 as [|s l Hs _ IH]; [done|]. intros Ht.
  apply Forall_cons in Ht as [Hts Htl]. rewrite pushed_cons, Hts, IH by done.
  by destruct s.
Qed.

Lemma pushed_snoc slices s :
  trim s <> [] -> pushed (slices ++ [s]) = pushed slices ++ [trim s].
Proof.
  intros Hs. induction slices as [|x l IH].
  - rewrite app_nil_l, pushed_cons. by destruct (trim s).
  - rewrite <- app_comm_cons, !pushed_cons, IH. by destruct (trim x).
Qed.

(** The loop stays at cursor [0] for ever when the overlap is not below the
    window and the text is longer than the window. *)
Lemma chunk_loop_stalls cleaned w o :
  0 < w <= o -> w < jslength cleaned ->
  forall fuel chunks, chunk_loop fuel cleaned w o 0 chunks = None.
Proof.
  intros Hw Hlen. induction fuel as [|fuel IH]; intros chunks; simpl;
    destruct (Z.ltb_spec 0 (jslength cleaned)); try lia; [done|].
  unfold chunk_step.
  destruct (Z.eqb_spec (Z.min (0 + w) (jslength cleaned)) (jslength cleaned)); [lia|].
  replace (Z.max 0 (Z.min (0 + w) (jslength cleaned) - o)) with 0 by lia.
  apply IH.
Qed.

(** The first pass pushes a chunk when the text begins with a code unit that
    is not white space. *)
Lemma chunk_loop_pushes c rest w o fuel r :
  is_white c = false -> 0 < w ->
  chunk_loop fuel (c :: rest) w o 0 [] = Some r -> r <> [].
Proof.
  intros Hc Hw. destruct fuel as [|fuel]; simpl;
    destruct (Z.ltb_spec 0 (jslength (c :: rest))) as [_|H];
    try discriminate; try (unfold jslength in H; simpl in H; lia).
  unfold chunk_step.
  set (e := Z.min (0 + w) (jslength (c :: rest))).
  assert (He : 1 <= e) by (subst e; unfold jslength; simpl; lia).
  assert (Hs : exists t, slice (c :: rest) 0 e = c :: t).
  { rewrite slice_range by (subst e; lia). simpl.
    destruct (Z.to_nat (e - 0)) eqn:Hn; [lia|]. simpl. eauto. }
  destruct Hs as [t ->].
  pose proof (trim_cons_nonwhite c t Hc) as Ht.
  destruct (trim (c :: t)) as [|x y] eqn:Htr; [done|].
  destruct (e =? _).
  - intros [= <-]. discriminate.
  - intros H%chunk_loop_windows. subst r. discriminate.
Qed.

(** What chunkText returns with an overlap below the window: nothing for a
    text that is white space only, something otherwise. *)
Lemma chunkText_blank_iff text w o :
  0 < w -> 0 <= o < w ->
  exists chunks,
    chunkText (iteration_bound (jslength (normalize text)) w o) text w o
      = Some chunks /\
    (chunks = [] <-> normalize text = []).
Proof.
  intros Hw Ho. unfold chunkText.
  destruct (chunk_loop_bound (normalize text) w o Hw Ho []) as [chunks Hc].
  exists chunks. split; [done|]. split.
  - intros ->. destruct (normalize text) as [|c rest] eqn:Hn; [done|].
    exfalso. eapply (chunk_loop_pushes c rest w o); [|done|exact Hc|done].
    unfold normalize in Hn. by eapply trim_head.
  - intros Hn. rewrite Hn in Hc.
    destruct (iteration_bound _ _ _); simpl in Hc; by injection Hc.
Qed.

(** Whatever the overlap, chunkText can only return the empty sequence for
    a text that is white space only. *)
Lemma chunkText_nil_iff text w o :
  0 < w ->
  (exists fuel, chunkText fuel text w o = Some []) <-> normalize text = [].
Proof.
  intros Hw. unfold chunkText. split.
  - intros [fuel H]. destruct (normalize text) as [|c rest] eqn:Hn; [done|].
    exfalso. eapply (chunk_loop_pushes c rest w o); [|done|exact H|done].
    unfold normalize in Hn. by eapply trim_head.
  - intros ->. by exists O.
Qed.

(** ** chunkText: the claims *)

(** C1, which fails on the code.  The claim asks for progress of the cursor
    and for termination within [iteration_bound] passes for every overlap,
    also an overlap that is not below the window.  With [0 < w <= o] and a
    normalized text longer than [w], the assignment
    [i = Math.max(0, end - overlap)] puts the cursor back to [0] after every
    pass, and chunkText is still running whatever the number of passes. *)
Theorem chunkText_overlap_ge_window_stalls text w o :
  0 < w <= o -> w < jslength (normalize text) ->
  (forall chunks, snd (chunk_step (normalize text) w o 0 chunks) = Some 0) /\
  (forall fuel, chunkText fuel text w o = None).
Proof.
  intros Hw Hlen. split.
  - intros chunks. unfold chunk_step.
    destruct (Z.eqb_spec (Z.min (0 + w) (jslength (normalize text)))
                (jslength (normalize text))); [lia|].
    simpl. f_equal. lia.
  - intros fuel. by apply chunk_loop_stalls.
Qed.

Lemma chunkText_overlap_ge_window_stalls_witness :
  (forall chunks, snd (chunk_step (normalize (lit "abcdef")) 2 2 0 chunks) = Some 0) /\
  (forall fuel, chunkText fuel (lit "abcdef") 2 2 = None).
Proof.
  apply chunkText_overlap_ge_window_stalls; [lia | vm_compute; reflexivity].
Defined.

(** With an overlap below the window the loop does what C1 asks for: the
    cursor moves forward by at least one code unit in every pass that does
    not break, and the loop ends within the bound of the specification. *)
Theorem chunkText_progress_below_window text w o :
  0 < w -> 0 <= o < w ->
  (forall i chunks chunks' i',
     0 <= i ->
     chunk_step (normalize text) w o i chunks = (chunks', Some i') ->
     i + 1 <= i') /\
  is_Some (chunkText (iteration_bound (jslength (normalize text)) w o) text w o).
Proof.
  intros Hw Ho. split.
  - intros i chunks chunks' i' Hi Hs.
    apply (chunk_step_advances (normalize text) w o Hw Ho) in Hs; [lia|done].
  - by apply chunk_loop_bound.
Qed.

Lemma chunkText_progress_below_window_witness :
  (forall i chunks chunks' i',
     0 <= i ->
     chunk_step (normalize (lit "AAAAABBBBBCCCCC")) 5 2 i chunks = (chunks', Some i') ->
     i + 1 <= i') /\
  is_Some (chunkText
             (iteration_bound (jslength (normalize (lit "AAAAABBBBBCCCCC"))) 5 2)
             (lit "AAAAABBBBBCCCCC") 5 2).
Proof. apply chunkText_progress_below_window; lia. Defined.

Lemma chunkText_blank_iff_witness :
  exists chunks,
    chunkText (iteration_bound (jslength (normalize (lit "  hello   world "))) 5 2)
      (lit "  hello   world ") 5 2 = Some chunks /\
    (chunks = [] <-> normalize (lit "  hello   world ") = []).
Proof. apply chunkText_blank_iff; lia. Defined.

(** C5 as it is stated fails: the segments of ["ab cd"] for a window of 3
    and no overlap are ["ab"] and ["cd"], the space of the first slice
    being trimmed away, and they do not give the text back. *)
Lemma chunkText_trim_loses_text :
  normalize (lit "ab cd") = lit "ab cd" /\
  chunkText (iteration_bound 5 3 0) (lit "ab cd") 3 0
    = Some [lit "ab"; lit "cd"] /\
  reassemble 0 [lit "ab"; lit "cd"] <> normalize (lit "ab cd").
Proof. repeat split. vm_compute. discriminate. Qed.

(** C5, amended.  For a text whose normalized form is not empty, a window
    [w > 0] and an overlap [0 <= o < w], chunkText returns the trimmed
    slices that are not empty.  The slices as they are cut, every one but
    the first giving up its first [o] code units, concatenate to exactly
    the normalized text; so do the segments when no slice begins or ends
    with white space.  The last segment ends where the text ends. *)
Theorem chunkText_slices_reconstruct text w o :
  normalize text <> [] -> 0 < w -> 0 <= o < w ->
  let cleaned := normalize text in
  let fuel := iteration_bound (jslength cleaned) w o in
  let slices := windows fuel cleaned w o 0 in
  chunkText fuel text w o = Some (pushed slices) /\
  reassemble o slices = cleaned /\
  (Forall (fun s => trim s = s) slices -> reassemble o (pushed slices) = cleaned) /\
  (exists final, last (pushed slices) = Some final /\ suffix final cleaned).
Proof.
  intros Hne Hw Ho cleaned fuel slices.
  assert (Hlen : 0 < jslength cleaned).
  { subst cleaned. unfold jslength. destruct (normalize text); [done|simpl; lia]. }
  destruct (windows_reassemble cleaned w o Hw Ho fuel 0)
    as (win & rest & Hwin & _ & (final & Hlast & Hsuf) & Hre).
  { lia. }
  { subst fuel. unfold iteration_bound. rewrite Z.max_r, Z.sub_0_r by lia.
    assert (0 <= (jslength cleaned + (w - o) - 1) / (w - o)); [|lia].
    apply Z.div_pos; lia. }
  fold slices in Hwin. rewrite <- Hwin in Hlast, Hre. simpl in Hre.
  split; [|split; [done|split]].
  - unfold chunkText. fold cleaned.
    destruct (chunk_loop_bound cleaned w o Hw Ho []) as [r Hr].
    fold fuel in Hr. rewrite Hr. f_equal.
    by apply chunk_loop_windows in Hr.
  - intros Hid. rewrite pushed_id; [done| |done].
    subst slices. by apply windows_nonempty.
  - apply last_Some in Hlast as [init Hinit].
    assert (Hfne : final <> []).
    { pose proof (windows_nonempty cleaned w o fuel 0 ltac:(lia) Hw) as Hall.
      fold slices in Hall. rewrite Hinit in Hall.
      by apply Forall_app in Hall as [_ [? _]%Forall_cons]. }
    destruct (exists_last Hfne) as (body & d & ->).
    assert (Hd : is_white d = false).
    { destruct Hsuf as [k Hk]. subst cleaned. unfold normalize in Hk.
      rewrite app_assoc in Hk. by eapply trim_last. }
    exists (drop_white (body ++ [d])). split.
    + rewrite Hinit, pushed_snoc; rewrite trim_snoc_nonwhite by done.
      * by rewrite last_snoc.
      * destruct (drop_white_snoc body d Hd) as [p ->]. by destruct p.
    + etrans; [apply drop_white_suffix|done].
Qed.

Lemma chunkText_slices_reconstruct_witness :
  let text := lit "  hello   world " in
  let cleaned := normalize text in
  let fuel := iteration_bound (jslength cleaned) 5 2 in
  let slices := windows fuel cleaned 5 2 0 in
  chunkText fuel text 5 2 = Some (pushed slices) /\
  reassemble 2 slices = cleaned /\
  (Forall (fun s => trim s = s) slices -> reassemble 2 (pushed slices) = cleaned) /\
  (exists final, last (pushed slices) = Some final /\ suffix final cleaned).
Proof.
  apply (chunkText_slices_reconstruct (lit "  hello   world ") 5 2);
    [vm_compute; discriminate | lia | lia].
Defined.

(** C9, which fails on the code.  The claim asks chunkText to return a
    sequence that is not empty for every text whose normalized form is not
    empty.  The normalized form of ["hello world"] is not empty, and with a
    window of 4 and an overlap of 7 chunkText returns nothing: it is still
    running whatever the number of passes, the cursor being put back to [0]
    as for C1. *)
Theorem chunkText_nonblank_text_no_result :
  normalize (lit "hello world") = lit "hello world" /\
  lit "hello world" <> [] /\
  (forall fuel, chunkText fuel (lit "hello world") 4 7 = None).
Proof.
  split; [reflexivity|]. split; [discriminate|].
  intros fuel. apply chunk_loop_stalls; [lia | vm_compute; reflexivity].
Qed.

(** ** cosineSimilarity *)

(** Multiplication of binary64 numbers is commutative. *)
Lemma float_mul_comm (x y : float) : (x * y)%float = (y * x)%float.
Proof.
  apply Prim2SF_inj. rewrite !mul_spec. unfold SF64mul, SFmul.
  destruct (Prim2SF x) as [sx|sx| |sx mx ex], (Prim2SF y) as [sy|sy| |sy my ey];
    try reflexivity; rewrite (xorb_comm sx sy); try reflexivity.
  by rewrite Pos.mul_comm, Z.add_comm.
Qed.

Lemma cosine_loop_sums n : forall i a b dot na nb,
  cosine_loop n i a b dot na nb
  = (fold_left (fun acc k => (acc + at_index a k * at_index b k)%float) (seq i n) dot,
     fold_left (fun acc k => (acc + at_index a k * at_index a k)%float) (seq i n) na,
     fold_left (fun acc k => (acc + at_index b k * at_index b k)%float) (seq i n) nb).
Proof. induction n as [|n IH]; intros; simpl; [done|]. by rewrite IH. Qed.

Lemma cosine_loop_swap n : forall i a b dot na nb,
  cosine_loop n i b a dot nb na
  = let '(d, x, y) := cosine_loop n i a b dot na nb in (d, y, x).
Proof.
  induction n as [|n IH]; intros; simpl; [done|].
  by rewrite (float_mul_comm (at_index b i) (at_index a i)), IH.
Qed.



Lemma is_zero_spec (x : float) :
  is_zero x = true -> exists s, Prim2SF x = S754_zero s.
Proof.
  unfold is_zero. rewrite FloatAxioms.eqb_spec. change (Prim2SF zero) with (S754_zero false).
  unfold SFeqb, SFcompare.
  destruct (Prim2SF x) as [s|s| |s m e]; try destruct s; try discriminate; eauto.
Qed.

(** The square of a zero is [+0]. *)
Lemma float_square_zero (x : float) : is_zero x = true -> (x * x)%float = 0%float.
Proof.
  intros [s Hs]%is_zero_spec. apply Prim2SF_inj. rewrite mul_spec, Hs.
  by destruct s.
Qed.

(** A product with [+0] is a zero or NaN: it is falsy. *)
Lemma float_mul_zero_falsy (x : float) : truthy (x * 0)%float = false.
Proof.
  unfold truthy, is_zero, is_nan. rewrite !FloatAxioms.eqb_spec, mul_spec.
  change (Prim2SF zero) with (S754_zero false).
  change (Prim2SF 0) with (S754_zero false).
  by destruct (Prim2SF x) as [s|s| |s m e]; try destruct s.
Qed.

Lemma norm_of_zeros (B : vector) n : forall i,
  (forall k, (i <= k < i + n)%nat -> is_zero (at_index B k) = true) ->
  fold_left (fun acc k => (acc + at_index B k * at_index B k)%float) (seq i n)
    0%float = 0%float.
Proof.
  induction n as [|n IH]; intros i H; simpl; [done|].
  rewrite float_square_zero by (apply H; lia).
  change (0 + 0)%float with 0%float. apply IH. intros k Hk. apply H. lia.
Qed.

Lemma cosine_loop_cons n x a y b : forall i dot na nb,
  cosine_loop n (S i) (x :: a) (y :: b) dot na nb = cosine_loop n i a b dot na nb.
Proof. induction n as [|n IH]; intros; simpl; [done|]. by rewrite IH. Qed.

(** The loop adds up the components of the two vectors, from the first one
    to the last one that both have. *)
Lemma cosine_loop_components (a : vector) : forall b dot na nb,
  cosine_loop (Nat.min (length a) (length b)) 0 a b dot na nb
  = (fold_left (fun acc p => (acc + fst p * snd p)%float) (combine a b) dot,
     fold_left (fun acc x => (acc + x * x)%float)
       (firstn (Nat.min (length a) (length b)) a) na,
     fold_left (fun acc y => (acc + y * y)%float)
       (firstn (Nat.min (length a) (length b)) b) nb).
Proof.
  induction a as [|x a IH]; intros [|y b] dot na nb; try done.
  simpl. rewrite cosine_loop_cons. apply IH.
Qed.

Lemma cosineSimilarity_computes (A B : vector) :
  cosineSimilarity A B = cosine_formula A B.
Proof.
  unfold cosineSimilarity, cosine_formula, denominator, sum_products, sum_squares,
    truthy.
  rewrite cosine_loop_components. by destruct (is_zero _ || is_nan _).
Qed.

(** C6 as it is stated fails: for the vectors [1e200] and [1e-200] the
    squared norm of the first overflows to infinity and the squared norm of
    the second underflows to zero, so that the denominator is NaN, which is
    no zero; the formula of the claim gives NaN there, and cosineSimilarity
    returns [0], the test [denom ? dot / denom : 0] taking NaN as false. *)
Lemma cosineSimilarity_denominator_nan :
  is_zero (denominator [1e200]%float [1e-200]%float) = false /\
  is_nan (denominator [1e200]%float [1e-200]%float) = true /\
  is_nan (cosine_formula_claimed [1e200]%float [1e-200]%float) = true /\
  cosineSimilarity [1e200]%float [1e-200]%float = 0%float /\
  cosineSimilarity [1e200]%float [1e-200]%float
  <> cosine_formula_claimed [1e200]%float [1e-200]%float.
Proof.
  repeat split; try (vm_compute; reflexivity).
  intros H%(f_equal is_nan). vm_compute in H. discriminate.
Qed.

(** C6, amended.  For all vectors [A] and [B], cosineSimilarity computes
    [dot / (sqrt(normA) * sqrt(normB))], where [dot], [normA] and [normB]
    are the sums over the indices below [min(len(A), len(B))], when that
    denominator is neither zero nor NaN; when the denominator is zero, as it
    is for a zero vector, or NaN, the result is [0].  Nothing is thrown (the
    function is total).  Where the denominator is a number, this is the
    formula of the specification. *)
Theorem cosineSimilarity_formula (A B : vector) :
  cosineSimilarity A B
  = (if is_zero (denominator A B) || is_nan (denominator A B) then 0%float
     else (sum_products A B / denominator A B)%float) /\
  (is_nan (denominator A B) = false ->
   cosineSimilarity A B = cosine_formula_claimed A B) /\
  (is_zero (denominator A B) = true -> cosineSimilarity A B = 0%float) /\
  (is_nan (denominator A B) = true -> cosineSimilarity A B = 0%float) /\
  (Forall (fun x => is_zero x = true) B -> cosineSimilarity A B = 0%float).
Proof.
  pose proof (cosineSimilarity_computes A B) as H. unfold cosine_formula in H.
  split; [done|]. split; [|split; [|split]].
  - intros Hn. rewrite H. unfold cosine_formula_claimed. rewrite Hn.
    by rewrite orb_false_r.
  - intros Hz. by rewrite H, Hz.
  - intros Hn. rewrite H, Hn. by rewrite orb_true_r.
  - intros HB. unfold cosineSimilarity. rewrite cosine_loop_sums.
    rewrite (norm_of_zeros B).
    + change (sqrt 0) with 0%float. by rewrite float_mul_zero_falsy.
    + intros k Hk. unfold at_index.
      rewrite Forall_forall in HB. apply HB, list_elem_of_In, nth_In. lia.
Qed.

Example cosineSimilarity_same : cosineSimilarity [3; 4]%float [3; 4]%float = 1%float.
Proof. reflexivity. Qed.

Example cosineSimilarity_zero : cosineSimilarity [3; 4]%float [0; 0]%float = 0%float.
Proof. reflexivity. Qed.

Example cosineSimilarity_overflow :
  cosineSimilarity [1e200]%float [0]%float = 0%float.
Proof. reflexivity. Qed.

(** C10.  cosineSimilarity is symmetric, also for vectors of different
    lengths: it reads the common prefix only, and the products and the two
    square roots are multiplied commutatively. *)
Theorem cosineSimilarity_sym (A B : vector) :
  cosineSimilarity A B = cosineSimilarity B A.
Proof.
  unfold cosineSimilarity. rewrite (Nat.min_comm (length B) (length A)).
  rewrite (cosine_loop_swap _ 0 A B).
  destruct (cosine_loop _ 0 A B 0 0 0) as [[dot na] nb].
  by rewrite (float_mul_comm (sqrt nb) (sqrt na)).
Qed.

Example cosineSimilarity_sym_lengths :
  cosineSimilarity [1; 2; 3]%float [0.5; 4]%float
  = cosineSimilarity [0.5; 4]%float [1; 2; 3]%float.
Proof. reflexivity. Qed.



(** ** Signs of differences of binary64 numbers *)

(** A number of [d] binary digits lies between [2 ^ (d - 1)] and [2 ^ d]. *)
Lemma digits2_pos_bounds (p : positive) :
  2 ^ (Zpos (digits2_pos p) - 1) <= Zpos p < 2 ^ Zpos (digits2_pos p).
Proof.
  induction p as [p IH|p IH|]; simpl digits2_pos; [| |simpl; lia];
    rewrite Pos2Z.inj_succ;
    set (d := Zpos (digits2_pos p)) in *;
    assert (Hd : 1 <= d) by (subst d; lia);
    replace (Z.succ d - 1) with d by lia;
    rewrite Z.pow_succ_r by lia;
    assert (Hpow : 2 ^ d = 2 * 2 ^ (d - 1))
      by (rewrite <- Z.pow_succ_r by lia; f_equal; lia);
    lia.
Qed.

(** A shift to the right by one bit halves the mantissa. *)
Lemma shr_1_m mrs : 0 <= shr_m mrs -> shr_m (shr_1 mrs) = shr_m mrs / 2.
Proof.
  destruct mrs as [m r s]. simpl. destruct m as [|p|p]; [done| |lia].
  intros _. destruct p as [p|p|]; simpl shr_m.
  - rewrite Pos2Z.inj_xI. apply Z.div_unique with 1; lia.
  - rewrite Pos2Z.inj_xO. apply Z.div_unique with 0; lia.
  - done.
Qed.

Lemma pow2_double z : 0 <= z -> 2 ^ (2 * z) = 2 ^ z * 2 ^ z.
Proof.
  intros Hz. replace (2 * z) with (z + z) by lia. by rewrite Z.pow_add_r.
Qed.

Lemma iter_pos_shr_1_m n : forall mrs,
  0 <= shr_m mrs -> shr_m (SpecFloat.iter_pos shr_1 n mrs) = shr_m mrs / 2 ^ Zpos n.
Proof.
  assert (Hpow : forall k, 0 < 2 ^ Zpos k) by (intros; apply Z.pow_pos_nonneg; lia).
  induction n as [n IH|n IH|]; intros mrs Hm; simpl SpecFloat.iter_pos.
  - assert (H1 : 0 <= shr_m (shr_1 mrs))
      by (rewrite shr_1_m by done; apply Z.div_pos; lia).
    assert (H2 : 0 <= shr_m (SpecFloat.iter_pos shr_1 n (shr_1 mrs)))
      by (rewrite IH by done; apply Z.div_pos; [done|apply Hpow]).
    rewrite IH, IH, shr_1_m by done.
    pose proof (Hpow n).
    rewrite !Z.div_div by lia. f_equal.
    change (Zpos n~1) with (1 + 2 * Zpos n).
    rewrite Z.pow_add_r, Z.pow_1_r, pow2_double by lia. ring.
  - assert (H2 : 0 <= shr_m (SpecFloat.iter_pos shr_1 n mrs))
      by (rewrite IH by done; apply Z.div_pos; [done|apply Hpow]).
    rewrite IH, IH by done.
    pose proof (Hpow n).
    rewrite !Z.div_div by lia. f_equal.
    change (Zpos n~0) with (2 * Zpos n).
    by rewrite pow2_double by lia.
  - rewrite shr_1_m by done. done.
Qed.

(** Shifting right to the canonical exponent leaves a mantissa that is not
    zero, when the exponent is not below [emin]. *)
Lemma shr_fexp_positive (m : positive) (e : Z) l :
  emin <= e ->
  exists m' , shr_m (fst (shr_fexp prec emax (Zpos m) e l)) = Zpos m' /\
    emin <= snd (shr_fexp prec emax (Zpos m) e l).
Proof.
  intros He. unfold shr_fexp, shr, fexp. simpl Zdigits2.
  pose proof (digits2_pos_bounds m) as Hd.
  set (d := Zpos (digits2_pos m)) in *.
  destruct (Z.max (d + e - prec) (SpecFloat.emin prec emax) - e) as [|n|n] eqn:Hn.
  - simpl. destruct l as [|[]]; simpl; eauto.
  - simpl snd. simpl fst.
    assert (Hnd : Zpos n = d - prec) by (unfold FloatOps.prec in *; lia).
    rewrite iter_pos_shr_1_m by (destruct l as [|[]]; simpl; lia).
    replace (shr_m (shr_record_of_loc (Zpos m) l)) with (Zpos m)
      by (by destruct l as [|[]]).
    assert (Hpos : 1 <= Zpos m / 2 ^ Zpos n).
    { apply Z.div_le_lower_bound; [apply Z.pow_pos_nonneg; lia|].
      rewrite Z.mul_1_r. transitivity (2 ^ (d - 1)); [|lia].
      apply Z.pow_le_mono_r; [lia|]. unfold FloatOps.prec in *. lia. }
    destruct (Zpos m / 2 ^ Zpos n) as [|q|q]; try lia.
    exists q. split; [done|]. lia.
  - simpl. destruct l as [|[]]; simpl; eauto.
Qed.

(** Rounding to nearest keeps a mantissa above zero. *)
Lemma round_nearest_even_positive (m : positive) l :
  exists m2 : positive, round_nearest_even (Zpos m) l = Zpos m2.
Proof.
  unfold round_nearest_even.
  destruct l as [|[]]; try destruct (Z.even (Zpos m)); eauto;
    by exists (m + 1)%positive.
Qed.

(** A positive integer multiple of [2 ^ e], with [e] at least [emin], is
    rounded to a number above zero. *)
Lemma binary_round_aux_positive (m : positive) (e : Z) l :
  emin <= e ->
  SFpositive (binary_round_aux prec emax false (Zpos m) e l) = true.
Proof.
  intros He. unfold binary_round_aux.
  destruct (shr_fexp_positive m e l He) as (m1 & Hm1 & He1).
  destruct (shr_fexp prec emax (Zpos m) e l) as [mrs1 e1]. simpl in Hm1, He1.
  rewrite Hm1.
  destruct (round_nearest_even_positive m1 (loc_of_shr_record mrs1)) as [m2 ->].
  destruct (shr_fexp_positive m2 e1 loc_Exact He1) as (m3 & Hm3 & _).
  destruct (shr_fexp prec emax (Zpos m2) e1 loc_Exact) as [mrs2 e2]. simpl in Hm3.
  rewrite Hm3. by destruct (Z.leb _ _).
Qed.

Lemma binary_round_positive (m : positive) (e : Z) :
  emin <= e -> SFpositive (binary_round prec emax false m e) = true.
Proof.
  intros He. unfold binary_round, shl_align.
  destruct (fexp prec emax (Zpos (digits2_pos m) + e) - e) as [|d|d] eqn:Hd;
    apply binary_round_aux_positive; try done.
  unfold fexp in *. lia.
Qed.

(** The mantissa aligned to a lower exponent. *)
Lemma shl_align_value (m : positive) (e ez : Z) :
  ez <= e -> Zpos (fst (shl_align m e ez)) = Zpos m * 2 ^ (e - ez).
Proof.
  intros He. unfold shl_align.
  destruct (ez - e) as [|d|d] eqn:Hd; simpl fst; [| lia |].
  - replace (e - ez) with 0 by lia. lia.
  - replace (e - ez) with (Zpos d) by lia.
    change (Pos.iter xO m d) with (Zpower.shift_pos d m).
    rewrite Zpower.shift_pos_correct. change (Z.pow_pos 2 d) with (2 ^ Zpos d). lia.
Qed.

(** A finite number of the format: its exponent is not below [emin], its
    mantissa has at most [prec] digits, and exactly [prec] above [emin]. *)
Lemma valid_finite s m e :
  valid_binary (S754_finite s m e) = true ->
  emin <= e /\ Zpos m < 2 ^ prec /\ (emin < e -> 2 ^ (prec - 1) <= Zpos m).
Proof.
  intros H. unfold SpecFloat.valid_binary, bounded, canonical_mantissa, fexp in H.
  apply andb_prop in H as [Hc _]. apply Z.eqb_eq in Hc.
  pose proof (digits2_pos_bounds m) as [Hlo Hhi].
  set (d := Zpos (digits2_pos m)) in *.
  assert (Hprec : 1 <= prec) by done.
  change IntDef.Z.max with Z.max in Hc.
  split; [lia|]. split.
  - eapply Z.lt_le_trans; [exact Hhi|]. apply Z.pow_le_mono_r; lia.
  - intros He. replace d with prec in Hlo by lia. done.
Qed.

Lemma aligned_exponent_lt (mx my : positive) (ex ey : Z) :
  Zpos mx < 2 ^ prec -> 2 ^ (prec - 1) <= Zpos my -> ex < ey ->
  Zpos mx < Zpos my * 2 ^ (ey - ex).
Proof.
  intros Hx Hy He.
  assert (H2 : 2 ^ 1 <= 2 ^ (ey - ex)) by (apply Z.pow_le_mono_r; lia).
  assert (Hp : 2 ^ prec = 2 ^ (prec - 1) * 2 ^ 1) by reflexivity.
  nia.
Qed.

(** For numbers of the format, [y - x] is above zero when [x] is below [y]. *)
Lemma SFsub_positive_of_lt (x y : spec_float) :
  valid_binary x = true -> valid_binary y = true ->
  SFcompare x y = Some Lt -> SFpositive (SFsub prec emax y x) = true.
Proof.
  intros Hx Hy.
  destruct x as [sx|sx| |sx mx ex], y as [sy|sy| |sy my ey]; simpl;
    try discriminate;
    try (by destruct sx; try destruct sy); try (by destruct sy).
  apply valid_finite in Hx as (Hex & Hmx & Hnx).
  apply valid_finite in Hy as (Hey & Hmy & Hny).
  intros Hc. change IntDef.Z.min with Z.min.
  assert (HM : 0 < cond_Zopp sy (Zpos (fst (shl_align my ey (Z.min ey ex))))
                   - cond_Zopp sx (Zpos (fst (shl_align mx ex (Z.min ey ex))))).
  { assert (Z.min ey ex <= ey) by lia.
    assert (Z.min ey ex <= ex) by lia.
    rewrite (shl_align_value my ey (Z.min ey ex)) by done.
    rewrite (shl_align_value mx ex (Z.min ey ex)) by done.
    assert (0 < 2 ^ (ey - Z.min ey ex)) by (apply Z.pow_pos_nonneg; lia).
    assert (0 < 2 ^ (ex - Z.min ey ex)) by (apply Z.pow_pos_nonneg; lia).
    assert (0 < Zpos my * 2 ^ (ey - Z.min ey ex)) by (apply Z.mul_pos_pos; lia).
    assert (0 < Zpos mx * 2 ^ (ex - Z.min ey ex)) by (apply Z.mul_pos_pos; lia).
    destruct sx, sy; unfold cond_Zopp; try discriminate; [| lia |].
    - (* both negative *)
      destruct (Z.compare_spec ex ey) as [->|Hlt|Hgt]; try discriminate.
      + rewrite Z.min_id, Z.sub_diag, !Z.mul_1_r.
        change (PosDef.Pos.compare_cont Eq mx my) with (Pos.compare mx my) in Hc.
        destruct (Pos.compare_spec mx my); try discriminate; lia.
      + rewrite Z.min_l by lia. rewrite Z.sub_diag.
        pose proof (aligned_exponent_lt my mx ey ex Hmy (Hnx ltac:(lia)) ltac:(lia)).
        lia.
    - (* both positive *)
      destruct (Z.compare_spec ex ey) as [->|Hlt|Hgt]; try discriminate.
      + rewrite Z.min_id, Z.sub_diag, !Z.mul_1_r.
        change (PosDef.Pos.compare_cont Eq mx my) with (Pos.compare mx my) in Hc.
        destruct (Pos.compare_spec mx my); try discriminate; lia.
      + rewrite Z.min_r by lia. rewrite Z.sub_diag.
        pose proof (aligned_exponent_lt mx my ex ey Hmx (Hny ltac:(lia)) ltac:(lia)).
        lia. }
  unfold binary_normalize.
  destruct (cond_Zopp sy _ - cond_Zopp sx _) as [|p|p]; try lia.
  apply binary_round_positive. lia.
Qed.

Lemma float_positive_spec (x : float) :
  (0 <? x)%float = SFpositive (Prim2SF x).
Proof.
  rewrite ltb_spec. change (Prim2SF 0) with (S754_zero false).
  unfold SFltb, SFcompare, SFpositive.
  by destruct (Prim2SF x) as [s|s| |s m e]; try destruct s.
Qed.

(** The difference of a number and a smaller one is positive: it is not
    rounded to zero. *)
Lemma float_lt_sub_positive (x y : float) :
  (x <? y)%float = true -> (0 <? y - x)%float = true.
Proof.
  rewrite float_positive_spec, sub_spec, ltb_spec. unfold SFltb.
  destruct (SFcompare (Prim2SF x) (Prim2SF y)) as [[]|] eqn:Hc; try discriminate.
  intros _. apply SFsub_positive_of_lt; auto using Prim2SF_valid.
Qed.

(** Comparing the other way round gives the opposite result. *)
Lemma SFcompare_antisym (x y : spec_float) :
  SFcompare y x = option_map CompOpp (SFcompare x y).
Proof.
  destruct x as [sx|sx| |sx mx ex], y as [sy|sy| |sy my ey]; simpl;
    try reflexivity; try (by destruct sx; try destruct sy); try (by destruct sy).
  rewrite (Z.compare_antisym ex ey).
  change (PosDef.Pos.compare_cont Eq my mx) with (Pos.compare my mx).
  change (PosDef.Pos.compare_cont Eq mx my) with (Pos.compare mx my).
  rewrite (Pos.compare_antisym mx my).
  destruct sx, sy; try reflexivity;
    destruct (ex ?= ey); simpl; try reflexivity;
    by destruct (mx ?= my)%positive.
Qed.

Lemma is_nan_false (x : float) : is_nan x = false -> Prim2SF x <> S754_nan.
Proof.
  unfold is_nan. rewrite FloatAxioms.eqb_spec. intros H Hn. by rewrite Hn in H.
Qed.

(** Of two numbers, the second is not above the first when the first is not
    below the second. *)
Lemma float_not_lt_ge (x y : float) :
  is_nan x = false -> is_nan y = false ->
  (x <? y)%float = false -> (y <=? x)%float = true.
Proof.
  intros Hx%is_nan_false Hy%is_nan_false.
  rewrite ltb_spec, leb_spec. unfold SFltb, SFleb.
  rewrite (SFcompare_antisym (Prim2SF x) (Prim2SF y)).
  destruct (Prim2SF x) as [sx|sx| |sx mx ex], (Prim2SF y) as [sy|sy| |sy my ey];
    try done; simpl;
    try (by destruct sx; try destruct sy); try (by destruct sy).
  by destruct sx, sy, (ex ?= ey), (PosDef.Pos.compare_cont Eq mx my).
Qed.

(** The test of the sort and the order of the scores: when [y - x] is not
    positive, [y] is not above [x]. *)
Lemma float_sub_not_positive (x y : float) :
  is_nan x = false -> is_nan y = false ->
  (0 <? y - x)%float = false -> (y <=? x)%float = true.
Proof.
  intros Hx Hy Hs. apply float_not_lt_ge; try done.
  destruct (x <? y)%float eqn:Hlt; [|done].
  apply float_lt_sub_positive in Hlt. congruence.
Qed.

(** Rounding keeps the sign that it is given. *)
Lemma binary_round_sign s m e :
  SFpositive (binary_round prec emax s m e) = true -> s = false.
Proof.
  unfold binary_round, binary_round_aux.
  destruct (shl_align _ _ _) as [mz ez].
  destruct (shr_fexp _ _ _ _ _) as [mrs' e'].
  destruct (shr_fexp _ _ _ _ _) as [mrs'' e''].
  destruct (shr_m mrs'') as [|p|p]; simpl; [by destruct s| |done].
  destruct (Z.leb _ _); simpl; by destruct s.
Qed.

Lemma binary_normalize_positive m e :
  SFpositive (binary_normalize prec emax m e false) = true -> 0 < m.
Proof.
  destruct m as [|p|p]; simpl; [done|lia|].
  by intros H%binary_round_sign.
Qed.

Lemma binary_normalize_negative m e :
  m < 0 -> SFpositive (binary_normalize prec emax m e false) = false.
Proof.
  destruct m as [|p|p]; simpl; try lia. intros _.
  destruct (SFpositive _) eqn:H; [|done]. by apply binary_round_sign in H.
Qed.

Lemma SFsub_positive_antisym (x y : spec_float) :
  SFpositive (SFsub prec emax y x) = true ->
  SFpositive (SFsub prec emax x y) = false.
Proof.
  destruct x as [sx|sx| |sx mx ex], y as [sy|sy| |sy my ey]; simpl;
    try done; try (by destruct sx; try destruct sy); try (by destruct sy).
  intros H%binary_normalize_positive.
  apply binary_normalize_negative. rewrite (Z.min_comm ex ey). lia.
Qed.

(** The difference of two numbers that compare equal is not positive. *)
Lemma SFsub_not_positive_of_eq (x y : spec_float) :
  SFcompare x y = Some Eq -> SFpositive (SFsub prec emax y x) = false.
Proof.
  destruct x as [sx|sx| |sx mx ex], y as [sy|sy| |sy my ey]; simpl;
    try discriminate;
    try (by destruct sx; try destruct sy); try (by destruct sy).
  intros Hc.
  assert (Heq : sx = sy /\ ex = ey /\ mx = my).
  { change (PosDef.Pos.compare_cont Eq mx my) with (Pos.compare mx my) in Hc.
    destruct sx, sy; try discriminate;
      destruct (Z.compare_spec ex ey); try discriminate;
      destruct (Pos.compare_spec mx my); try discriminate; done. }
  destruct Heq as (-> & -> & ->). by rewrite Z.sub_diag.
Qed.

(** The test of the sort, [b.score - a.score > 0], holds exactly when the
    score of [a] is below the score of [b]. *)
Lemma float_sub_positive_iff (x y : float) :
  (0 <? y - x)%float = (x <? y)%float.
Proof.
  destruct (x <? y)%float eqn:Hlt; [by apply float_lt_sub_positive|].
  rewrite float_positive_spec, sub_spec.
  rewrite ltb_spec in Hlt. unfold SFltb in Hlt.
  destruct (SFcompare (Prim2SF x) (Prim2SF y)) as [[]|] eqn:Hc; try discriminate.
  - by apply SFsub_not_positive_of_eq.
  - apply SFsub_positive_antisym, SFsub_positive_of_lt; auto using Prim2SF_valid.
    by rewrite SFcompare_antisym, Hc.
  - destruct (Prim2SF x) as [sx|sx| |sx mx ex], (Prim2SF y) as [sy|sy| |sy my ey];
      try discriminate; done.
Qed.

(** When [y - x] is positive, [x - y] is not. *)
Lemma float_sub_positive_antisym (x y : float) :
  (0 <? y - x)%float = true -> (0 <? x - y)%float = false.
Proof.
  rewrite !float_positive_spec, !sub_spec. apply SFsub_positive_antisym.
Qed.

(** ** The stable sort *)

Section SortFacts.

Context {A : Type}.
Variable compareFn : A -> A -> float.

(** Where [sort_insert] puts [x]: behind the elements that the comparison
    asks to have first, and before the first one that may stay behind. *)
Lemma sort_insert_split x sorted :
  exists p q, sorted = p ++ q /\ sort_insert compareFn x sorted = p ++ x :: q /\
    Forall (fun z => (0 <? compareFn x z)%float = true) p /\
    match q with [] => True | y :: _ => in_order compareFn x y end.
Proof.
  induction sorted as [|y rest (p & q & -> & Hi & Hp & Hq)]; simpl.
  - by exists [], [].
  - destruct (0 <? compareFn x y)%float eqn:Hxy.
    + exists (y :: p), q. rewrite Hi. repeat split; [by constructor|done].
    + by exists [], (y :: p ++ q).
Qed.

Lemma sort_insert_perm x sorted : sort_insert compareFn x sorted ≡ₚ x :: sorted.
Proof.
  destruct (sort_insert_split x sorted) as (p & q & -> & -> & _).
  by rewrite Permutation_middle.
Qed.

Lemma js_sort_perm l : js_sort compareFn l ≡ₚ l.
Proof.
  induction l as [|x l IH]; simpl; [done|].
  by rewrite sort_insert_perm, IH.
Qed.

Lemma before_insert x y z sorted :
  before x y sorted -> before x y (sort_insert compareFn z sorted).
Proof.
  intros (r1 & r2 & r3 & Hs).
  destruct (sort_insert_split z sorted) as (p & q & Hpq & -> & _).
  rewrite Hs in Hpq. clear Hs.
  (* [z] falls in one of the three stretches around [x] and [y] *)
  apply app_eq_inv in Hpq as [(k & -> & ->)|(k & -> & Hk)].
  { exists (p ++ z :: k), r2, r3. reassoc. }
  destruct k as [|a k]; simpl in Hk.
  { subst q. exists (r1 ++ [z]), r2, r3. reassoc. }
  injection Hk as <- Hk.
  apply app_eq_inv in Hk as [(k' & -> & ->)|(k' & -> & Hk)].
  { exists r1, (k ++ z :: k'), r3. reassoc. }
  destruct k' as [|b k']; simpl in Hk.
  { subst q. exists r1, (r2 ++ [z]), r3. reassoc. }
  injection Hk as <- ->. exists r1, r2, (k' ++ z :: q). reassoc.
Qed.

Lemma before_insert_self x y sorted :
  in_order compareFn x y -> y ∈ sorted -> before x y (sort_insert compareFn x sorted).
Proof.
  intros Hxy Hy.
  destruct (sort_insert_split x sorted) as (p & q & -> & -> & Hp & _).
  apply elem_of_app in Hy as [Hy|Hy].
  - rewrite Forall_forall in Hp. apply Hp in Hy. unfold in_order in Hxy. congruence.
  - apply list_elem_of_split in Hy as (q1 & q2 & ->). by exists p, q1, q2.
Qed.

(** The sort is stable: [x] stays before [y] unless the comparison asks for
    [y] first. *)
Lemma js_sort_stable l1 x l2 y l3 :
  in_order compareFn x y ->
  before x y (js_sort compareFn (l1 ++ x :: l2 ++ y :: l3)).
Proof.
  intros Hxy. induction l1 as [|a l1 IH]; simpl.
  - apply before_insert_self; [done|].
    rewrite js_sort_perm. set_solver.
  - by apply before_insert.
Qed.

Hypothesis compare_antisym : forall x y,
  (0 <? compareFn x y)%float = true -> (0 <? compareFn y x)%float = false.

Lemma sort_insert_sorted x sorted :
  Sorted (in_order compareFn) sorted -> Sorted (in_order compareFn) (sort_insert compareFn x sorted).
Proof.
  induction 1 as [|y rest Hrest IH Hhd]; simpl; [by repeat constructor|].
  destruct (0 <? compareFn x y)%float eqn:Hxy.
  - constructor; [done|].
    destruct rest as [|z rest]; simpl.
    + constructor. by apply compare_antisym.
    + destruct (0 <? compareFn x z)%float.
      * constructor. by inversion Hhd.
      * constructor. by apply compare_antisym.
  - constructor; [by constructor|by constructor].
Qed.

Lemma js_sort_sorted l : Sorted (in_order compareFn) (js_sort compareFn l).
Proof.
  induction l as [|x l IH]; simpl; [constructor|by apply sort_insert_sorted].
Qed.

Lemma Sorted_take (R : A -> A -> Prop) n : forall l,
  Sorted R l -> Sorted R (take n l).
Proof.
  induction n as [|n IH]; intros l Hl; [constructor|].
  destruct Hl as [|x l Hl Hhd]; simpl; [constructor|].
  constructor; [by apply IH|].
  destruct Hhd; destruct n; simpl; by constructor.
Qed.

End SortFacts.

(** ** The ranking step *)

Lemma slice_first {A} (l : list A) (k : Z) :
  0 <= k -> slice l 0 k = take (Z.to_nat k) l.
Proof.
  intros Hk. unfold slice, rel_index.
  change (0 <? 0) with false. cbv iota.
  destruct (Z.ltb_spec k 0); [lia|].
  replace (Z.min 0 (Z.of_nat (length l))) with 0 by lia.
  rewrite Z.sub_0_r. change (Z.to_nat 0) with 0%nat. rewrite drop_0.
  destruct (Z.le_ge_cases k (Z.of_nat (length l))).
  - by rewrite Z.min_l by lia.
  - rewrite Z.min_r by lia. rewrite !take_ge; [done|lia|lia].
Qed.

(** C4 as it is stated fails on its own example: the two records with score
    0.9 stay in the order of the collection, sequence number 2 before
    sequence number 1. *)
Lemma rank_tie_keeps_collection_order :
  List.map sequence_number (rank tie_example 2) = [VInt 2; VInt 1] /\
  List.map sequence_number (rank tie_example 2) <> [VInt 1; VInt 2].
Proof. split; [reflexivity|]. vm_compute. discriminate. Qed.

Lemma Sorted_weaken {A} (R R' : A -> A -> Prop) (P : A -> Prop) l :
  (forall x y, P x -> P y -> R x y -> R' x y) ->
  Forall P l -> Sorted R l -> Sorted R' l.
Proof.
  intros HR HP Hs. induction Hs as [|x l Hs IH Hhd]; [constructor|].
  apply Forall_cons in HP as [Hx Hl]. constructor; [by apply IH|].
  destruct Hhd as [|y l' Hxy]; constructor.
  apply Forall_cons in Hl as [Hy _]. by apply HR.
Qed.

(** C4, amended.  For every collection of scored records none of whose
    scores is NaN, and every count [k >= 0], the ranking step returns the
    first [k] records of the stable sort by descending score: at most [k]
    matches, sorted descending by similarity score (the score of every
    match is at least the score of the match after it); the sorted records
    are the records of the collection, so that with [k >= N] all [N]
    records are returned.  Two records stay in the order that they have in
    the collection unless the second has the higher score, so that ties
    (equal scores) are broken by position in the collection and not by
    sequence number: in the example of the specification the result is the
    sequence numbers 2, 1. *)
Theorem rank_sorted_stable (scoredItems : list scored) (k : Z) :
  Forall (fun s => is_nan (score s) = false) scoredItems ->
  0 <= k ->
  let sorted := js_sort by_score_desc scoredItems in
  let result := rank scoredItems k in
  result = take (Z.to_nat k) sorted /\
  jslength result <= k /\
  Permutation sorted scoredItems /\
  Sorted (fun x y => (score y <=? score x)%float = true) sorted /\
  Sorted (fun x y => (score y <=? score x)%float = true) result /\
  Sorted (fun x y => (score x <? score y)%float = false) result /\
  (jslength scoredItems <= k -> Permutation result scoredItems) /\
  (forall l1 x l2 y l3,
     scoredItems = l1 ++ x :: l2 ++ y :: l3 ->
     (score x <? score y)%float = false ->
     before x y sorted) /\
  List.map sequence_number (rank tie_example 2) = [VInt 2; VInt 1].
Proof.
  intros Hnan Hk sorted result.
  assert (Hres : result = take (Z.to_nat k) sorted).
  { subst result. unfold rank. by apply slice_first. }
  assert (Hlt : Sorted (fun x y => (score x <? score y)%float = false) sorted).
  { eapply (Sorted_weaken _ _ (fun _ => True)); [| |apply (js_sort_sorted by_score_desc)].
    - intros x y _ _. unfold in_order, by_score_desc.
      by rewrite float_sub_positive_iff.
    - by apply Forall_true.
    - intros x y. apply float_sub_positive_antisym. }
  assert (Hnan' : Forall (fun s => is_nan (score s) = false) sorted).
  { eapply Forall_forall. intros s Hs. rewrite Forall_forall in Hnan. apply Hnan.
    by rewrite <- (js_sort_perm by_score_desc scoredItems). }
  assert (Hge : Sorted (fun x y => (score y <=? score x)%float = true) sorted).
  { eapply (Sorted_weaken _ _ (fun s => is_nan (score s) = false)); [| |exact Hlt].
    - intros x y Hx Hy. by apply float_not_lt_ge.
    - done. }
  split; [done|]. split; [|split; [|split; [done|split; [|split; [|split; [|split]]]]]].
  - rewrite Hres. unfold jslength. rewrite length_take. lia.
  - apply js_sort_perm.
  - rewrite Hres. by apply Sorted_take.
  - rewrite Hres. by apply Sorted_take.
  - intros HN. rewrite Hres, take_ge.
    + apply js_sort_perm.
    + subst sorted. rewrite (js_sort_perm by_score_desc scoredItems).
      unfold jslength in HN. lia.
  - intros l1 x l2 y l3 -> Hxy. apply js_sort_stable.
    unfold in_order, by_score_desc. by rewrite float_sub_positive_iff.
  - reflexivity.
Qed.

Lemma rank_sorted_stable_witness :
  let scoredItems := tie_example in
  let k := 2 in
  let sorted := js_sort by_score_desc scoredItems in
  let result := rank scoredItems k in
  Forall (fun s => is_nan (score s) = false) scoredItems /\
  result = take (Z.to_nat k) sorted /\
  jslength result <= k /\
  Permutation sorted scoredItems /\
  Sorted (fun x y => (score y <=? score x)%float = true) sorted /\
  Sorted (fun x y => (score y <=? score x)%float = true) result /\
  Sorted (fun x y => (score x <? score y)%float = false) result /\
  (jslength scoredItems <= k -> Permutation result scoredItems) /\
  (forall l1 x l2 y l3,
     scoredItems = l1 ++ x :: l2 ++ y :: l3 ->
     (score x <? score y)%float = false ->
     before x y sorted) /\
  List.map sequence_number (rank tie_example 2) = [VInt 2; VInt 1].
Proof.
  assert (H : Forall (fun s => is_nan (score s) = false) tie_example)
    by (repeat constructor).
  split; [exact H|]. apply (rank_sorted_stable tie_example 2 H). lia.
Defined.

(** ** indexPdfToJson and answerQuestion: the errors *)

Example indexPdfToJson_demo :
  fst (indexPdfToJson demo_env 10 demo_index_args (one_pdf (lit "Hello  world")))
  = Returns {| stats_chunks := 1; stats_embedModel := lit "nomic-embed-text";
               stats_source := lit "doc.pdf" |}.
Proof. reflexivity. Qed.

(** C3 as it is stated fails: for a PDF whose text is white space only,
    segmentation yields no segment, and indexPdfToJson returns normally and
    writes an index without records. *)
Lemma indexPdfToJson_blank_pdf_writes_index :
  chunkText 10 (lit "   ") 1200 200 = Some [] /\
  fst (indexPdfToJson demo_env 10 demo_index_args (one_pdf (lit "   ")))
  = Returns {| stats_chunks := 0; stats_embedModel := lit "nomic-embed-text";
               stats_source := lit "doc.pdf" |} /\
  snd (indexPdfToJson demo_env 10 demo_index_args (one_pdf (lit "   ")))
    !! "data/index.json"
  = Some (Json (empty_index demo_env demo_index_args)).
Proof. repeat split. Qed.

(** C3, amended.  When segmentation yields zero segments, indexPdfToJson
    does not fail: it returns normally with [chunks = 0] and writes to
    [outPath] an index with [count = 0] and no record.  The index without
    records is refused when it is loaded: answerQuestion on it throws the
    Error "Index vide.". *)
Theorem indexPdfToJson_zero_segments E fuel a fs texte :
  fs !! pdfPath a = Some (Pdf texte) ->
  chunkText fuel texte (chunkSize a) (chunkOverlap a) = Some [] ->
  indexPdfToJson E fuel a fs
  = (Returns {| stats_chunks := 0; stats_embedModel := embedModel a;
                stats_source := sourceName a |},
     <[outPath a := Json (empty_index E a)]> fs) /\
  (forall q, indexPath q = outPath a ->
     answerQuestion E q (<[outPath a := Json (empty_index E a)]> fs)
     = Throws "Error" "Index vide.").
Proof.
  intros Hpdf Hchunks. split.
  - unfold indexPdfToJson. by rewrite Hpdf, Hchunks.
  - intros q Hq. unfold answerQuestion, load_index, index_items.
    by rewrite Hq, lookup_insert_eq.
Qed.

Lemma indexPdfToJson_zero_segments_witness :
  indexPdfToJson demo_env 10 demo_index_args (one_pdf (lit "   "))
  = (Returns {| stats_chunks := 0; stats_embedModel := lit "nomic-embed-text";
                stats_source := lit "doc.pdf" |},
     <["data/index.json" := Json (empty_index demo_env demo_index_args)]>
       (one_pdf (lit "   "))) /\
  (forall q, indexPath q = "data/index.json" ->
     answerQuestion demo_env q
       (<["data/index.json" := Json (empty_index demo_env demo_index_args)]>
          (one_pdf (lit "   ")))
     = Throws "Error" "Index vide.").
Proof.
  apply (indexPdfToJson_zero_segments demo_env 10 demo_index_args
           (one_pdf (lit "   ")) (lit "   ")); reflexivity.
Defined.

(** C8 as it is stated fails: without a file at the index location
    answerQuestion throws a generic [Error], which the message alone tells
    from other errors, and no [IndexNotFoundError]. *)
Lemma answerQuestion_missing_index_generic_error :
  answerQuestion demo_env demo_ask_args ∅
  = Throws "Error" "Index introuvable. Fais d'abord l'indexation du PDF." /\
  (forall message,
     answerQuestion demo_env demo_ask_args ∅
     <> Throws "IndexNotFoundError" message).
Proof. split; [reflexivity|]. intros message. vm_compute. discriminate. Qed.

(** C8, amended.  answerQuestion fails with an [Error] whose message is
    "Index introuvable. Fais d'abord l'indexation du PDF." when no file
    exists at the index location, and with an [Error] whose message is
    "Index vide." when the loaded index contains zero records.  Both are
    generic errors of the same name; the caller tells them apart by their
    messages, which differ.  Neither is a crash: the call ends with the
    thrown error. *)
Theorem answerQuestion_load_errors (E : env) (a : ask_args)
    (fs : gmap string content) :
  (fs !! indexPath a = None ->
   answerQuestion E a fs
   = Throws "Error" "Index introuvable. Fais d'abord l'indexation du PDF.") /\
  (forall db, fs !! indexPath a = Some (Json db) ->
     opt_prop db "items" = VArr [] ->
     answerQuestion E a fs = Throws "Error" "Index vide.") /\
  "Index introuvable. Fais d'abord l'indexation du PDF." <> "Index vide.".
Proof.
  split; [|split; [|discriminate]].
  - intros H. unfold answerQuestion, load_index, index_items. by rewrite H.
  - intros db H Hitems. unfold answerQuestion, load_index, index_items. rewrite H. simpl.
    by rewrite Hitems.
Qed.

Lemma answerQuestion_load_errors_witness :
  answerQuestion demo_env demo_ask_args ∅
  = Throws "Error" "Index introuvable. Fais d'abord l'indexation du PDF." /\
  answerQuestion demo_env demo_ask_args
    {[ "data/index.json" := Json (empty_index demo_env demo_index_args) ]}
  = Throws "Error" "Index vide.".
Proof.
  split.
  - apply (answerQuestion_load_errors demo_env demo_ask_args ∅). reflexivity.
  - apply (answerQuestion_load_errors demo_env demo_ask_args
             {[ "data/index.json" := Json (empty_index demo_env demo_index_args) ]})
      with (db := empty_index demo_env demo_index_args); reflexivity.
Defined.

(** ** The ranking step and the lengths of the vectors *)




Example cosineSimilarity_shorter :
  cosineSimilarity [3; 4; 100]%float [3; 4]%float = 1%float.
Proof. reflexivity. Qed.

(** ** The persisted index *)

Lemma json_number_stringify (x : float) :
  json_number x = true ->
  (if is_finite x then (if is_zero x then VNum 0%float else VNum x) else VNull)
  = VNum x.
Proof.
  unfold json_number. intros [-> H]%andb_prop.
  destruct (is_zero x); [|done]. simpl in H.
  by apply FloatAxioms.Leibniz.eqb_spec in H as ->.
Qed.

(** A JSON document is written as it is. *)
Lemma stringify_doc (v : value) :
  json_doc v = true -> SerializeJSONProperty v = Some v.
Proof.
  induction v as [| | | | |s|xs IH|props IH] using value_ind; simpl;
    try done.
  - intros H. by rewrite json_number_stringify.
  - intros H. do 2 f_equal.
    induction IH as [|x xs Hx _ IHxs]; [done|]. simpl in H |- *.
    apply andb_prop in H as [H1 H2]. by rewrite Hx, IHxs.
  - intros H. do 2 f_equal.
    induction IH as [|[k x] ps Hx _ IHps]; [done|]. simpl in H, Hx |- *.
    apply andb_prop in H as [H1 H2]. by rewrite Hx, IHps.
Qed.

(** The records that the loop of indexPdfToJson adds: one for each chunk,
    in the order of the chunks, numbered from [i + 1] on. *)
Lemma embed_chunks_returns E src model chunks : forall i acc r,
  embed_chunks E src model i chunks acc = Returns r ->
  exists new, r = acc ++ new /\ length new = length chunks /\
    forall (k : nat) it, new !! k = Some it ->
      exists text emb, chunks !! k = Some text /\
        ollamaEmbeddings E model text = Returns emb /\
        it = make_item src (i + Z.of_nat k) text emb.
Proof.
  induction chunks as [|text rest IH]; intros i acc r; simpl.
  - intros [= <-]. exists []. rewrite app_nil_r. repeat split. by intros k it.
  - unfold mbind, outcome_bind, bind.
    destruct (ollamaEmbeddings E model text) as [emb| | |] eqn:He; try done.
    intros (new & -> & Hlen & Hnew)%IH.
    exists (make_item src i text emb :: new).
    split; [by rewrite <- app_assoc|]. split; [simpl; lia|].
    intros [|k] it; simpl.
    + intros [= <-]. exists text, emb. by rewrite Z.add_0_r.
    + intros (t & e & ? & ? & ->)%Hnew. exists t, e. repeat split; try done.
      f_equal. lia.
Qed.

(** Every record gets its position in the order of emission, counted from
    1, as its sequence number. *)
Lemma embed_chunks_numbers E src model chunks items :
  embed_chunks E src model 0 chunks [] = Returns items ->
  length items = length chunks /\
  forall (k : nat) it, items !! k = Some it ->
    opt_prop it "chunk" = VInt (Z.of_nat k + 1) /\
    exists text, chunks !! k = Some text /\ opt_prop it "text" = VStr text.
Proof.
  intros (new & -> & Hlen & Hnew)%embed_chunks_returns. simpl.
  split; [done|]. intros k it (text & emb & Ht & _ & ->)%Hnew.
  split; [done|]. by exists text.
Qed.

Lemma embed_chunks_numbers_witness :
  length [make_item (lit "doc.pdf") 0 (lit "one") (VArr [VNum 1; VNum 0.5]);
          make_item (lit "doc.pdf") 1 (lit "two") (VArr [VNum 1; VNum 0.5])]
  = length [lit "one"; lit "two"] /\
  forall (k : nat) it,
    [make_item (lit "doc.pdf") 0 (lit "one") (VArr [VNum 1; VNum 0.5]);
     make_item (lit "doc.pdf") 1 (lit "two") (VArr [VNum 1; VNum 0.5])] !! k
    = Some it ->
    opt_prop it "chunk" = VInt (Z.of_nat k + 1) /\
    exists text, [lit "one"; lit "two"] !! k = Some text /\
                 opt_prop it "text" = VStr text.
Proof.
  apply (embed_chunks_numbers demo_env (lit "doc.pdf") (lit "nomic-embed-text")).
  reflexivity.
Defined.

Lemma make_payload_doc E a items :
  Forall (fun it => json_doc it = true) items ->
  json_doc (make_payload E a items) = true.
Proof.
  intros H. simpl. rewrite andb_true_r.
  induction H as [|it l Hit _ IH]; [done|]. simpl. by rewrite Hit, IH.
Qed.

Lemma lookup_map {A B} (f : A -> B) (l : list A) (k : nat) :
  List.map f l !! k = f <$> l !! k.
Proof. revert k. induction l as [|x l IH]; intros [|k]; simpl; auto. Qed.

(** An array of numbers is written component by component. *)
Lemma stringify_numbers (xs : list float) :
  SerializeJSONProperty (VArr (List.map VNum xs))
  = Some (VArr (List.map stored_number xs)).
Proof.
  simpl. do 2 f_equal. rewrite List.map_map. apply List.map_ext. intros x.
  simpl. unfold stored_number, is_finite.
  by destruct (is_nan x || is_infinity x).
Qed.

(** C7 as it is stated fails: the vector [-0, Infinity, 0.5] of the
    embedding service is part of the index that is built, and what is read
    back of it from the persisted index is [0, null, 0.5]. *)
Lemma persisted_index_loses_numbers :
  let run :=
    indexPdfToJson lossy_env 10 demo_index_args (one_pdf (lit "Hello  world")) in
  let built :=
    make_item (lit "doc.pdf") 0 (lit "Hello world")
      (VArr [VNum neg_zero; VNum infinity; VNum 0.5]) in
  let read :=
    make_item (lit "doc.pdf") 0 (lit "Hello world")
      (VArr [VNum 0; VNull; VNum 0.5]) in
  fst run = Returns {| stats_chunks := 1; stats_embedModel := lit "nomic-embed-text";
                       stats_source := lit "doc.pdf" |} /\
  embed_chunks lossy_env (lit "doc.pdf") (lit "nomic-embed-text") 0
    [lit "Hello world"] [] = Returns [built] /\
  (db ← load_index (snd run) "data/index.json"; Returns (opt_prop db "items"))
  = Returns (VArr [read]) /\
  opt_prop read "embedding" <> opt_prop built "embedding" /\
  read <> built.
Proof.
  split; [reflexivity|]. split; [reflexivity|]. split; [reflexivity|].
  split; [vm_compute; discriminate|]. vm_compute. discriminate.
Qed.

(** C7, amended.  For every index that a run of indexPdfToJson has built,
    parsing the persisted JSON as answerQuestion does on load gives back
    the metadata that was built ([createdAt], [source], [embedModel],
    [chunkSize], [chunkOverlap] and [count]) and the records in the same
    order, each with the same [id], [source], [chunk] and [text].  The
    [embedding] of a record is read back as JSON has written it: of a
    vector of numbers, a component that is finite and no zero is read back
    as it was, [-0] is read back as [0], and NaN and the infinities are read
    back as [null].  A record whose embedding is a JSON document (such as a
    vector of finite numbers without [-0]) is read back identically, and
    when this holds for all records, the whole payload is. *)
Theorem index_roundtrip E fuel a fs stats fs' :
  indexPdfToJson E fuel a fs = (Returns stats, fs') ->
  exists texte chunks items db loaded,
    fs !! pdfPath a = Some (Pdf texte) /\
    chunkText fuel texte (chunkSize a) (chunkOverlap a) = Some chunks /\
    embed_chunks E (sourceName a) (embedModel a) 0 chunks [] = Returns items /\
    load_index fs' (outPath a) = Returns db /\
    Forall (fun field => opt_prop db field = opt_prop (make_payload E a items) field)
      ["createdAt"; "source"; "embedModel"; "chunkSize"; "chunkOverlap"; "count"]
    /\
    opt_prop db "items" = VArr loaded /\
    length loaded = length items /\
    (forall (k : nat) it, items !! k = Some it ->
      exists it', loaded !! k = Some it' /\
        Forall (fun field => opt_prop it' field = opt_prop it field)
          ["id"; "source"; "chunk"; "text"] /\
        opt_prop it' "embedding"
        = default VUndefined (SerializeJSONProperty (opt_prop it "embedding")) /\
        (forall xs, opt_prop it "embedding" = VArr (List.map VNum xs) ->
           opt_prop it' "embedding" = VArr (List.map stored_number xs)) /\
        (json_doc (opt_prop it "embedding") = true -> it' = it)) /\
    (Forall (fun it => json_doc (opt_prop it "embedding") = true) items ->
     db = make_payload E a items).
Proof.
  unfold indexPdfToJson.
  destruct (fs !! pdfPath a) as [[texte| |]|] eqn:Hpdf; try discriminate.
  destruct (chunkText fuel texte _ _) as [chunks|] eqn:Hchunks; try discriminate.
  destruct (embed_chunks _ _ _ _ _ _) as [items| | |] eqn:Hitems; try discriminate.
  destruct (JSON_stringify (make_payload E a items)) as [doc|] eqn:Hdoc;
    [|discriminate].
  intros [= <- <-].
  destruct (embed_chunks_returns _ _ _ _ _ _ _ Hitems) as (new & Hnew & _ & Hall).
  simpl in Hnew. subst new.
  unfold JSON_stringify in Hdoc. simpl in Hdoc. injection Hdoc as <-.
  eexists texte, chunks, items, _, _. unfold load_index. rewrite lookup_insert_eq.
  simpl. do 3 (split; [done|]). split; [reflexivity|].
  split; [by repeat constructor|]. split; [reflexivity|].
  split; [by rewrite List.length_map|]. split.
  - intros k it Hk. rewrite lookup_map, Hk. simpl. eexists. split; [done|].
    destruct (Hall k it Hk) as (text & emb & _ & _ & ->). simpl.
    split; [|split; [|split]].
    + destruct (SerializeJSONProperty emb); by repeat constructor.
    + by destruct (SerializeJSONProperty emb).
    + intros xs ->. by rewrite (stringify_numbers xs).
    + intros Hemb. by rewrite (stringify_doc _ Hemb).
  - intros Hdocs.
    assert (Hid : forall it, it ∈ items ->
      match SerializeJSONProperty it with Some j => j | None => VNull end = it).
    { intros it [k Hk]%list_elem_of_lookup.
      destruct (Hall k it Hk) as (text & emb & _ & _ & ->).
      rewrite Forall_forall in Hdocs.
      specialize (Hdocs _ (list_elem_of_lookup_2 _ _ _ Hk)). simpl in Hdocs.
      rewrite stringify_doc; [done|]. simpl. by rewrite Hdocs. }
    assert (Hmap : List.map
      (fun x => match SerializeJSONProperty x with Some j => j | None => VNull end)
      items = items).
    { clear -Hid. induction items as [|it items IH]; [done|]. simpl.
      rewrite Hid by set_solver. f_equal. apply IH. intros it' Hin. apply Hid.
      set_solver. }
    unfold make_payload. by rewrite Hmap.
Qed.

Lemma index_roundtrip_witness :
  let E := lossy_env in
  let a := demo_index_args in
  let fs := one_pdf (lit "Hello  world") in
  let fs' := snd (indexPdfToJson E 10 a fs) in
  exists texte chunks items db loaded,
    fs !! pdfPath a = Some (Pdf texte) /\
    chunkText 10 texte (chunkSize a) (chunkOverlap a) = Some chunks /\
    embed_chunks E (sourceName a) (embedModel a) 0 chunks [] = Returns items /\
    load_index fs' (outPath a) = Returns db /\
    Forall (fun field => opt_prop db field = opt_prop (make_payload E a items) field)
      ["createdAt"; "source"; "embedModel"; "chunkSize"; "chunkOverlap"; "count"]
    /\
    opt_prop db "items" = VArr loaded /\
    length loaded = length items /\
    (forall (k : nat) it, items !! k = Some it ->
      exists it', loaded !! k = Some it' /\
        Forall (fun field => opt_prop it' field = opt_prop it field)
          ["id"; "source"; "chunk"; "text"] /\
        opt_prop it' "embedding"
        = default VUndefined (SerializeJSONProperty (opt_prop it "embedding")) /\
        (forall xs, opt_prop it "embedding" = VArr (List.map VNum xs) ->
           opt_prop it' "embedding" = VArr (List.map stored_number xs)) /\
        (json_doc (opt_prop it "embedding") = true -> it' = it)) /\
    (Forall (fun it => json_doc (opt_prop it "embedding") = true) items ->
     db = make_payload E a items).
Proof.
  apply (index_roundtrip lossy_env 10 demo_index_args (one_pdf (lit "Hello  world"))
           {| stats_chunks := 1; stats_embedModel := lit "nomic-embed-text";
              stats_source := lit "doc.pdf" |}).
  reflexivity.
Defined.

(** What is read back from the persisted index whatever the embedding
    service returns: the metadata, the order of the records and their [id],
    [source], [chunk] and [text] are those of the payload that was built;
    the [embedding] of a record is read back as JSON has written it
    ([undefined] when it was [undefined], the property being left out). *)
Theorem index_roundtrip_fields E fuel a fs stats fs' :
  indexPdfToJson E fuel a fs = (Returns stats, fs') ->
  exists texte chunks items db loaded,
    fs !! pdfPath a = Some (Pdf texte) /\
    chunkText fuel texte (chunkSize a) (chunkOverlap a) = Some chunks /\
    embed_chunks E (sourceName a) (embedModel a) 0 chunks [] = Returns items /\
    load_index fs' (outPath a) = Returns db /\
    opt_prop db "createdAt" = VStr (now_iso E) /\
    opt_prop db "source" = VStr (sourceName a) /\
    opt_prop db "embedModel" = VStr (embedModel a) /\
    opt_prop db "chunkSize" = VInt (chunkSize a) /\
    opt_prop db "chunkOverlap" = VInt (chunkOverlap a) /\
    opt_prop db "count" = VInt (jslength items) /\
    opt_prop db "items" = VArr loaded /\
    length loaded = length items /\
    forall (k : nat) it, items !! k = Some it ->
      exists it', loaded !! k = Some it' /\
        opt_prop it' "id" = opt_prop it "id" /\
        opt_prop it' "source" = opt_prop it "source" /\
        opt_prop it' "chunk" = opt_prop it "chunk" /\
        opt_prop it' "text" = opt_prop it "text" /\
        opt_prop it' "embedding"
        = default VUndefined (SerializeJSONProperty (opt_prop it "embedding")).
Proof.
  unfold indexPdfToJson.
  destruct (fs !! pdfPath a) as [[texte| |]|] eqn:Hpdf; try discriminate.
  destruct (chunkText fuel texte _ _) as [chunks|] eqn:Hchunks; try discriminate.
  destruct (embed_chunks _ _ _ _ _ _) as [items| | |] eqn:Hitems; try discriminate.
  simpl. intros [= <- <-].
  eexists texte, chunks, items, _, _. unfold load_index. rewrite lookup_insert_eq.
  simpl. do 3 (split; [done|]). do 8 (split; [reflexivity|]).
  split; [by rewrite List.length_map|].
  intros k it Hk. rewrite lookup_map, Hk. simpl. eexists. split; [done|].
  destruct (embed_chunks_returns _ _ _ _ _ _ _ Hitems) as (new & Hnew & _ & Hall).
  simpl in Hnew. subst new.
  destruct (Hall k it Hk) as (text & emb & _ & _ & ->). simpl.
  unfold JSON_stringify. by destruct (SerializeJSONProperty emb).
Qed.

Lemma index_roundtrip_fields_witness :
  exists texte chunks items db loaded,
    one_pdf (lit "Hello  world") !! pdfPath demo_index_args = Some (Pdf texte) /\
    chunkText 10 texte (chunkSize demo_index_args) (chunkOverlap demo_index_args)
    = Some chunks /\
    embed_chunks demo_env (sourceName demo_index_args) (embedModel demo_index_args)
      0 chunks [] = Returns items /\
    load_index
      (snd (indexPdfToJson demo_env 10 demo_index_args (one_pdf (lit "Hello  world"))))
      (outPath demo_index_args) = Returns db /\
    opt_prop db "createdAt" = VStr (now_iso demo_env) /\
    opt_prop db "source" = VStr (sourceName demo_index_args) /\
    opt_prop db "embedModel" = VStr (embedModel demo_index_args) /\
    opt_prop db "chunkSize" = VInt (chunkSize demo_index_args) /\
    opt_prop db "chunkOverlap" = VInt (chunkOverlap demo_index_args) /\
    opt_prop db "count" = VInt (jslength items) /\
    opt_prop db "items" = VArr loaded /\
    length loaded = length items /\
    forall (k : nat) it, items !! k = Some it ->
      exists it', loaded !! k = Some it' /\
        opt_prop it' "id" = opt_prop it "id" /\
        opt_prop it' "source" = opt_prop it "source" /\
        opt_prop it' "chunk" = opt_prop it "chunk" /\
        opt_prop it' "text" = opt_prop it "text" /\
        opt_prop it' "embedding"
        = default VUndefined (SerializeJSONProperty (opt_prop it "embedding")).
Proof.
  apply (index_roundtrip_fields demo_env 10 demo_index_args
           (one_pdf (lit "Hello  world"))
           {| stats_chunks := 1; stats_embedModel := lit "nomic-embed-text";
              stats_source := lit "doc.pdf" |}).
  reflexivity.
Defined.

(** The loop of indexPdfToJson ends with the error of the embedding service
    for the first segment for which the service fails. *)
Lemma embed_chunks_throws E src model done text rest name message :
  Forall (fun t => exists emb, ollamaEmbeddings E model t = Returns emb) done ->
  ollamaEmbeddings E model text = Throws name message ->
  forall i acc,
    embed_chunks E src model i (done ++ text :: rest) acc = Throws name message.
Proof.
  intros Hdone Htext.
  induction Hdone as [|t done [emb Ht] _ IH]; intros i acc; simpl;
    unfold mbind, outcome_bind, bind.
  - by rewrite Htext.
  - rewrite Ht. apply IH.
Qed.

(** A call of indexPdfToJson that fails before its last step, the write of
    the index, has written nothing.  When there is no file at [pdfPath], or
    the file there is no PDF, the call throws and the files are as they
    were; when the embedding service fails for a segment, after any number
    of segments for which it has answered, the call throws the error of the
    service and the files are as they were: no partial index is written. *)
Theorem indexPdfToJson_failure_writes_nothing E fuel a fs :
  (fs !! pdfPath a = None ->
   exists name message, indexPdfToJson E fuel a fs = (Throws name message, fs)) /\
  (forall c, fs !! pdfPath a = Some c -> (forall texte, c <> Pdf texte) ->
   exists name message, indexPdfToJson E fuel a fs = (Throws name message, fs)) /\
  (forall texte chunks done text rest name message,
     fs !! pdfPath a = Some (Pdf texte) ->
     chunkText fuel texte (chunkSize a) (chunkOverlap a) = Some chunks ->
     chunks = done ++ text :: rest ->
     Forall (fun t => exists emb, ollamaEmbeddings E (embedModel a) t = Returns emb)
       done ->
     ollamaEmbeddings E (embedModel a) text = Throws name message ->
     indexPdfToJson E fuel a fs = (Throws name message, fs)).
Proof.
  unfold indexPdfToJson. split; [|split].
  - intros ->. by eexists _, _.
  - intros c -> Hc. destruct c as [texte| |]; [by destruct (Hc texte)|..];
      by eexists _, _.
  - intros texte chunks done text rest name message -> -> -> Hdone Htext.
    by rewrite (embed_chunks_throws _ _ _ _ _ _ _ _ Hdone Htext).
Qed.

(** The service answers for the first segment and fails for the second:
    the index is not written. *)
Example indexPdfToJson_fails_at_second_segment :
  chunkText 10 (lit "AAAAABBBBB") 5 2 = Some [lit "AAAAA"; lit "AABBB"; lit "BBBB"] /\
  ollamaEmbeddings flaky_env (lit "nomic-embed-text") (lit "AAAAA")
  = Returns (VArr [VNum 3; VNum 4]) /\
  indexPdfToJson flaky_env 10 small_index_args (one_pdf (lit "AAAAABBBBB"))
  = (Throws "TypeError" "fetch failed", one_pdf (lit "AAAAABBBBB")).
Proof. split; [reflexivity|]. split; reflexivity. Qed.

(** ** Trimming *)

Lemma drop_white_nil s : drop_white s = [] <-> Forall (fun c => is_white c = true) s.
Proof.
  induction s as [|c s IH]; simpl; [done|].
  destruct (is_white c) eqn:Hc.
  - rewrite IH. split; [by constructor|]. by intros [_ ?]%Forall_cons.
  - split; [done|]. intros [? _]%Forall_cons. congruence.
Qed.

(** A string is its trimmed form between white space. *)
Lemma trim_infix s : exists l1 l2, s = l1 ++ trim s ++ l2 /\
  Forall (fun c => is_white c = true) l1 /\ Forall (fun c => is_white c = true) l2.
Proof.
  assert (Hd : forall x, exists k, x = k ++ drop_white x /\
                                   Forall (fun c => is_white c = true) k).
  { induction x as [|c x (k & Hk & Hw)]; simpl; [by exists []|].
    destruct (is_white c) eqn:Hc.
    - exists (c :: k). split; [by rewrite <- app_comm_cons, <- Hk|by constructor].
    - by exists []. }
  destruct (Hd s) as (l1 & H1 & Hw1).
  destruct (Hd (rev (drop_white s))) as (k & Hk & Hwk).
  exists l1, (rev k). split; [|split; [done|]].
  - rewrite H1 at 1. f_equal. unfold trim.
    apply (f_equal (@rev ascii)) in Hk. rewrite rev_involutive in Hk.
    by rewrite Hk at 1; rewrite rev_app_distr.
  - apply Forall_forall. intros c Hc. rewrite Forall_forall in Hwk.
    apply Hwk. apply list_elem_of_In. apply list_elem_of_In in Hc.
    by apply in_rev.
Qed.

Lemma trim_nil s : trim s = [] <-> Forall (fun c => is_white c = true) s.
Proof.
  split.
  - intros H. destruct (trim_infix s) as (l1 & l2 & Hs & H1 & H2).
    rewrite H in Hs. rewrite Hs. simpl. by apply Forall_app.
  - intros H. unfold trim. apply drop_white_nil in H. by rewrite H.
Qed.

(** Trimming a string that neither begins nor ends with white space leaves
    it as it is. *)
Lemma trim_id c s d :
  is_white c = false -> is_white d = false -> trim (c :: s ++ [d]) = c :: s ++ [d].
Proof.
  intros Hc Hd. rewrite app_comm_cons, trim_snoc_nonwhite by done.
  rewrite <- app_comm_cons. by apply drop_white_id.
Qed.

Lemma trim_single c : is_white c = false -> trim [c] = [c].
Proof. intros Hc. unfold trim. simpl. rewrite Hc. simpl. by rewrite Hc. Qed.

Lemma trim_idemp s : trim (trim s) = trim s.
Proof.
  destruct (trim s) as [|c r] eqn:H; [done|].
  pose proof (trim_head _ _ _ H) as Hc.
  destruct (decide (r = [])) as [->|Hr]; [by apply trim_single|].
  destruct (exists_last Hr) as (body & d & ->).
  rewrite app_comm_cons in H. apply trim_last in H.
  by apply trim_id.
Qed.

Lemma trim_length s : (length (trim s) <= length s)%nat.
Proof.
  destruct (trim_infix s) as (l1 & l2 & Hs & _).
  rewrite Hs at 2. rewrite !length_app. lia.
Qed.

(** ** normalize *)

#[local] Arguments Nat.max : simpl never.
#[local] Arguments Nat.min : simpl never.

Lemma run_at_le_max p s : (run_at p s <= max_run p s)%nat.
Proof. destruct s; simpl; lia. Qed.

Lemma run_at_app p s l : (run_at p s <= run_at p (s ++ l))%nat.
Proof. induction s as [|c s IH]; simpl; [lia|]. destruct (p c); lia. Qed.

Lemma max_run_app_l p l s : (max_run p s <= max_run p (l ++ s))%nat.
Proof. induction l as [|c l IH]; simpl; lia. Qed.

Lemma max_run_app_r p s l : (max_run p s <= max_run p (s ++ l))%nat.
Proof.
  induction s as [|c s IH]; [simpl; lia|].
  rewrite <- app_comm_cons.
  change (max_run p (c :: s)) with (Nat.max (run_at p (c :: s)) (max_run p s)).
  change (max_run p (c :: s ++ l))
    with (Nat.max (run_at p ((c :: s) ++ l)) (max_run p (s ++ l))).
  pose proof (run_at_app p (c :: s) l). lia.
Qed.

Lemma max_run_trim p s : (max_run p (trim s) <= max_run p s)%nat.
Proof.
  destruct (trim_infix s) as (l1 & l2 & Hs & _). rewrite Hs at 2.
  etrans; [apply (max_run_app_r p _ l2)|apply max_run_app_l].
Qed.

Lemma blank_is_white c : is_blank c = true -> is_white c = true.
Proof.
  unfold is_blank, is_white.
  intros [H|H]%orb_prop; apply N.eqb_eq in H; rewrite H; reflexivity.
Qed.

Lemma blank_code c : is_blank c = true -> is_tab c = false -> c = SP.
Proof.
  unfold is_blank, is_tab. intros [H|H]%orb_prop Ht; [|congruence].
  apply N.eqb_eq in H. unfold code in H.
  rewrite <- (ascii_N_embedding c), H. reflexivity.
Qed.

(** What [.replace(/\r/g, '')] leaves. *)
Lemma strip_cr_spec s : Forall (fun c => is_cr c = false) (strip_cr s).
Proof.
  unfold strip_cr. apply Forall_forall. intros c Hc%list_elem_of_In%filter_In.
  destruct Hc as [_ Hc]. by apply negb_true_iff.
Qed.

Lemma strip_cr_id s : Forall (fun c => is_cr c = false) s -> strip_cr s = s.
Proof.
  unfold strip_cr. induction 1 as [|c s Hc _ IH]; simpl; [done|].
  by rewrite Hc, IH.
Qed.

(** What [.replace(/[ \t]+/g, ' ')] leaves: the code units that are no
    blanks, in their order, and one space for every run of blanks. *)
Lemma collapse_blanks_spec b s :
  let r := collapse_blanks b s in
  (b = true -> run_at is_blank r = 0%nat) /\
  (max_run is_blank r <= 1)%nat /\
  Forall (fun c => is_tab c = false) r /\
  (forall P : ascii -> Prop, P SP -> Forall P s -> Forall P r).
Proof.
  revert b. induction s as [|c s IH]; intros b; simpl.
  { repeat split; try done; lia. }
  destruct (is_blank c) eqn:Hc.
  - destruct (IH true) as (Hrun & Hmax & Htab & Hall).
    specialize (Hrun eq_refl).
    destruct b; simpl.
    + repeat split; try done. intros P HP [_ ?]%Forall_cons. by apply Hall.
    + change (is_blank SP) with true.
      split; [done|]. split; [lia|]. split; [by constructor|].
      intros P HP [_ ?]%Forall_cons. constructor; [done|by apply Hall].
  - destruct (IH false) as (_ & Hmax & Htab & Hall). simpl. rewrite Hc.
    split; [done|]. split; [lia|]. split.
    + constructor; [|done]. unfold is_blank, is_tab in *.
      by apply orb_false_iff in Hc as [_ ?].
    + intros P HP [? ?]%Forall_cons. constructor; [done|by apply Hall].
Qed.

Lemma collapse_blanks_id s : forall b,
  (b = true -> run_at is_blank s = 0%nat) ->
  (max_run is_blank s <= 1)%nat ->
  Forall (fun c => is_tab c = false) s ->
  collapse_blanks b s = s.
Proof.
  induction s as [|c s IH]; intros b Hb Hmax Htab; [done|].
  apply Forall_cons in Htab as [Hc Htab].
  simpl in *. destruct (is_blank c) eqn:Hbl.
  - destruct b; [by specialize (Hb eq_refl)|].
    rewrite IH; [|lia|lia|done]. by rewrite (blank_code c).
  - rewrite IH; [done|done|lia|done].
Qed.

(** What [.replace(/\n{3,}/g, '\n\n')] leaves: the code units that are
    no line feeds, and the first two line feeds of every run. *)
Lemma collapse_newlines_spec s : forall seen,
  let r := collapse_newlines seen s in
  (run_at is_lf r + Nat.min seen 2 <= 2)%nat /\
  (max_run is_lf r <= 2)%nat /\
  (seen = 0%nat -> run_at is_blank r = run_at is_blank s) /\
  sublist r s.
Proof.
  induction s as [|c s IH]; intros seen; simpl.
  { repeat split; try done; lia. }
  destruct (is_lf c) eqn:Hc.
  - assert (Hnb : is_blank c = false).
    { unfold is_lf, is_blank in *. apply N.eqb_eq in Hc. by rewrite Hc. }
    destruct (IH (S seen)) as (Hrun & Hmax & _ & Hsub).
    destruct (Nat.ltb_spec seen 2); simpl; rewrite ?Hc, ?Hnb.
    + split; [lia|]. split; [lia|]. split; [done|by constructor].
    + split; [lia|]. split; [lia|]. split; [lia|by constructor].
  - destruct (IH 0%nat) as (Hrun & Hmax & Hbl & Hsub). simpl. rewrite Hc.
    split; [lia|]. split; [lia|]. split; [|by constructor].
    intros _. destruct (is_blank c); [|done]. f_equal. by apply Hbl.
Qed.

Lemma collapse_newlines_blank s : forall seen,
  (max_run is_blank s <= 1)%nat ->
  (max_run is_blank (collapse_newlines seen s) <= 1)%nat.
Proof.
  induction s as [|c s IH]; intros seen H; [done|].
  simpl in H. simpl collapse_newlines.
  destruct (is_lf c) eqn:Hc.
  - assert (Hnb : is_blank c = false).
    { unfold is_lf, is_blank in *. apply N.eqb_eq in Hc. by rewrite Hc. }
    specialize (IH (S seen) ltac:(lia)).
    destruct (seen <? 2)%nat; [|done]. simpl. rewrite Hnb. lia.
  - specialize (IH 0%nat ltac:(lia)). simpl.
    destruct (collapse_newlines_spec s 0) as (_ & _ & Hbl & _).
    rewrite (Hbl eq_refl). destruct (is_blank c); lia.
Qed.

Lemma collapse_newlines_id s : forall seen,
  (run_at is_lf s + seen <= 2)%nat -> (max_run is_lf s <= 2)%nat ->
  collapse_newlines seen s = s.
Proof.
  induction s as [|c s IH]; intros seen Hrun Hmax; [done|].
  simpl in *. destruct (is_lf c) eqn:Hc.
  - destruct (Nat.ltb_spec seen 2); [|lia]. rewrite IH; [done|lia|lia].
  - rewrite IH; [done| |lia]. pose proof (run_at_le_max is_lf s). lia.
Qed.

Lemma Forall_sub {A} (P : A -> Prop) (l k : list A) :
  sublist l k -> Forall P k -> Forall P l.
Proof.
  intros Hsub Hk. apply Forall_forall. intros x Hx.
  rewrite Forall_forall in Hk. apply Hk. by eapply elem_of_sublist.
Qed.

Lemma Forall_trim (P : ascii -> Prop) s : Forall P s -> Forall P (trim s).
Proof.
  destruct (trim_infix s) as (l1 & l2 & Hs & _). intros H. rewrite Hs in H.
  by apply Forall_app in H as [_ [? _]%Forall_app].
Qed.

(** The cleaned text, step by step. *)
Lemma cleaned_units (text : jsstring) :
  Forall (fun c => is_cr c = false /\ is_tab c = false) (normalize text).
Proof.
  unfold normalize.
  destruct (collapse_blanks_spec false (strip_cr text)) as (_ & _ & Htab & Hall).
  destruct (collapse_newlines_spec (collapse_blanks false (strip_cr text)) 0)
    as (_ & _ & _ & Hsub).
  apply Forall_trim, (Forall_sub _ _ _ Hsub).
  apply Forall_and. split; [|done].
  apply Hall; [done|apply strip_cr_spec].
Qed.

Lemma cleaned_blank_runs (text : jsstring) :
  (max_run is_blank (normalize text) <= 1)%nat.
Proof.
  unfold normalize. etrans; [apply max_run_trim|].
  apply collapse_newlines_blank.
  by destruct (collapse_blanks_spec false (strip_cr text)) as (_ & ? & _).
Qed.

Lemma cleaned_lf_runs (text : jsstring) :
  (max_run is_lf (normalize text) <= 2)%nat.
Proof.
  unfold normalize. etrans; [apply max_run_trim|].
  by destruct (collapse_newlines_spec (collapse_blanks false (strip_cr text)) 0)
    as (_ & ? & _).
Qed.

Lemma cleaned_trimmed (text : jsstring) : trim (normalize text) = normalize text.
Proof. unfold normalize. apply trim_idemp. Qed.

(** The cleaned text of chunkText holds no carriage return and no tab, no
    two blanks in a row, no three line feeds in a row, and no white space at
    either end. *)
Theorem normalize_clean (text : jsstring) :
  let cleaned := normalize text in
  Forall (fun c => is_cr c = false /\ is_tab c = false) cleaned /\
  (max_run is_blank cleaned <= 1)%nat /\
  (max_run is_lf cleaned <= 2)%nat /\
  trim cleaned = cleaned.
Proof.
  intros cleaned. subst cleaned. split; [|split; [|split]].
  - apply cleaned_units.
  - apply cleaned_blank_runs.
  - apply cleaned_lf_runs.
  - apply cleaned_trimmed.
Qed.

(** Cleaning a cleaned text changes nothing. *)
Theorem normalize_idemp (text : jsstring) :
  normalize (normalize text) = normalize text.
Proof.
  pose proof (cleaned_units text) as [Hcr Htab]%Forall_and.
  pose proof (cleaned_blank_runs text) as Hbl.
  pose proof (cleaned_lf_runs text) as Hlf.
  set (cleaned := normalize text) in *.
  unfold normalize at 1. fold cleaned.
  rewrite strip_cr_id by done.
  rewrite collapse_blanks_id; [|done..].
  rewrite collapse_newlines_id; [apply cleaned_trimmed| |done].
  pose proof (run_at_le_max is_lf cleaned). lia.
Qed.

(** chunkText has nothing to cut exactly when the text is white space: the
    cleaned text is empty if and only if every code unit of the text is
    white space in the sense of [String.prototype.trim] (the WhiteSpace and
    LineTerminator of ECMAScript, of which the strings of the embedding
    have those with a code below 256). *)
Theorem normalize_nil_iff (text : jsstring) :
  normalize text = [] <-> Forall (fun c => is_white c = true) text.
Proof.
  unfold normalize. rewrite trim_nil.
  set (s1 := strip_cr text).
  set (s2 := collapse_blanks false s1).
  split.
  - intros H. apply Forall_forall. intros c Hc.
    destruct (is_white c) eqn:Hw; [done|exfalso].
    assert (Hkeep : forall b s, c ∈ s -> c ∈ collapse_blanks b s).
    { intros b s. revert b. induction s as [|x s IH]; intros b; [done|].
      simpl. intros [Heq|Hin]%elem_of_cons; [subst x|].
      { destruct (is_blank c) eqn:Hb; [|by left].
        apply blank_is_white in Hb. congruence. }
      destruct (is_blank x); [destruct b|]; [|right|right]; by apply IH. }
    assert (Hkeep' : forall seen s, c ∈ s -> c ∈ collapse_newlines seen s).
    { intros seen s. revert seen. induction s as [|x s IH]; intros seen; [done|].
      simpl. intros [Heq|Hin]%elem_of_cons; [subst x|].
      { destruct (is_lf c) eqn:Hb; [|by left].
        unfold is_lf, is_white in *. apply N.eqb_eq in Hb. by rewrite Hb in Hw. }
      destruct (is_lf x); [destruct (seen <? 2)%nat|]; [right| |right]; by apply IH. }
    assert (H1 : c ∈ s1).
    { subst s1. unfold strip_cr. apply list_elem_of_In, filter_In.
      split; [by apply list_elem_of_In|].
      unfold is_cr, is_white in *. apply negb_true_iff, N.eqb_neq. intros Hcr.
      by rewrite Hcr in Hw. }
    rewrite Forall_forall in H. specialize (H c (Hkeep' _ _ (Hkeep _ _ H1))).
    congruence.
  - intros H.
    destruct (collapse_blanks_spec false s1) as (_ & _ & _ & Hall2).
    destruct (collapse_newlines_spec s2 0) as (_ & _ & _ & Hsub3).
    apply (Forall_sub _ _ _ Hsub3). apply Hall2; [done|].
    subst s1. unfold strip_cr. apply Forall_forall.
    intros c [Hc _]%list_elem_of_In%filter_In.
    rewrite Forall_forall in H. by apply H, list_elem_of_In.
Qed.

(** ** chunkText: the chunks *)

Lemma windows_within cleaned w o fuel : forall i,
  0 <= i -> 0 < w ->
  Forall (fun s => jslength s <= w /\ part_of s cleaned)
    (windows fuel cleaned w o i).
Proof.
  induction fuel as [|fuel IH]; intros i Hi Hw; simpl;
    destruct (Z.ltb_spec i (jslength cleaned)) as [Hlt|]; try done.
  constructor.
  - rewrite slice_range by lia. split.
    + unfold jslength. rewrite length_take. lia.
    + exists (take (Z.to_nat i) cleaned),
        (drop (Z.to_nat (Z.min (i + w) (jslength cleaned) - i))
           (drop (Z.to_nat i) cleaned)).
      by rewrite take_drop, take_drop.
  - destruct (_ =? _); [done|]. apply IH; lia.
Qed.

Lemma part_of_trim s : part_of (trim s) s.
Proof. destruct (trim_infix s) as (l1 & l2 & Hs & _). by exists l1, l2. Qed.

Lemma part_of_trans a b c : part_of a b -> part_of b c -> part_of a c.
Proof.
  intros (l1 & l2 & ->) (k1 & k2 & ->). exists (k1 ++ l1), (l2 ++ k2).
  by rewrite <- !app_assoc.
Qed.

(** Every chunk that chunkText returns is a part of the cleaned text that
    is not empty, of at most [chunkSize] code units, without white space
    at either end. *)
Theorem chunkText_chunks_within_window text w o fuel chunks :
  0 < w ->
  chunkText fuel text w o = Some chunks ->
  Forall (fun c => 0 < jslength c <= w /\ trim c = c /\
                   part_of c (normalize text)) chunks.
Proof.
  intros Hw H. unfold chunkText in H. apply chunk_loop_windows in H.
  simpl in H. subst chunks. unfold pushed.
  pose proof (windows_within (normalize text) w o fuel 0 ltac:(lia) Hw) as Hall.
  induction Hall as [|s l [Hlen Hpart] _ IH]; [constructor|].
  simpl. destruct (trim s) as [|c r] eqn:Ht; [exact IH|].
  constructor; [|exact IH]. rewrite <- Ht.
  split; [|split].
  - pose proof (trim_length s). unfold jslength in *. rewrite Ht in *.
    simpl in *. lia.
  - apply trim_idemp.
  - eapply part_of_trans; [apply part_of_trim|done].
Qed.

Lemma chunkText_chunks_within_window_witness :
  Forall (fun c => 0 < jslength c <= 5 /\ trim c = c /\
                   part_of c (normalize (lit "  hello   world ")))
    [lit "hello"; lit "lo wo"; lit "world"].
Proof.
  apply (chunkText_chunks_within_window (lit "  hello   world ") 5 2 10);
    [lia|reflexivity].
Defined.

(** ** chunkText: the passes of the loop *)

Lemma slice_clamp {A} (l : list A) (i e : Z) :
  0 <= i -> jslength l <= e -> slice l i e = slice l i (jslength l).
Proof.
  intros Hi He. unfold slice, rel_index, jslength in *.
  destruct (Z.ltb_spec e 0); [lia|].
  destruct (Z.ltb_spec (Z.of_nat (length l)) 0); [lia|].
  by rewrite (Z.min_r e), Z.min_id by lia.
Qed.

Section Passes.

Variable cleaned : jsstring.
Variables w o : Z.
Hypothesis overlap_lt : 0 <= o < w.

Let len := jslength cleaned.

Lemma window_count_step (L : Z) :
  w < L -> window_count L w o = S (window_count (L - (w - o)) w o).
Proof.
  intros HL. unfold window_count.
  destruct (Z.leb_spec L 0); [lia|]. destruct (Z.leb_spec L w); [lia|].
  destruct (Z.leb_spec (L - (w - o)) 0); [lia|].
  set (s := w - o). assert (Hs : 0 < s) by (subst s; lia).
  destruct (Z.leb_spec (L - s) w) as [Hle|Hgt].
  - replace ((L - w + s - 1) / s) with 1; [done|].
    apply Z.div_unique with (r := L - w - 1); lia.
  - replace (L - w + s - 1) with (L - s - w + s - 1 + 1 * s) by lia.
    rewrite Z.div_add by lia.
    assert (0 <= (L - s - w + s - 1) / s) by (apply Z.div_pos; lia).
    lia.
Qed.

Lemma window_count_nonpos (L : Z) : L <= 0 -> window_count L w o = 0%nat.
Proof. intros HL. unfold window_count. by destruct (Z.leb_spec L 0); [|lia]. Qed.

Lemma window_count_fits (L : Z) : 0 < L <= w -> window_count L w o = 1%nat.
Proof.
  intros HL. unfold window_count. destruct (Z.leb_spec L 0); [lia|].
  by destruct (Z.leb_spec L w); [|lia].
Qed.

Lemma window_count_pos (L : Z) : 0 < L -> (1 <= window_count L w o)%nat.
Proof.
  intros HL. destruct (Z.le_gt_cases L w).
  - rewrite window_count_fits; lia.
  - rewrite window_count_step; lia.
Qed.

(** The loop makes [window_count] passes from the cursor on: it is still
    running with less fuel, and has ended with that much. *)
Lemma chunk_loop_passes fuel : forall i chunks,
  0 <= i ->
  if decide (window_count (len - i) w o <= fuel)%nat
  then is_Some (chunk_loop fuel cleaned w o i chunks)
  else chunk_loop fuel cleaned w o i chunks = None.
Proof.
  induction fuel as [|fuel IH]; intros i chunks Hi; simpl; fold len;
    destruct (Z.ltb_spec i len) as [Hlt|Hge].
  - pose proof (window_count_pos (len - i) ltac:(lia)).
    case_decide; [lia|done].
  - rewrite window_count_nonpos by lia. case_decide; [done|lia].
  - unfold chunk_step. fold len.
    destruct (Z.eqb_spec (Z.min (i + w) len) len) as [He|He].
    + rewrite window_count_fits by lia. case_decide; [done|lia].
    + rewrite window_count_step by lia.
      replace (Z.max 0 (Z.min (i + w) len - o)) with (i + (w - o)) by lia.
      replace (len - i - (w - o)) with (len - (i + (w - o))) by lia.
      specialize (IH (i + (w - o))
        (match trim (slice cleaned i (Z.min (i + w) len)) with
         | [] => chunks
         | _ :: _ => chunks ++ [trim (slice cleaned i (Z.min (i + w) len))]
         end) ltac:(lia)).
      repeat case_decide; try done; lia.
  - rewrite window_count_nonpos by lia. case_decide; [done|lia].
Qed.

(** The windows of the passes, [w - o] code units apart. *)
Lemma windows_passes fuel : forall i,
  0 <= i -> (window_count (len - i) w o <= fuel)%nat ->
  windows fuel cleaned w o i
  = List.map (fun k => slice cleaned (i + Z.of_nat k * (w - o))
                         (i + Z.of_nat k * (w - o) + w))
      (seq 0 (window_count (len - i) w o)).
Proof.
  induction fuel as [|fuel IH]; intros i Hi; simpl; fold len;
    destruct (Z.ltb_spec i len) as [Hlt|Hge].
  - pose proof (window_count_pos (len - i) ltac:(lia)). lia.
  - by rewrite window_count_nonpos by lia.
  - destruct (Z.eqb_spec (Z.min (i + w) len) len) as [He|He].
    + rewrite window_count_fits by lia. intros _. simpl.
      rewrite He, Z.add_0_r. subst len. by rewrite (slice_clamp _ i (i + w)) by lia.
    + rewrite window_count_step by lia. intros Hf.
      replace (Z.max 0 (Z.min (i + w) len - o)) with (i + (w - o)) by lia.
      replace (len - i - (w - o)) with (len - (i + (w - o))) in * by lia.
      rewrite IH by lia. simpl. rewrite Z.add_0_r.
      replace (Z.min (i + w) len) with (i + w) by lia. f_equal.
      rewrite <- seq_shift, map_map. apply map_ext. intros k.
      f_equal; lia.
  - by rewrite window_count_nonpos by lia.
Qed.

End Passes.

(** With an overlap below the window, chunkText makes exactly
    [window_count] passes, pass [k] looks at the window of [chunkSize] code
    units that begins [k * (chunkSize - overlap)] code units into the
    cleaned text, and the chunks are the trimmed windows that are not empty,
    in that order: there are at most [window_count] of them. *)
Theorem chunkText_windows text w o :
  0 < w -> 0 <= o < w ->
  let cleaned := normalize text in
  let n := window_count (jslength cleaned) w o in
  let chunks := pushed (List.map (window_at cleaned w o) (seq 0 n)) in
  (forall fuel, (n <= fuel)%nat -> chunkText fuel text w o = Some chunks) /\
  (forall fuel, (fuel < n)%nat -> chunkText fuel text w o = None) /\
  (length chunks <= n)%nat /\
  (n <= iteration_bound (jslength cleaned) w o)%nat.
Proof.
  intros Hw Ho cleaned n chunks. split; [|split; [|split]].
  - intros fuel Hf. unfold chunkText. fold cleaned.
    pose proof (chunk_loop_passes cleaned w o Ho fuel 0 [] ltac:(lia)) as H.
    rewrite Z.sub_0_r in H. fold n in H. case_decide; [|lia].
    destruct H as [r Hr]. rewrite Hr. f_equal.
    apply chunk_loop_windows in Hr. simpl in Hr. subst r chunks.
    rewrite (windows_passes cleaned w o Ho) by (rewrite ?Z.sub_0_r; fold n; lia).
    rewrite Z.sub_0_r. reflexivity.
  - intros fuel Hf. unfold chunkText. fold cleaned.
    pose proof (chunk_loop_passes cleaned w o Ho fuel 0 [] ltac:(lia)) as H.
    rewrite Z.sub_0_r in H. fold n in H. case_decide; [lia|done].
  - subst chunks. unfold pushed.
    etrans; [apply List.filter_length_le|]. by rewrite !List.length_map, length_seq.
  - subst n. unfold window_count, iteration_bound.
    set (len := jslength cleaned). assert (0 <= len) by (subst len; unfold jslength; lia).
    rewrite Z.max_r by lia. set (s := w - o). assert (0 < s) by (subst s; lia).
    assert (Hq0 : 0 <= (len + s - 1) / s) by (apply Z.div_pos; lia).
    destruct (Z.leb_spec len 0); [lia|].
    assert (Hq1 : 1 <= (len + s - 1) / s) by (apply Z.div_le_lower_bound; lia).
    destruct (Z.leb_spec len w); [lia|].
    assert ((len - w + s - 1) / s <= (len + s - 1) / s); [|lia].
    apply Z.div_le_mono; lia.
Qed.

Lemma chunkText_windows_witness :
  let cleaned := normalize (lit "AAAAABBBBBCCCCC") in
  let n := window_count (jslength cleaned) 5 2 in
  let chunks := pushed (List.map (window_at cleaned 5 2) (seq 0 n)) in
  (forall fuel, (n <= fuel)%nat ->
     chunkText fuel (lit "AAAAABBBBBCCCCC") 5 2 = Some chunks) /\
  (forall fuel, (fuel < n)%nat -> chunkText fuel (lit "AAAAABBBBBCCCCC") 5 2 = None) /\
  (length chunks <= n)%nat /\
  (n <= iteration_bound (jslength cleaned) 5 2)%nat.
Proof. apply (chunkText_windows (lit "AAAAABBBBBCCCCC") 5 2); lia. Defined.

Example window_count_example :
  window_count 15 5 2 = 5%nat /\ window_count 1200 1200 200 = 1%nat /\
  window_count 1201 1200 200 = 2%nat /\ window_count 2200 1200 200 = 2%nat /\
  window_count 2201 1200 200 = 3%nat.
Proof. repeat split. Qed.

(** A text whose cleaned form fits the window is returned whole, as one
    chunk, in one pass, whatever the overlap. *)
Theorem chunkText_one_window text w o fuel :
  0 < jslength (normalize text) <= w ->
  chunkText (S fuel) text w o = Some [normalize text].
Proof.
  intros Hlen. unfold chunkText. simpl.
  destruct (Z.ltb_spec 0 (jslength (normalize text))); [|lia].
  unfold chunk_step.
  replace (Z.min (0 + w) (jslength (normalize text)))
    with (jslength (normalize text)) by lia.
  rewrite Z.eqb_refl, slice_to_end, drop_0 by lia.
  rewrite cleaned_trimmed.
  destruct (normalize text); [|done]. unfold jslength in Hlen. simpl in Hlen. lia.
Qed.

Lemma chunkText_one_window_witness :
  chunkText 1 (lit "  Hello   world ") 1200 200 = Some [normalize (lit "  Hello   world ")].
Proof.
  apply (chunkText_one_window (lit "  Hello   world ") 1200 200 0).
  vm_compute. split; [reflexivity|discriminate].
Defined.

(** With an overlap below the window, the last [overlap] code units of the
    window of a pass are the first [overlap] code units of the window of the
    next pass. *)
Theorem windows_share_overlap text w o (k : nat) :
  0 <= o < w ->
  let cleaned := normalize text in
  (S k < window_count (jslength cleaned) w o)%nat ->
  jslength (window_at cleaned w o k) = w /\
  drop (Z.to_nat (w - o)) (window_at cleaned w o k)
  = take (Z.to_nat o) (window_at cleaned w o (S k)).
Proof.
  intros Ho cleaned Hk. set (len := jslength cleaned) in *.
  set (s := w - o). assert (Hs : 0 < s) by (subst s; lia).
  assert (Hfull : Z.of_nat k * s + w < len).
  { unfold window_count in Hk. fold s in Hk.
    destruct (Z.leb_spec len 0); [lia|]. destruct (Z.leb_spec len w); [lia|].
    assert (Hq : Z.of_nat k < (len - w + s - 1) / s) by lia.
    assert (Hd : s * ((len - w + s - 1) / s) <= len - w + s - 1)
      by (apply Z.mul_div_le; lia).
    nia. }
  unfold window_at. fold s.
  rewrite slice_range by (fold len; nia).
  replace (Z.of_nat k * s + w - Z.of_nat k * s) with w by lia.
  assert (Hnext : slice cleaned (Z.of_nat (S k) * s) (Z.of_nat (S k) * s + w)
            = take (Z.to_nat (Z.min w (len - Z.of_nat (S k) * s)))
                (drop (Z.to_nat (Z.of_nat (S k) * s)) cleaned)).
  { destruct (Z.le_gt_cases (Z.of_nat (S k) * s + w) len).
    - rewrite slice_range by (fold len; nia). do 2 f_equal. lia.
    - rewrite slice_clamp, slice_to_end by (fold len; nia).
      symmetry. apply take_ge. rewrite length_drop. subst len. unfold jslength in *. nia. }
  rewrite Hnext. split.
  - unfold jslength. rewrite length_take, length_drop. subst len.
    unfold jslength in *. nia.
  - replace (Z.to_nat w) with (Z.to_nat s + Z.to_nat o)%nat by (subst s; lia).
    rewrite <- take_drop_commute, drop_drop, take_take.
    replace (Z.to_nat (Z.of_nat k * s) + Z.to_nat s)%nat
      with (Z.to_nat (Z.of_nat (S k) * s)) by nia.
    f_equal. nia.
Qed.

Lemma windows_share_overlap_witness :
  let cleaned := normalize (lit "AAAAABBBBBCCCCC") in
  jslength (window_at cleaned 5 2 1) = 5 /\
  drop (Z.to_nat (5 - 2)) (window_at cleaned 5 2 1)
  = take (Z.to_nat 2) (window_at cleaned 5 2 2).
Proof.
  apply (windows_share_overlap (lit "AAAAABBBBBCCCCC") 5 2 1); [lia|].
  vm_compute. lia.
Defined.

(** ** cosineSimilarity and NaN *)

Lemma is_nan_spec (x : float) : is_nan x = true <-> Prim2SF x = S754_nan.
Proof.
  split.
  - unfold is_nan. rewrite FloatAxioms.eqb_spec. unfold SFeqb, SFcompare.
    destruct (Prim2SF x) as [s|s| |s m e]; try destruct s; try done;
      rewrite Z.compare_refl, ?Pos.compare_cont_refl, ?Pos.compare_refl; simpl;
      try done.
  - intros H. destruct (is_nan x) eqn:Hn; [done|].
    by apply is_nan_false in Hn.
Qed.

Lemma nan_add_l x y : is_nan x = true -> is_nan (x + y) = true.
Proof.
  rewrite !is_nan_spec, add_spec. intros ->. reflexivity.
Qed.

Lemma nan_add_r x y : is_nan y = true -> is_nan (x + y) = true.
Proof.
  rewrite !is_nan_spec, add_spec. intros ->.
  by destruct (Prim2SF x) as [s|s| |s m e].
Qed.

Lemma nan_mul_l x y : is_nan x = true -> is_nan (x * y) = true.
Proof. rewrite !is_nan_spec, mul_spec. intros ->. reflexivity. Qed.

Lemma nan_mul_r x y : is_nan y = true -> is_nan (x * y) = true.
Proof.
  rewrite !is_nan_spec, mul_spec. intros ->.
  by destruct (Prim2SF x) as [s|s| |s m e].
Qed.

Lemma nan_sqrt x : is_nan x = true -> is_nan (sqrt x) = true.
Proof. rewrite !is_nan_spec, sqrt_spec. intros ->. reflexivity. Qed.

Lemma nan_sum (f : nat -> float) l : forall acc,
  is_nan acc = true \/ Exists (fun k => is_nan (f k) = true) l ->
  is_nan (fold_left (fun acc k => (acc + f k)%float) l acc) = true.
Proof.
  induction l as [|k l IH]; intros acc [H|H]; simpl; try done.
  - by apply Exists_nil in H.
  - apply IH. left. by apply nan_add_l.
  - apply Exists_cons in H as [H|H]; apply IH; [left|right]; [by apply nan_add_r|done].
Qed.

(** A NaN among the components that cosineSimilarity reads makes the squared
    norm, and with it the denominator, NaN, which is falsy in the test
    [denom ? dot / denom : 0]: the result is [0], not NaN. *)
Theorem cosineSimilarity_nan (a b : vector) (k : nat) :
  (k < Nat.min (length a) (length b))%nat ->
  is_nan (at_index a k) = true \/ is_nan (at_index b k) = true ->
  cosineSimilarity a b = 0%float.
Proof.
  intros Hk H. unfold cosineSimilarity. rewrite cosine_loop_sums.
  set (L := Nat.min (length a) (length b)) in *.
  assert (Hin : k ∈ seq 0 L) by (apply elem_of_seq; lia).
  assert (Hfalsy : forall x, is_nan x = true -> truthy x = false).
  { intros x Hx. unfold truthy. rewrite Hx. by rewrite orb_true_r. }
  rewrite Hfalsy; [done|].
  destruct H as [H|H].
  - apply nan_mul_l, nan_sqrt.
    apply (nan_sum (fun k => (at_index a k * at_index a k)%float)). right.
    apply Exists_exists. exists k. split; [done|by apply nan_mul_l].
  - apply nan_mul_r, nan_sqrt.
    apply (nan_sum (fun k => (at_index b k * at_index b k)%float)). right.
    apply Exists_exists. exists k. split; [done|by apply nan_mul_l].
Qed.

Lemma cosineSimilarity_nan_witness :
  cosineSimilarity [1; nan; 2]%float [0.5; 3]%float = 0%float.
Proof.
  apply (cosineSimilarity_nan [1; nan; 2]%float [0.5; 3]%float 1);
    [simpl; lia | left; reflexivity].
Defined.

(** ** The ranking step and the count of matches *)

(** [.slice(0, topK)] with a [topK] below zero counts from the end: the
    ranking step then drops the last [-topK] records of the sorted
    collection and keeps the others. *)
Theorem rank_negative_topK (scoredItems : list scored) (k : Z) :
  k < 0 ->
  rank scoredItems k
  = take (Z.to_nat (jslength scoredItems + k)) (js_sort by_score_desc scoredItems) /\
  jslength (rank scoredItems k) = Z.max 0 (jslength scoredItems + k).
Proof.
  intros Hk.
  assert (Hlen : length (js_sort by_score_desc scoredItems) = length scoredItems).
  { by rewrite (js_sort_perm by_score_desc scoredItems). }
  assert (H : rank scoredItems k
    = take (Z.to_nat (jslength scoredItems + k)) (js_sort by_score_desc scoredItems)).
  { unfold rank, slice, rel_index, jslength. rewrite Hlen.
    change (0 <? 0) with false. cbv iota.
    replace (Z.min 0 (Z.of_nat (length scoredItems))) with 0 by lia.
    rewrite Z.sub_0_r. change (Z.to_nat 0) with 0%nat. rewrite drop_0.
    destruct (Z.ltb_spec k 0); [|lia]. f_equal. lia. }
  split; [done|]. rewrite H. unfold jslength. rewrite length_take, Hlen. lia.
Qed.

Lemma rank_negative_topK_witness :
  rank tie_example (-1)
  = take (Z.to_nat (jslength tie_example + -1)) (js_sort by_score_desc tie_example) /\
  jslength (rank tie_example (-1)) = Z.max 0 (jslength tie_example + -1).
Proof. apply (rank_negative_topK tie_example (-1)). lia. Defined.

(** ** The index that indexPdfToJson writes *)

(** The record of chunk [k] (from 0) as it is read back: its [embedding] is
    left out when the service gave none. *)
Lemma indexPdfToJson_returns E fuel a fs stats fs' :
  indexPdfToJson E fuel a fs = (Returns stats, fs') ->
  exists texte chunks loaded,
    fs !! pdfPath a = Some (Pdf texte) /\
    chunkText fuel texte (chunkSize a) (chunkOverlap a) = Some chunks /\
    stats = {| stats_chunks := jslength chunks; stats_embedModel := embedModel a;
               stats_source := sourceName a |} /\
    fs' = <[outPath a :=
              Json (VObj [("createdAt", VStr (now_iso E));
                          ("source", VStr (sourceName a));
                          ("embedModel", VStr (embedModel a));
                          ("chunkSize", VInt (chunkSize a));
                          ("chunkOverlap", VInt (chunkOverlap a));
                          ("count", VInt (jslength chunks));
                          ("items", VArr loaded)])]> fs /\
    length loaded = length chunks /\
    forall (k : nat) it, loaded !! k = Some it ->
      exists text emb,
        chunks !! k = Some text /\
        ollamaEmbeddings E (embedModel a) text = Returns emb /\
        it = VObj ([("id", VStr (sourceName a ++ lit "::chunk_"
                                   ++ decimal (Z.of_nat k + 1)));
                    ("source", VStr (sourceName a));
                    ("chunk", VInt (Z.of_nat k + 1));
                    ("text", VStr text)]
                   ++ match SerializeJSONProperty emb with
                      | Some j => [("embedding", j)]
                      | None => []
                      end).
Proof.
  unfold indexPdfToJson.
  destruct (fs !! pdfPath a) as [[texte| |]|] eqn:Hpdf; try discriminate.
  destruct (chunkText fuel texte _ _) as [chunks|] eqn:Hchunks; try discriminate.
  destruct (embed_chunks _ _ _ _ _ _) as [items| | |] eqn:Hitems; try discriminate.
  destruct (embed_chunks_returns _ _ _ _ _ _ _ Hitems) as (new & Hnew & Hlen & Hall).
  simpl in Hnew. subst new.
  simpl. intros [= <- <-].
  eexists texte, chunks, _.
  split; [done|]. split; [done|].
  split; [unfold jslength; by rewrite Hlen|].
  split; [unfold jslength; rewrite Hlen; reflexivity|].
  split; [by rewrite List.length_map|].
  intros k it. rewrite lookup_map.
  destruct (items !! k) as [it0|] eqn:Hk; [|done]. simpl. intros [= <-].
  destruct (Hall k it0 Hk) as (text & emb & Ht & He & ->).
  exists text, emb. split; [done|]. split; [done|].
  rewrite Z.add_0_l. simpl. unfold JSON_stringify.
  by destruct (SerializeJSONProperty emb).
Qed.

Lemma decimal_inj (n m : Z) : decimal n = decimal m -> n = m.
Proof.
  unfold decimal, lit. intros H.
  apply (f_equal string_of_list_ascii) in H.
  rewrite !string_of_list_ascii_of_string in H.
  by apply (inj pretty) in H.
Qed.

(** The records of an index have identifiers that differ from one another,
    and the count of the index and of the statistics is their number. *)
Theorem index_ids_differ E fuel a fs stats fs' :
  indexPdfToJson E fuel a fs = (Returns stats, fs') ->
  exists db loaded,
    load_index fs' (outPath a) = Returns db /\
    opt_prop db "items" = VArr loaded /\
    opt_prop db "count" = VInt (jslength loaded) /\
    stats_chunks stats = jslength loaded /\
    NoDup (List.map (fun it => opt_prop it "id") loaded).
Proof.
  intros (texte & chunks & loaded & _ & _ & -> & -> & Hlen & Hall)%indexPdfToJson_returns.
  eexists _, loaded. unfold load_index. rewrite lookup_insert_eq. simpl.
  split; [done|]. split; [done|].
  split; [unfold jslength; by rewrite Hlen|].
  split; [unfold jslength; by rewrite Hlen|].
  apply NoDup_alt. intros i j x. rewrite !lookup_map.
  destruct (loaded !! i) as [iti|] eqn:Hi; [|done].
  destruct (loaded !! j) as [itj|] eqn:Hj; [|done].
  destruct (Hall i iti Hi) as (ti & ei & _ & _ & ->).
  destruct (Hall j itj Hj) as (tj & ej & _ & _ & ->).
  simpl. intros [= <-] [= H].
  apply app_inv_head in H. injection H as H. apply decimal_inj in H. lia.
Qed.

Lemma index_ids_differ_witness :
  let run :=
    indexPdfToJson steady_env 10 small_index_args (one_pdf (lit "AAAAABBBBB")) in
  fst run = Returns {| stats_chunks := 3; stats_embedModel := lit "nomic-embed-text";
                       stats_source := lit "doc.pdf" |} /\
  exists db loaded,
    load_index (snd run) (outPath small_index_args) = Returns db /\
    opt_prop db "items" = VArr loaded /\
    opt_prop db "count" = VInt (jslength loaded) /\
    3 = jslength loaded /\
    NoDup (List.map (fun it => opt_prop it "id") loaded).
Proof.
  split; [reflexivity|].
  apply (index_ids_differ steady_env 10 small_index_args (one_pdf (lit "AAAAABBBBB"))
           {| stats_chunks := 3; stats_embedModel := lit "nomic-embed-text";
              stats_source := lit "doc.pdf" |}).
  reflexivity.
Defined.

(** ** answerQuestion: what a call that returns has done *)

Lemma index_items_returns db items :
  index_items db = Returns (VArr items) ->
  opt_prop db "items" = VArr items /\ items <> [].
Proof.
  unfold index_items.
  destruct (to_boolean (opt_prop db "items")) eqn:Hb; simpl.
  - destruct (negb (to_boolean (opt_prop (opt_prop db "items") "length"))) eqn:Hl;
      [discriminate|].
    intros [= H]. rewrite H in Hl. split; [done|]. by intros ->.
  - discriminate.
Qed.

Lemma index_items_of db items :
  opt_prop db "items" = VArr items -> items <> [] ->
  index_items db = Returns (VArr items).
Proof.
  intros H Hne. unfold index_items. rewrite H. simpl.
  destruct items; [done|]. reflexivity.
Qed.

Lemma score_items_items q items : forall all,
  score_items q items = Returns all -> List.map item all = items.
Proof.
  induction items as [|it rest IH]; simpl; intros all.
  - by intros [= <-].
  - unfold mbind, outcome_bind, bind.
    destruct (prop it "embedding") as [emb| | |]; try discriminate.
    destruct (as_vector q) as [va| | |]; try discriminate.
    destruct (as_vector emb) as [vb| | |]; try discriminate.
    destruct (score_items q rest) as [more| | |]; try discriminate.
    intros [= <-]. simpl. f_equal. by apply IH.
Qed.

Lemma score_items_total q v items :
  as_vector q = Returns v ->
  Forall (fun it => exists e b, prop it "embedding" = Returns e /\
                                as_vector e = Returns b) items ->
  exists all, score_items q items = Returns all.
Proof.
  intros Hq. induction 1 as [|it rest (e & b & He & Hb) _ [more IH]]; simpl.
  - by eexists.
  - unfold mbind, outcome_bind, bind. rewrite He, Hq, Hb, IH. by eexists.
Qed.

Lemma context_parts_total l :
  Forall (fun s => exists id text, opt_prop (item s) "id" = VStr id /\
                                   opt_prop (item s) "text" = VStr text) l ->
  forall idx, exists parts, context_parts idx l = Returns parts.
Proof.
  induction 1 as [|s rest (id & text & Hid & Ht) _ IH]; intros idx; simpl.
  - by eexists.
  - unfold mbind, outcome_bind, bind. rewrite Hid, Ht. simpl.
    destruct (IH (idx + 1)) as [more ->]. by eexists.
Qed.

Lemma rank_subseteq all k : rank all k ⊆ all.
Proof.
  unfold rank, slice. intros s Hs.
  apply subseteq_take, subseteq_drop in Hs.
  by rewrite (js_sort_perm by_score_desc all) in Hs.
Qed.

Lemma ollamaChat_returns E model system user s :
  ollamaChat E model system user = Returns s -> trim s = s.
Proof.
  unfold ollamaChat, mbind, outcome_bind, bind.
  destruct (chat_api E model system user) as [data| | |]; try discriminate.
  destruct (opt_prop (opt_prop data "message") "content"); try discriminate.
  intros [= <-]. apply trim_idemp.
Qed.

Lemma answerQuestion_inv E a fs r :
  answerQuestion E a fs = Returns r ->
  exists db items q all,
    fs !! indexPath a = Some (Json db) /\
    opt_prop db "items" = VArr items /\ items <> [] /\
    ollamaEmbeddings E (askEmbedModel a) (question a) = Returns q /\
    score_items q items = Returns all /\
    trim (answer r) = answer r /\
    sources r = List.map (fun s => {| ref_id := opt_prop (item s) "id";
                                      ref_score := fixed4 E (score s) |})
                  (rank all (topK a)).
Proof.
  unfold answerQuestion, load_index, mbind, outcome_bind, bind.
  destruct (fs !! indexPath a) as [[| db |]|] eqn:Hfs; try discriminate. simpl.
  destruct (index_items db) as [items| | |] eqn:Hitems; try discriminate.
  destruct (ollamaEmbeddings E _ _) as [q| | |] eqn:Hq; try discriminate.
  destruct items as [| | | | | |items|]; try discriminate.
  apply index_items_returns in Hitems as [Hitems Hne].
  destruct (score_items q items) as [all| | |] eqn:Hall; try discriminate.
  destruct (context_parts 0 _) as [parts| | |]; try discriminate.
  destruct (ollamaChat E _ _ _) as [ans| | |] eqn:Hans; try discriminate.
  intros [= <-]. exists db, items, q, all. simpl.
  repeat (split; [done|]). split; [|done]. by eapply ollamaChat_returns.
Qed.

(** A call of answerQuestion that returns has found an index with at least
    one record; with [topK >= 0] it names [topK] sources, or as many as
    the index has records when these are fewer; every source carries the
    identifier of a record of the index; and the answer has no white space
    at either end. *)
Theorem answerQuestion_sources E a fs r :
  answerQuestion E a fs = Returns r ->
  0 <= topK a ->
  exists db items,
    fs !! indexPath a = Some (Json db) /\
    opt_prop db "items" = VArr items /\
    items <> [] /\
    jslength (sources r) = Z.min (topK a) (jslength items) /\
    Forall (fun s => exists it, it ∈ items /\ ref_id s = opt_prop it "id")
      (sources r) /\
    trim (answer r) = answer r.
Proof.
  intros (db & items & q & all & Hfs & Hitems & Hne & _ & Hall & Htrim & Hsrc)%answerQuestion_inv Hk.
  exists db, items. do 3 (split; [done|]).
  apply score_items_items in Hall.
  split; [|split; [|done]].
  - rewrite Hsrc. unfold jslength. rewrite List.length_map.
    unfold rank. rewrite slice_first by done.
    rewrite length_take, (js_sort_perm by_score_desc all).
    rewrite <- Hall, List.length_map. lia.
  - rewrite Hsrc. apply Forall_forall. intros s (x & <- & Hx)%list_elem_of_In%in_map_iff.
    apply list_elem_of_In, rank_subseteq in Hx.
    exists (item x). split; [|done]. rewrite <- Hall.
    apply list_elem_of_In, in_map, list_elem_of_In, Hx.
Qed.

Lemma answerQuestion_sources_witness :
  exists db items,
    index_with_empty_vector !! indexPath demo_ask_args = Some (Json db) /\
    opt_prop db "items" = VArr items /\
    items <> [] /\
    jslength [ {| ref_id := VStr (lit "doc.pdf::chunk_1"); ref_score := 0 |} ]
    = Z.min (topK demo_ask_args) (jslength items) /\
    Forall (fun s => exists it, it ∈ items /\ ref_id s = opt_prop it "id")
      [ {| ref_id := VStr (lit "doc.pdf::chunk_1"); ref_score := 0 |} ] /\
    trim (lit "ok") = lit "ok".
Proof.
  apply (answerQuestion_sources demo_env demo_ask_args index_with_empty_vector
           {| answer := lit "ok";
              sources := [ {| ref_id := VStr (lit "doc.pdf::chunk_1");
                              ref_score := 0 |} ] |});
    [reflexivity | simpl; lia].
Defined.

Lemma score_items_scores q items : forall all,
  score_items q items = Returns all ->
  Forall (fun s => exists vq emb vb,
            as_vector q = Returns vq /\
            prop (item s) "embedding" = Returns emb /\
            as_vector emb = Returns vb /\
            score s = cosineSimilarity vq vb) all.
Proof.
  induction items as [|it rest IH]; simpl; intros all.
  - by intros [= <-].
  - unfold mbind, outcome_bind, bind.
    destruct (prop it "embedding") as [emb| | |] eqn:He; try discriminate.
    destruct (as_vector q) as [vq| | |] eqn:Hq; try discriminate.
    destruct (as_vector emb) as [vb| | |] eqn:Hb; try discriminate.
    destruct (score_items q rest) as [more| | |]; try discriminate.
    intros [= <-]. constructor; [|by apply IH].
    by exists vq, emb, vb.
Qed.

(** The sources of an answer are the best matches, best first.  In a call
    of answerQuestion that returns ([topK >= 0]), every record of the index
    is given a score, the cosine similarity of the vector of the question
    and the vector of the record; when none of these scores is NaN, the
    sources are the first [topK] records of the index sorted by descending
    score, named by their identifiers: the score of every record of the
    sorted index is at least the score of the record after it. *)
Theorem answerQuestion_ranked E a fs r :
  answerQuestion E a fs = Returns r ->
  0 <= topK a ->
  exists db items q all,
    fs !! indexPath a = Some (Json db) /\
    opt_prop db "items" = VArr items /\
    ollamaEmbeddings E (askEmbedModel a) (question a) = Returns q /\
    List.map item all = items /\
    Forall (fun s => exists vq emb vb,
              as_vector q = Returns vq /\
              prop (item s) "embedding" = Returns emb /\
              as_vector emb = Returns vb /\
              score s = cosineSimilarity vq vb) all /\
    (Forall (fun s => is_nan (score s) = false) all ->
     let sorted := js_sort by_score_desc all in
     Permutation sorted all /\
     Sorted (fun x y => (score y <=? score x)%float = true) sorted /\
     List.map ref_id (sources r)
     = List.map (fun s => opt_prop (item s) "id") (take (Z.to_nat (topK a)) sorted)).
Proof.
  intros (db & items & q & all & Hfs & Hitems & _ & Hq & Hall & _ & Hsrc)%answerQuestion_inv Hk.
  exists db, items, q, all. do 3 (split; [done|]).
  split; [by eapply score_items_items|].
  split; [by eapply score_items_scores|].
  intros Hnan sorted. split; [apply js_sort_perm|]. split.
  - eapply (Sorted_weaken _ _ (fun s => is_nan (score s) = false));
      [| |apply (js_sort_sorted by_score_desc)].
    + intros x y Hx Hy. unfold in_order, by_score_desc.
      rewrite float_sub_positive_iff. by apply float_not_lt_ge.
    + eapply Forall_forall. intros s Hs. rewrite Forall_forall in Hnan. apply Hnan.
      by rewrite <- (js_sort_perm by_score_desc all).
    + intros x y. apply float_sub_positive_antisym.
  - rewrite Hsrc. unfold rank. rewrite slice_first by done.
    by rewrite List.map_map.
Qed.

Lemma answerQuestion_ranked_witness :
  let E := steady_env in
  let a := two_best_args in
  let fs := index_with_three_vectors in
  let r := {| answer := lit "ok";
              sources := [ {| ref_id := VStr (lit "doc.pdf::chunk_3"); ref_score := 1 |};
                           {| ref_id := VStr (lit "doc.pdf::chunk_1"); ref_score := 0 |} ]
           |} in
  answerQuestion E a fs = Returns r /\
  exists db items q all,
    fs !! indexPath a = Some (Json db) /\
    opt_prop db "items" = VArr items /\
    ollamaEmbeddings E (askEmbedModel a) (question a) = Returns q /\
    List.map item all = items /\
    Forall (fun s => exists vq emb vb,
              as_vector q = Returns vq /\
              prop (item s) "embedding" = Returns emb /\
              as_vector emb = Returns vb /\
              score s = cosineSimilarity vq vb) all /\
    (Forall (fun s => is_nan (score s) = false) all ->
     let sorted := js_sort by_score_desc all in
     Permutation sorted all /\
     Sorted (fun x y => (score y <=? score x)%float = true) sorted /\
     List.map ref_id (sources r)
     = List.map (fun s => opt_prop (item s) "id") (take (Z.to_nat (topK a)) sorted)).
Proof.
  assert (H : answerQuestion steady_env two_best_args index_with_three_vectors
              = Returns {| answer := lit "ok";
                           sources := [ {| ref_id := VStr (lit "doc.pdf::chunk_3");
                                           ref_score := 1 |};
                                        {| ref_id := VStr (lit "doc.pdf::chunk_1");
                                           ref_score := 0 |} ] |})
    by reflexivity.
  split; [exact H|].
  apply (answerQuestion_ranked steady_env two_best_args index_with_three_vectors _ H).
  simpl. lia.
Defined.

(** The three records of the example have the scores 0, -1 and 1: the third
    record is the best match, the first one is next, and the second one is
    left out. *)
Example answerQuestion_ranks_three :
  score_items (VArr [VNum 3; VNum 4])
    [make_item (lit "doc.pdf") 0 (lit "one") (VArr [VNum 4; VNum (-3)]);
     make_item (lit "doc.pdf") 1 (lit "two") (VArr [VNum (-3); VNum (-4)]);
     make_item (lit "doc.pdf") 2 (lit "three") (VArr [VNum 3; VNum 4])]
  = Returns
      [ {| item := make_item (lit "doc.pdf") 0 (lit "one") (VArr [VNum 4; VNum (-3)]);
           score := 0 |};
        {| item := make_item (lit "doc.pdf") 1 (lit "two") (VArr [VNum (-3); VNum (-4)]);
           score := -1 |};
        {| item := make_item (lit "doc.pdf") 2 (lit "three") (VArr [VNum 3; VNum 4]);
           score := 1 |} ] /\
  List.map ref_id
    (match answerQuestion steady_env two_best_args index_with_three_vectors with
     | Returns r => sources r
     | _ => []
     end)
  = [VStr (lit "doc.pdf::chunk_3"); VStr (lit "doc.pdf::chunk_1")].
Proof. split; reflexivity. Qed.

(** ** From the index to the answer *)

Lemma embed_chunks_total E src model chunks :
  (forall text, text ∈ chunks -> exists emb, ollamaEmbeddings E model text = Returns emb) ->
  forall i acc, exists items, embed_chunks E src model i chunks acc = Returns items.
Proof.
  induction chunks as [|text rest IH]; intros H i acc; simpl; [by eexists|].
  unfold mbind, outcome_bind, bind.
  destruct (H text) as [emb ->]; [by left|].
  apply IH. intros t Ht. apply H. by right.
Qed.

Lemma indexPdfToJson_succeeds E fuel a fs texte chunks :
  fs !! pdfPath a = Some (Pdf texte) ->
  chunkText fuel texte (chunkSize a) (chunkOverlap a) = Some chunks ->
  (forall text, text ∈ chunks ->
     exists emb, ollamaEmbeddings E (embedModel a) text = Returns emb) ->
  exists fs',
    indexPdfToJson E fuel a fs
    = (Returns {| stats_chunks := jslength chunks; stats_embedModel := embedModel a;
                  stats_source := sourceName a |}, fs').
Proof.
  intros Hpdf Hchunks Hemb. unfold indexPdfToJson. rewrite Hpdf, Hchunks.
  destruct (embed_chunks_total E (sourceName a) (embedModel a) chunks Hemb 0 [])
    as [items Hitems].
  rewrite Hitems.
  destruct (embed_chunks_returns _ _ _ _ _ _ _ Hitems) as (new & Hnew & Hlen & _).
  simpl in Hnew. subst new. simpl. unfold jslength. rewrite Hlen. by eexists.
Qed.

Lemma stored_vector (xs : list float) :
  exists j v, SerializeJSONProperty (VArr (List.map VNum xs)) = Some j /\
              as_vector j = Returns v.
Proof.
  simpl. eexists. 
  assert (H : exists v, mapM to_number
            (List.map (fun x => match SerializeJSONProperty x with
                                | Some j => j | None => VNull end)
               (List.map VNum xs)) = Some v).
  { induction xs as [|x xs [v IH]]; [by eexists|].
    simpl in *. rewrite IH.
    destruct (is_finite x); [destruct (is_zero x)|]; simpl; by eexists. }
  destruct H as [v Hv]. exists v. split; [done|]. simpl. by rewrite Hv.
Qed.

Lemma as_vector_numbers (xs : list float) :
  as_vector (VArr (List.map VNum xs)) = Returns xs.
Proof.
  simpl. assert (H : mapM to_number (List.map VNum xs) = Some xs).
  { induction xs as [|x xs IH]; [done|]. simpl in *. by rewrite IH. }
  by rewrite H.
Qed.

(** The question is answered from an index that indexPdfToJson has written,
    when the services answer as they should. *)
Lemma answer_after_index E fuel a fs stats fs' q :
  indexPdfToJson E fuel a fs = (Returns stats, fs') ->
  (forall model text, exists xs,
     ollamaEmbeddings E model text = Returns (VArr (List.map VNum xs))) ->
  (forall model system user, exists data s,
     chat_api E model system user = Returns data /\
     opt_prop (opt_prop data "message") "content" = VStr s) ->
  0 < stats_chunks stats -> indexPath q = outPath a -> 0 <= topK q ->
  exists r,
    answerQuestion E q fs' = Returns r /\
    jslength (sources r) = Z.min (topK q) (stats_chunks stats) /\
    Forall (fun s => exists n, 1 <= n <= stats_chunks stats /\
              ref_id s = VStr (sourceName a ++ lit "::chunk_" ++ decimal n))
      (sources r).
Proof.
  intros (texte & chunks & loaded & _ & _ & -> & -> & Hlen & Hloaded)%indexPdfToJson_returns
    Hemb Hchat Hpos Hq Hk.
  simpl in Hpos |- *.
  assert (Hne : loaded <> []).
  { intros ->. unfold jslength in Hpos. simpl in Hlen. lia. }
  assert (Hitems : Forall (fun it =>
            (exists e b, prop it "embedding" = Returns e /\ as_vector e = Returns b) /\
            (exists n text, 1 <= n <= jslength chunks /\
               opt_prop it "id" = VStr (sourceName a ++ lit "::chunk_" ++ decimal n) /\
               opt_prop it "text" = VStr text)) loaded).
  { apply Forall_lookup. intros k it Hit.
    destruct (Hloaded k it Hit) as (text & emb & Ht & He & ->).
    destruct (Hemb (embedModel a) text) as [xs Hxs]. rewrite Hxs in He.
    injection He as <-.
    destruct (stored_vector xs) as (j & v & -> & Hv). split.
    - by exists j, v.
    - exists (Z.of_nat k + 1), text. split; [|done].
      apply lookup_lt_Some in Ht. unfold jslength. lia. }
  destruct (Hemb (askEmbedModel q) (question q)) as [xq Hxq].
  destruct (score_items_total (VArr (List.map VNum xq)) xq loaded
              (as_vector_numbers xq)) as [all Hall].
  { eapply Forall_impl; [exact Hitems|]. by intros it [? _]. }
  pose proof (score_items_items _ _ _ Hall) as Hmap.
  assert (Hranked : Forall (fun s => exists n text, 1 <= n <= jslength chunks /\
               opt_prop (item s) "id" = VStr (sourceName a ++ lit "::chunk_" ++ decimal n) /\
               opt_prop (item s) "text" = VStr text) (rank all (topK q))).
  { apply Forall_forall. intros s Hs%rank_subseteq.
    rewrite Forall_forall in Hitems. apply (Hitems (item s)).
    rewrite <- Hmap. by apply list_elem_of_In, in_map, list_elem_of_In. }
  destruct (context_parts_total (rank all (topK q))) with (idx := 0) as [parts Hparts].
  { eapply Forall_impl; [exact Hranked|]. intros s (n & text & _ & ? & ?). eauto. }
  unfold answerQuestion, load_index. rewrite Hq, lookup_insert_eq.
  unfold mbind, outcome_bind, bind, JSON_parse.
  rewrite (index_items_of _ loaded) by done.
  rewrite Hxq, Hall, Hparts.
  unfold ollamaChat, mbind, outcome_bind, bind.
  match goal with |- context [chat_api E ?m ?s ?u] =>
    destruct (Hchat m s u) as (data & ans & -> & ->) end.
  eexists. split; [done|]. cbn [sources]. split.
  - unfold jslength. rewrite List.length_map.
    unfold rank. rewrite slice_first by done.
    rewrite length_take, (js_sort_perm by_score_desc all).
    rewrite <- Hlen, <- Hmap, List.length_map. lia.
  - apply Forall_forall. intros s (x & <- & Hx)%list_elem_of_In%in_map_iff.
    apply list_elem_of_In in Hx. rewrite Forall_forall in Hranked.
    destruct (Hranked x Hx) as (n & text & Hn & Hid & _).
    exists n. by split.
Qed.

(** An index written by indexPdfToJson with an embedding service that
    returns vectors of numbers is one that answerQuestion answers from, when
    the chat service returns a message: the call returns the reply of the
    chat service, without white space around it, and [topK] sources, or as
    many as there are chunks when these are fewer, every one carrying the
    identifier [<source>::chunk_<n>] of one of the chunks. *)
Theorem index_then_answer E fuel a fs stats fs' q :
  indexPdfToJson E fuel a fs = (Returns stats, fs') ->
  (forall model text, exists xs,
     ollamaEmbeddings E model text = Returns (VArr (List.map VNum xs))) ->
  (forall model system user, exists data s,
     chat_api E model system user = Returns data /\
     opt_prop (opt_prop data "message") "content" = VStr s) ->
  0 < stats_chunks stats -> indexPath q = outPath a -> 0 <= topK q ->
  exists r,
    answerQuestion E q fs' = Returns r /\
    (exists system user data s,
       chat_api E (chatModel q) system user = Returns data /\
       opt_prop (opt_prop data "message") "content" = VStr s /\
       answer r = trim s) /\
    jslength (sources r) = Z.min (topK q) (stats_chunks stats) /\
    Forall (fun s => exists n, 1 <= n <= stats_chunks stats /\
              ref_id s = VStr (sourceName a ++ lit "::chunk_" ++ decimal n))
      (sources r).
Proof.
  intros Hidx Hemb Hchat Hpos Hq Hk.
  destruct (answer_after_index E fuel a fs stats fs' q Hidx Hemb Hchat Hpos Hq Hk)
    as (r & Hr & Hlen & Hids).
  exists r. split; [done|]. split; [|done].
  revert Hr. unfold answerQuestion, mbind, outcome_bind, bind.
  destruct (load_index fs' (indexPath q)) as [db| | |]; try discriminate.
  destruct (index_items db) as [items| | |]; try discriminate.
  destruct (ollamaEmbeddings E _ _) as [qe| | |]; try discriminate.
  destruct items as [| | | | | |items|]; try discriminate.
  destruct (score_items qe items) as [all| | |]; try discriminate.
  destruct (context_parts 0 _) as [parts| | |]; try discriminate.
  unfold ollamaChat, mbind, outcome_bind, bind.
  match goal with |- context [chat_api E ?m ?sy ?u] =>
    destruct (chat_api E m sy u) as [data| | |] eqn:Hdata; try discriminate;
    destruct (opt_prop (opt_prop data "message") "content") as [| | | | |s| |] eqn:Hs;
      try discriminate;
    intros [= <-]; by exists sy, u, data, s
  end.
Qed.

Lemma index_then_answer_witness :
  exists r,
    answerQuestion steady_env demo_ask_args
      (snd (indexPdfToJson steady_env 10 demo_index_args (one_pdf (lit "Hello  world"))))
    = Returns r /\
    (exists system user data s,
       chat_api steady_env (lit "llama3.2") system user = Returns data /\
       opt_prop (opt_prop data "message") "content" = VStr s /\
       answer r = trim s) /\
    jslength (sources r) = Z.min 5 1 /\
    Forall (fun s => exists n, 1 <= n <= 1 /\
              ref_id s = VStr (lit "doc.pdf" ++ lit "::chunk_" ++ decimal n))
      (sources r).
Proof.
  apply (index_then_answer steady_env 10 demo_index_args (one_pdf (lit "Hello  world"))
           {| stats_chunks := 1; stats_embedModel := lit "nomic-embed-text";
              stats_source := lit "doc.pdf" |}
           _ demo_ask_args).
  - reflexivity.
  - intros model text. by exists [3; 4]%float.
  - intros model system user. by eexists _, _.
  - simpl; lia.
  - reflexivity.
  - simpl; lia.
Defined.

(** When the embedding service answers without an [embedding] field,
    ollamaEmbeddings returns [undefined] and indexPdfToJson goes on: it
    returns normally, counting every chunk, and writes records that have no
    [embedding].  The failure shows when a question is asked: answerQuestion
    on that index throws a TypeError. *)
Theorem index_without_vectors E fuel a fs texte chunks :
  (forall model text, ollamaEmbeddings E model text = Returns VUndefined) ->
  fs !! pdfPath a = Some (Pdf texte) ->
  chunkText fuel texte (chunkSize a) (chunkOverlap a) = Some chunks ->
  chunks <> [] ->
  exists fs' db loaded,
    indexPdfToJson E fuel a fs
    = (Returns {| stats_chunks := jslength chunks; stats_embedModel := embedModel a;
                  stats_source := sourceName a |}, fs') /\
    load_index fs' (outPath a) = Returns db /\
    opt_prop db "items" = VArr loaded /\
    length loaded = length chunks /\
    Forall (fun it => opt_prop it "embedding" = VUndefined) loaded /\
    forall q, indexPath q = outPath a ->
      exists message, answerQuestion E q fs' = Throws "TypeError" message.
Proof.
  intros Hund Hpdf Hchunks Hne.
  destruct (indexPdfToJson_succeeds E fuel a fs texte chunks Hpdf Hchunks) as [fs' Hidx].
  { intros text _. by eexists. }
  destruct (indexPdfToJson_returns _ _ _ _ _ _ Hidx)
    as (texte' & chunks' & loaded & Hpdf' & Hchunks' & [= Hc] & -> & Hlen & Hloaded).
  rewrite Hpdf in Hpdf'. injection Hpdf' as <-.
  rewrite Hchunks in Hchunks'. injection Hchunks' as <-.
  eexists _, _, loaded. split; [exact Hidx|].
  unfold load_index. rewrite lookup_insert_eq. simpl.
  split; [done|]. split; [done|]. split; [done|].
  assert (Hall : Forall (fun it => opt_prop it "embedding" = VUndefined /\
                                   exists props, it = VObj props) loaded).
  { apply Forall_lookup. intros k it Hit.
    destruct (Hloaded k it Hit) as (text & emb & _ & He & ->).
    rewrite Hund in He. injection He as <-. simpl. eauto. }
  split; [eapply Forall_impl; [exact Hall|]; by intros it [? _]|].
  intros q Hq. unfold answerQuestion, load_index. rewrite Hq, lookup_insert_eq.
  unfold mbind, outcome_bind, bind, JSON_parse.
  assert (Hl : loaded <> []).
  { intros ->. destruct chunks; [done|]. simpl in Hlen. lia. }
  rewrite (index_items_of _ loaded) by done.
  rewrite Hund.
  destruct loaded as [|it rest]; [done|].
  apply Forall_cons in Hall as [[_ [props ->]] _].
  simpl. by eexists.
Qed.

Lemma index_without_vectors_witness :
  exists fs' db loaded,
    indexPdfToJson no_model_env 10 demo_index_args (one_pdf (lit "Hello  world"))
    = (Returns {| stats_chunks := jslength [lit "Hello world"];
                  stats_embedModel := lit "nomic-embed-text";
                  stats_source := lit "doc.pdf" |}, fs') /\
    load_index fs' "data/index.json" = Returns db /\
    opt_prop db "items" = VArr loaded /\
    length loaded = length [lit "Hello world"] /\
    Forall (fun it => opt_prop it "embedding" = VUndefined) loaded /\
    forall q, indexPath q = "data/index.json" ->
      exists message, answerQuestion no_model_env q fs' = Throws "TypeError" message.
Proof.
  apply (index_without_vectors no_model_env 10 demo_index_args
           (one_pdf (lit "Hello  world")) (lit "Hello  world") [lit "Hello world"]);
    [reflexivity | reflexivity | reflexivity | discriminate].
Defined.

Example post_index_demo :
  fst (post_index demo_server 10 (Some demo_upload) (one_pdf (lit "Hello  world")))
  = Returns {| status := 200;
               body := Some (VObj [("ok", VBool true);
                                   ("indexPath", VStr (lit "data/index.json"));
                                   ("stats", VObj [("chunks", VInt 1);
                                                   ("embedModel", VStr (lit "nomic-embed-text"));
                                                   ("source", VStr (lit "doc.pdf"))])]) |}.
Proof. reflexivity. Qed.

Example post_ask_demo :
  post_ask demo_server (VObj [("question", VStr (lit " Quoi ? "))])
    (snd (post_index demo_server 10 (Some demo_upload) (one_pdf (lit "Hello  world"))))
  = Returns {| status := 200;
               body := Some (VObj [("ok", VBool true);
                                   ("answer", VStr (lit "ok"));
                                   ("sources",
                                    VArr [VObj [("id", VStr (lit "doc.pdf::chunk_1"));
                                                ("score", VNum 1)]])]) |}.
Proof. reflexivity. Qed.

(** ** The routes *)

Lemma ollamaEmbeddings_outcome E model text :
  (exists data, embeddings_api E model text = Returns data) \/
  (exists name message, embeddings_api E model text = Throws name message) ->
  (exists emb, ollamaEmbeddings E model text = Returns emb) \/
  (exists name message, ollamaEmbeddings E model text = Throws name message).
Proof.
  unfold ollamaEmbeddings, mbind, outcome_bind, bind.
  intros [[data ->]|(name & message & ->)]; [|right; eauto].
  destruct data; simpl; eauto.
Qed.

Lemma embed_chunks_outcome E src model chunks :
  (forall text,
     (exists data, embeddings_api E model text = Returns data) \/
     (exists name message, embeddings_api E model text = Throws name message)) ->
  forall i acc,
    (exists items, embed_chunks E src model i chunks acc = Returns items) \/
    (exists name message, embed_chunks E src model i chunks acc = Throws name message).
Proof.
  intros H. induction chunks as [|text rest IH]; intros i acc; simpl; [eauto|].
  unfold mbind, outcome_bind, bind.
  destruct (ollamaEmbeddings_outcome E model text (H text))
    as [[emb ->]|(name & message & ->)]; [apply IH|right; eauto].
Qed.

(** The handler of [POST /api/index] always answers when the embedding
    service does, with the status 200, 400 or 500: the window of 1200 and
    the overlap of 200 that it passes to the segmentation keep the loop
    from running for ever.  The status is 400 exactly when the request has
    no file, 200 exactly when indexPdfToJson has returned, and 500 exactly
    when it has thrown. *)
Theorem post_index_answers (S : server_env) (file : option upload)
    (fs : gmap string content) :
  (forall model text,
     (exists data, embeddings_api (rag_env S) model text = Returns data) \/
     (exists name message, embeddings_api (rag_env S) model text = Throws name message)) ->
  exists enough : nat, forall fuel, (enough <= fuel)%nat ->
    exists resp fs',
      post_index S fuel file fs = (Returns resp, fs') /\
      (status resp = 200 \/ status resp = 400 \/ status resp = 500) /\
      (status resp = 400 <-> file = None) /\
      (status resp = 200 <->
       exists f stats, file = Some f /\
         fst (indexPdfToJson (rag_env S) fuel (index_call S f) fs) = Returns stats) /\
      (status resp = 500 <->
       exists f name message, file = Some f /\
         fst (indexPdfToJson (rag_env S) fuel (index_call S f) fs)
         = Throws name message).
Proof.
  intros Hemb.
  assert (Hcases : forall f, exists enough : nat, forall fuel, (enough <= fuel)%nat ->
    (exists stats fs', indexPdfToJson (rag_env S) fuel (index_call S f) fs
                       = (Returns stats, fs')) \/
    (exists name message fs', indexPdfToJson (rag_env S) fuel (index_call S f) fs
                              = (Throws name message, fs'))).
  { intros f. unfold indexPdfToJson. simpl pdfPath. simpl chunkSize. simpl chunkOverlap.
    destruct (fs !! file_path f) as [[texte| |]|] eqn:Hpdf.
    - exists (window_count (jslength (normalize texte)) 1200 200).
      intros fuel Hfuel. unfold chunkText.
      pose proof (chunk_loop_passes (normalize texte) 1200 200 ltac:(lia) fuel 0 []
                    ltac:(lia)) as Hloop.
      rewrite Z.sub_0_r in Hloop. case_decide; [|lia].
      destruct Hloop as [chunks ->].
      destruct (embed_chunks_outcome (rag_env S) (sourceName (index_call S f))
                  (embedModel (index_call S f)) chunks (Hemb _) 0 [])
        as [[items ->]|(name & message & ->)].
      + left. simpl. by eexists _, _.
      + right. by eexists _, _, _.
    - exists 0%nat. intros fuel _. right. by eexists _, _, _.
    - exists 0%nat. intros fuel _. right. by eexists _, _, _.
    - exists 0%nat. intros fuel _. right. by eexists _, _, _. }
  unfold post_index. destruct file as [f|].
  2:{ exists 0%nat. intros fuel _. eexists _, _. split; [done|]. simpl.
      split; [auto|]. split; [done|]. split.
      - split; [lia|]. by intros (f & stats & ? & _).
      - split; [lia|]. by intros (f & name & message & ? & _). }
  destruct (Hcases f) as [enough Henough]. exists enough. intros fuel Hfuel.
  destruct (Henough fuel Hfuel) as [(stats & fs' & Hidx)|(name & message & fs' & Hidx)];
    rewrite Hidx.
  - eexists _, _. split; [done|]. simpl. split; [auto|]. split; [done|]. split.
    + split; [|done]. intros _. exists f, stats. by rewrite Hidx.
    + split; [lia|]. intros (f' & n & m & [= <-] & H). by rewrite Hidx in H.
  - eexists _, _. split; [done|]. simpl. split; [auto|]. split; [done|]. split.
    + split; [lia|]. intros (f' & stats & [= <-] & H). by rewrite Hidx in H.
    + split; [|done]. intros _. exists f, name, message. by rewrite Hidx.
Qed.

Lemma post_index_answers_witness :
  let S := demo_server in
  let file := Some demo_upload in
  let fs := one_pdf (lit "Hello  world") in
  exists enough : nat, forall fuel, (enough <= fuel)%nat ->
    exists resp fs',
      post_index S fuel file fs = (Returns resp, fs') /\
      (status resp = 200 \/ status resp = 400 \/ status resp = 500) /\
      (status resp = 400 <-> file = None) /\
      (status resp = 200 <->
       exists f stats, file = Some f /\
         fst (indexPdfToJson (rag_env S) fuel (index_call S f) fs) = Returns stats) /\
      (status resp = 500 <->
       exists f name message, file = Some f /\
         fst (indexPdfToJson (rag_env S) fuel (index_call S f) fs)
         = Throws name message).
Proof.
  apply (post_index_answers demo_server (Some demo_upload)
           (one_pdf (lit "Hello  world"))).
  intros model text. left. by eexists.
Defined.

(** [POST /api/ask] refuses a request without a question with the status
    400 and the error 'Question vide': a body without a [question], a
    [question] that is falsy ([null], [false], [0], the empty string), or
    one that is white space only.  Neither the files nor the services have
    a part in that response. *)
Theorem post_ask_question_vide (S : server_env) (body : value)
    (fs : gmap string content) :
  to_boolean (opt_prop body "question") = false \/
  (exists s, opt_prop body "question" = VStr s /\
             Forall (fun c => is_white c = true) s) ->
  post_ask S body fs
  = Returns {| status := 400;
               body := Some (VObj [("error", VStr (lit "Question vide"))]) |}.
Proof.
  unfold post_ask, mbind, outcome_bind, bind.
  intros [->|(s & -> & Hs)]; [done|].
  apply trim_nil in Hs. destruct s; simpl to_boolean; cbv iota; simpl to_string;
    cbv iota; [done|]. by rewrite Hs.
Qed.

Lemma post_ask_question_vide_witness :
  post_ask demo_server (VObj [("question", VStr (lit "   "))]) ∅
  = Returns {| status := 400;
               body := Some (VObj [("error", VStr (lit "Question vide"))]) |}.
Proof.
  apply (post_ask_question_vide demo_server (VObj [("question", VStr (lit "   "))]) ∅).
  right. exists (lit "   "). split; [reflexivity|].
  repeat constructor.
Defined.

(** The question that the route passes on. *)
Lemma post_ask_question (S : server_env) (body : value) (fs : gmap string content)
    (s : jsstring) :
  opt_prop body "question" = VStr s -> trim s <> [] ->
  post_ask S body fs
  = match answerQuestion (rag_env S) (ask_call S (trim s)) fs with
    | Returns result =>
        Returns (send_json 200
          (VObj [("ok", VBool true);
                 ("answer", VStr (answer result));
                 ("sources", VArr (List.map source_value (sources result)))]))
    | Throws name message =>
        Returns (send_json 500 (VObj [("error", VStr (error_text name message))]))
    | Spins => Spins
    | Untyped => Untyped
    end.
Proof.
  intros Hq Hs. unfold post_ask, mbind, outcome_bind, bind. rewrite Hq.
  destruct s as [|c r]; [done|]. simpl to_boolean. cbv iota. simpl to_string. cbv iota.
  by destruct (trim (c :: r)).
Qed.

(** An error that is thrown while a request is served does not leave the
    handler: it is caught, and the response has the status 500 and the
    message of the error (its name, when it has no message) in the field
    [error].  This is so in [POST /api/index] for an error of
    indexPdfToJson, and in [POST /api/ask], for a question that is a string
    with more than white space in it, for an error of answerQuestion. *)
Theorem routes_catch_errors (S : server_env) (fuel : nat) (f : upload)
    (req : value) (s : jsstring) (fs : gmap string content)
    (name message : string) :
  (forall fs',
     indexPdfToJson (rag_env S) fuel (index_call S f) fs = (Throws name message, fs') ->
     post_index S fuel (Some f) fs
     = (Returns {| status := 500;
                   body := Some (VObj [("error", VStr (error_text name message))]) |},
        fs')) /\
  (opt_prop req "question" = VStr s -> trim s <> [] ->
   answerQuestion (rag_env S) (ask_call S (trim s)) fs = Throws name message ->
   post_ask S req fs
   = Returns {| status := 500;
                body := Some (VObj [("error", VStr (error_text name message))]) |}).
Proof.
  split.
  - intros fs' H. unfold post_index. by rewrite H.
  - intros Hq Hs H. by rewrite (post_ask_question S req fs s Hq Hs), H.
Qed.

(** With the services down, both routes answer with the status 500 and the
    message of the error of [fetch]. *)
Example routes_answer_when_services_are_down :
  let S := {| rag_env := offline_env; EMBED_MODEL := None; CHAT_MODEL := None |} in
  fst (post_index S 10 (Some demo_upload) (one_pdf (lit "Hello  world")))
  = Returns {| status := 500;
               body := Some (VObj [("error", VStr (lit "fetch failed"))]) |} /\
  post_ask S (VObj [("question", VStr (lit " Quoi ? "))]) index_with_three_vectors
  = Returns {| status := 500;
               body := Some (VObj [("error", VStr (lit "fetch failed"))]) |}.
Proof. split; reflexivity. Qed.

(** With a question, [POST /api/ask] answers with the status 500 and the
    message of the error when there is no index, 'Index introuvable. Fais
    d'abord l'indexation du PDF.', and when the index has no record, 'Index
    vide.'. *)
Theorem post_ask_without_index (S : server_env) (body : value)
    (fs : gmap string content) (s : jsstring) :
  opt_prop body "question" = VStr s -> trim s <> [] ->
  (fs !! INDEX_PATH = None ->
   post_ask S body fs
   = Returns {| status := 500;
                body := Some (VObj [("error",
                  VStr (lit "Index introuvable. Fais d'abord l'indexation du PDF."))]) |}) /\
  (forall db, fs !! INDEX_PATH = Some (Json db) -> opt_prop db "items" = VArr [] ->
   post_ask S body fs
   = Returns {| status := 500;
                body := Some (VObj [("error", VStr (lit "Index vide."))]) |}).
Proof.
  intros Hq Hs. rewrite (post_ask_question S body fs s Hq Hs).
  unfold answerQuestion, load_index, index_items. simpl indexPath. split.
  - by intros ->.
  - intros db -> Hitems. simpl. by rewrite Hitems.
Qed.

Lemma post_ask_without_index_witness :
  post_ask demo_server (VObj [("question", VStr (lit "Quoi ?"))]) ∅
  = Returns {| status := 500;
               body := Some (VObj [("error",
                 VStr (lit "Index introuvable. Fais d'abord l'indexation du PDF."))]) |}.
Proof.
  apply (post_ask_without_index demo_server
           (VObj [("question", VStr (lit "Quoi ?"))]) ∅ (lit "Quoi ?"));
    [reflexivity | vm_compute; discriminate | reflexivity].
Defined.

(** After [POST /api/index] has answered with the status 200, a question is
    answered from the index of the uploaded file when the services answer as
    they should: [POST /api/ask] answers with the status 200, an answer and
    five sources, or as many as the file has chunks when these are fewer.  When the file has no chunk, the same request is
    answered with the status 500 and the error 'Index vide.'. *)
Theorem upload_then_ask (S : server_env) (fuel : nat) (f : upload)
    (fs fs' : gmap string content) (resp : response) (req : value) (s : jsstring) :
  post_index S fuel (Some f) fs = (Returns resp, fs') ->
  status resp = 200 ->
  (forall model text, exists xs,
     ollamaEmbeddings (rag_env S) model text = Returns (VArr (List.map VNum xs))) ->
  (forall model system user, exists data content,
     chat_api (rag_env S) model system user = Returns data /\
     opt_prop (opt_prop data "message") "content" = VStr content) ->
  opt_prop req "question" = VStr s -> trim s <> [] ->
  exists chunks : Z,
    (exists sent, body resp = Some sent /\
                  opt_prop (opt_prop sent "stats") "chunks" = VInt chunks) /\
    (chunks = 0 ->
     post_ask S req fs'
     = Returns {| status := 500;
                  body := Some (VObj [("error", VStr (lit "Index vide."))]) |}) /\
    (0 < chunks ->
     exists text srcs,
       post_ask S req fs'
       = Returns {| status := 200;
                    body := Some (VObj [("ok", VBool true); ("answer", VStr text);
                                        ("sources", VArr srcs)]) |} /\
       jslength srcs = Z.min 5 chunks).
Proof.
  intros Hpost Hstatus Hemb Hchat Hq Hs. unfold post_index in Hpost.
  destruct (indexPdfToJson (rag_env S) fuel (index_call S f) fs)
    as [[stats|name message| |] fs0] eqn:Hidx; try discriminate;
    injection Hpost as <- <-; [|done].
  exists (stats_chunks stats). split; [by eexists|].
  rewrite (post_ask_question S req fs0 s Hq Hs). split.
  - intros H0.
    destruct (indexPdfToJson_returns _ _ _ _ _ _ Hidx)
      as (texte & chunks & loaded & _ & _ & -> & -> & Hlen & _).
    simpl in H0. destruct loaded; [|unfold jslength in H0; simpl in Hlen; lia].
    unfold answerQuestion, load_index, index_items. simpl indexPath.
    change (outPath (index_call S f)) with INDEX_PATH.
    by rewrite lookup_insert_eq.
  - intros Hpos.
    destruct (answer_after_index (rag_env S) fuel (index_call S f) fs stats fs0
                (ask_call S (trim s)) Hidx Hemb Hchat Hpos eq_refl)
      as (r & -> & Hlen & _); [simpl; lia|].
    eexists _, _. split; [reflexivity|].
    unfold jslength in *. rewrite !List.length_map. exact Hlen.
Qed.

Lemma upload_then_ask_witness :
  exists chunks : Z,
    (exists sent,
       body (send_json 200
               (VObj [("ok", VBool true);
                      ("indexPath", VStr (lit "data/index.json"));
                      ("stats", stats_value
                                  {| stats_chunks := 1;
                                     stats_embedModel := lit "nomic-embed-text";
                                     stats_source := lit "doc.pdf" |})])) = Some sent /\
       opt_prop (opt_prop sent "stats") "chunks" = VInt chunks) /\
    (chunks = 0 ->
     post_ask demo_server (VObj [("question", VStr (lit " Quoi ? "))])
       (snd (post_index demo_server 10 (Some demo_upload) (one_pdf (lit "Hello  world"))))
     = Returns {| status := 500;
                  body := Some (VObj [("error", VStr (lit "Index vide."))]) |}) /\
    (0 < chunks ->
     exists text srcs,
       post_ask demo_server (VObj [("question", VStr (lit " Quoi ? "))])
         (snd (post_index demo_server 10 (Some demo_upload)
                 (one_pdf (lit "Hello  world"))))
       = Returns {| status := 200;
                    body := Some (VObj [("ok", VBool true); ("answer", VStr text);
                                        ("sources", VArr srcs)]) |} /\
       jslength srcs = Z.min 5 chunks).
Proof.
  apply (upload_then_ask demo_server 10 demo_upload (one_pdf (lit "Hello  world")) _ _
           (VObj [("question", VStr (lit " Quoi ? "))]) (lit " Quoi ? ")).
  - reflexivity.
  - reflexivity.
  - intros model text. by exists [3; 4]%float.
  - intros model system user. by eexists _, _.
  - reflexivity.
  - vm_compute. discriminate.
Defined.

(** ** The names of the stored files *)

Lemma pretty_N_go_digits (x : N) : forall s,
  Forall (fun c => is_digit c = true) (list_ascii_of_string s) ->
  Forall (fun c => is_digit c = true) (list_ascii_of_string (pretty_N_go x s)).
Proof.
  induction (N.lt_wf_0 x) as [x _ IH]; intros s Hs.
  destruct (N.eq_dec x 0%N) as [->|Hx]; [by rewrite pretty_N_go_0|].
  rewrite pretty_N_go_step by lia. apply IH; [apply N.div_lt; lia|].
  simpl. constructor; [|done].
  unfold pretty_N_char. by repeat case_match.
Qed.

Lemma decimal_digits (n : Z) :
  0 <= n -> Forall (fun c => is_digit c = true) (decimal n).
Proof.
  intros Hn. unfold decimal, lit, pretty, pretty_Z.
  destruct n as [|p|p]; [by repeat constructor| |lia].
  unfold pretty, pretty_positive, pretty, pretty_N.
  case_decide; [done|]. by apply pretty_N_go_digits.
Qed.

Lemma split_at_dash (l1 l2 r1 r2 : jsstring) :
  Forall (fun c => is_digit c = true) l1 ->
  Forall (fun c => is_digit c = true) l2 ->
  l1 ++ lit "-" ++ r1 = l2 ++ lit "-" ++ r2 -> l1 = l2 /\ r1 = r2.
Proof.
  intros H1. revert l2. induction H1 as [|c l1 Hc _ IH]; intros l2 H2 H.
  - destruct H2 as [|d l2 Hd _]; simpl in H.
    + by injection H.
    + injection H as <- _. discriminate.
  - destruct H2 as [|d l2 Hd H2]; simpl in H.
    + injection H as -> _. discriminate.
    + injection H as -> H. by destruct (IH l2 H2 H) as [-> ->].
Qed.

(** Two stored files have the same name only when they were stored in the
    same millisecond under the same original name: the time and the
    original name are read off the name. *)
Theorem filename_inj (now1 now2 : Z) (name1 name2 : jsstring) :
  0 <= now1 -> 0 <= now2 ->
  filename now1 name1 = filename now2 name2 ->
  now1 = now2 /\ name1 = name2.
Proof.
  intros H1 H2 H. unfold filename in H.
  apply split_at_dash in H as [Hd ->]; [|by apply decimal_digits..].
  split; [|done]. by apply decimal_inj.
Qed.

Lemma filename_inj_witness :
  1700000000000 = 1700000000000 /\ lit "doc.pdf" = lit "doc.pdf".
Proof.
  apply (filename_inj 1700000000000 1700000000000 (lit "doc.pdf") (lit "doc.pdf"));
    [lia | lia | reflexivity].
Defined.

(** ** The page *)

(** A question that is white space only is not sent: the handler ends
    without a request, even with a network that would never answer, and
    leaves the page as it is. *)
Theorem askForm_blank_question (fetch_ask : value -> outcome http_response)
    (indented : value -> page_text) (typed : jsstring) (p : page) :
  Forall (fun c => is_white c = true) typed ->
  askForm_submit fetch_ask indented typed p = {| during := p; after := Returns p |} /\
  askForm_submit (fun _ => Spins) indented typed p
  = {| during := p; after := Returns p |}.
Proof.
  intros H%trim_nil. unfold askForm_submit. by rewrite H.
Qed.

Lemma askForm_blank_question_witness :
  askForm_submit (fun _ => Throws "TypeError" "Failed to fetch") (fun _ => [])
    (lit "  ") used_page
  = {| during := used_page; after := Returns used_page |} /\
  askForm_submit (fun _ => Spins) (fun _ => []) (lit "  ") used_page
  = {| during := used_page; after := Returns used_page |}.
Proof.
  apply (askForm_blank_question _ (fun _ => []) (lit "  ") used_page).
  repeat constructor.
Defined.

(** A request that fails is shown as such, and the answer and the sources
    of an earlier question do not stay on the page.  When the network
    fails, or when the server answers with a status outside 200 to 299, the
    handler of the index form ends with a line that begins with 'Erreur: '
    in the status element, the answer and the sources being empty; the
    handler of the question form ends with such a line as the answer, the
    sources being empty and the status element as it was. *)
Theorem handlers_show_failure (fetched : outcome http_response)
    (indented : value -> page_text) (typed : jsstring) (p : page) :
  (exists name message, fetched = Throws name message) \/
  (exists res, fetched = Returns res /\ res_ok res = false) ->
  trim typed <> [] ->
  exists detail,
    after (indexForm_submit fetched p)
    = Returns {| indexStatus_textContent := shown (lit "Erreur: ") ++ detail;
                 answer_textContent := [];
                 sources_textContent := [] |} /\
    after (askForm_submit (fun _ => fetched) indented typed p)
    = Returns {| indexStatus_textContent := indexStatus_textContent p;
                 answer_textContent := shown (lit "Erreur: ") ++ detail;
                 sources_textContent := [] |}.
Proof.
  intros Hf Ht. unfold askForm_submit, indexForm_submit.
  destruct (trim typed) as [|c r]; [done|]. cbn [after].
  unfold mbind, outcome_bind, bind.
  destruct Hf as [(name & message & ->)|(res & -> & Hok)].
  - by exists (shown (lit message)).
  - rewrite Hok. cbn [negb caught].
    by exists (shown (decimal (res_status res)) ++ shown (lit " - ") ++ res_text res).
Qed.

Lemma handlers_show_failure_witness :
  exists detail,
    after (indexForm_submit (Throws "TypeError" "Failed to fetch") used_page)
    = Returns {| indexStatus_textContent := shown (lit "Erreur: ") ++ detail;
                 answer_textContent := [];
                 sources_textContent := [] |} /\
    after (askForm_submit (fun _ => Throws "TypeError" "Failed to fetch")
             (fun _ => []) (lit "Quoi ?") used_page)
    = Returns {| indexStatus_textContent := indexStatus_textContent used_page;
                 answer_textContent := shown (lit "Erreur: ") ++ detail;
                 sources_textContent := [] |}.
Proof.
  apply (handlers_show_failure (Throws "TypeError" "Failed to fetch") (fun _ => [])
           (lit "Quoi ?") used_page).
  - left. by eexists _, _.
  - vm_compute. discriminate.
Defined.

(** ** From the page to the answer *)

(** The page and the server together.  The page shows the number of chunks
    that indexPdfToJson has counted when [POST /api/index] has succeeded,
    and the error that the server reports otherwise; the answer and the
    sources of an earlier question are gone in both cases. *)
Theorem index_from_the_page (S : server_env) (fuel : nat) (file : option upload)
    (fs fs' : gmap string content) (resp : response) (compact : value -> page_text)
    (p : page) :
  post_index S fuel file fs = (Returns resp, fs') ->
  exists line,
    after (indexForm_submit (over_http compact (Returns resp)) p)
    = Returns {| indexStatus_textContent := line;
                 answer_textContent := [];
                 sources_textContent := [] |} /\
    (forall f stats fs0,
       file = Some f ->
       indexPdfToJson (rag_env S) fuel (index_call S f) fs = (Returns stats, fs0) ->
       line = indexed_line (decimal (stats_chunks stats))) /\
    (status resp <> 200 ->
     exists sent, body resp = Some sent /\
       line = shown (lit "Erreur: ") ++ shown (decimal (status resp))
              ++ shown (lit " - ") ++ compact sent).
Proof.
  unfold post_index. destruct file as [f|].
  - destruct (indexPdfToJson (rag_env S) fuel (index_call S f) fs)
      as [[stats|name message| |] fs0] eqn:Hidx; try discriminate;
      intros [= <- <-].
    + eexists. split; [reflexivity|]. split; [|done].
      intros f' stats' fs1 [= <-] H. rewrite Hidx in H. by injection H as <- _.
    + eexists. split; [reflexivity|]. split.
      { intros f' stats' fs1 [= <-] H. by rewrite Hidx in H. }
      intros _. by eexists.
  - intros [= <- <-]. eexists. split; [reflexivity|]. split; [done|].
    intros _. by eexists.
Qed.

Lemma index_from_the_page_witness :
  exists line,
    after (indexForm_submit
             (over_http (fun _ => [])
                (Returns (send_json 200
                   (VObj [("ok", VBool true);
                          ("indexPath", VStr (lit "data/index.json"));
                          ("stats", stats_value
                             {| stats_chunks := 1;
                                stats_embedModel := lit "nomic-embed-text";
                                stats_source := lit "doc.pdf" |})]))))
             used_page)
    = Returns {| indexStatus_textContent := line;
                 answer_textContent := [];
                 sources_textContent := [] |} /\
    (forall f stats fs0,
       Some demo_upload = Some f ->
       indexPdfToJson (rag_env demo_server) 10 (index_call demo_server f)
         (one_pdf (lit "Hello  world")) = (Returns stats, fs0) ->
       line = indexed_line (decimal (stats_chunks stats))) /\
    (200 <> 200 ->
     exists sent,
       body (send_json 200
               (VObj [("ok", VBool true);
                      ("indexPath", VStr (lit "data/index.json"));
                      ("stats", stats_value
                         {| stats_chunks := 1;
                            stats_embedModel := lit "nomic-embed-text";
                            stats_source := lit "doc.pdf" |})])) = Some sent /\
       line = shown (lit "Erreur: ") ++ shown (decimal 200)
              ++ shown (lit " - ") ++ []).
Proof.
  apply (index_from_the_page demo_server 10 (Some demo_upload)
           (one_pdf (lit "Hello  world"))
           (snd (post_index demo_server 10 (Some demo_upload)
                   (one_pdf (lit "Hello  world"))))
           (send_json 200
              (VObj [("ok", VBool true);
                     ("indexPath", VStr (lit "data/index.json"));
                     ("stats", stats_value
                        {| stats_chunks := 1;
                           stats_embedModel := lit "nomic-embed-text";
                           stats_source := lit "doc.pdf" |})]))
           (fun _ => []) used_page).
  reflexivity.
Defined.

(** The page, the server and the services together.  After an upload that
    the server has indexed, with at least one chunk, a question that is
    typed into the page is answered on the page when the services answer as
    they should: the answer element shows an answer without white space
    around it, and the sources element shows 'Sources:' and, on the next
    line, the indented text of five sources, or of as many as there are
    chunks when these are fewer; the status element stays as it was. *)
Theorem ask_from_the_page (S : server_env) (fuel : nat) (f : upload)
    (fs fs' : gmap string content) (resp : response) (sent : value) (chunks : Z)
    (compact indented : value -> page_text) (typed : jsstring) (p : page) :
  post_index S fuel (Some f) fs = (Returns resp, fs') ->
  body resp = Some sent ->
  opt_prop (opt_prop sent "stats") "chunks" = VInt chunks ->
  0 < chunks ->
  (forall model text, exists xs,
     ollamaEmbeddings (rag_env S) model text = Returns (VArr (List.map VNum xs))) ->
  (forall model system user, exists data content,
     chat_api (rag_env S) model system user = Returns data /\
     opt_prop (opt_prop data "message") "content" = VStr content) ->
  trim typed <> [] ->
  exists reply srcs,
    after (askForm_submit (fun req => over_http compact (post_ask S req fs'))
             indented typed p)
    = Returns {| indexStatus_textContent := indexStatus_textContent p;
                 answer_textContent := shown reply;
                 sources_textContent :=
                   shown (lit "Sources:") ++ [10%N] ++ indented (VArr srcs) |} /\
    trim reply = reply /\
    jslength srcs = Z.min 5 chunks.
Proof.
  intros Hpost Hbody Hchunks Hpos Hemb Hchat Ht. unfold post_index in Hpost.
  destruct (indexPdfToJson (rag_env S) fuel (index_call S f) fs)
    as [[stats|name message| |] fs0] eqn:Hidx; try discriminate;
    injection Hpost as <- <-; simpl in Hbody; injection Hbody as <-;
    [|discriminate].
  simpl in Hchunks. injection Hchunks as <-.
  destruct (answer_after_index (rag_env S) fuel (index_call S f) fs stats fs0
              (ask_call S (trim typed)) Hidx Hemb Hchat Hpos eq_refl)
    as (r & Hr & Hlen & _); [simpl; lia|].
  pose proof (answerQuestion_inv _ _ _ _ Hr) as (_ & _ & _ & _ & _ & _ & _ & _ & _ & Htrim & _).
  unfold askForm_submit.
  destruct (trim typed) as [|c q] eqn:Hq; [done|]. cbn [after].
  assert (Hask : post_ask S (VObj [("question", VStr (c :: q))]) fs0
            = Returns (send_json 200
                (VObj [("ok", VBool true);
                       ("answer", VStr (answer r));
                       ("sources", VArr (List.map source_value (sources r)))]))).
  { assert (Hid : trim (c :: q) = c :: q) by (rewrite <- Hq; apply trim_idemp).
    rewrite (post_ask_question S (VObj [("question", VStr (c :: q))]) fs0 (c :: q)
               eq_refl); rewrite Hid; [|done].
    by rewrite Hr. }
  rewrite Hask.
  exists (answer r). eexists. split; [|split; [exact Htrim|]].
  - unfold over_http, mbind, outcome_bind, bind. cbn [send_json status body res_ok res_status negb].
    simpl. reflexivity.
  - unfold jslength in *. rewrite !List.length_map. exact Hlen.
Qed.

Lemma ask_from_the_page_witness :
  exists reply srcs,
    after (askForm_submit
             (fun req =>
                over_http (fun _ => [])
                  (post_ask demo_server req
                     (snd (post_index demo_server 10 (Some demo_upload)
                             (one_pdf (lit "Hello  world"))))))
             (fun _ => []) (lit " Quoi ? ") used_page)
    = Returns {| indexStatus_textContent := indexStatus_textContent used_page;
                 answer_textContent := shown reply;
                 sources_textContent :=
                   shown (lit "Sources:") ++ [10%N]
                   ++ (fun _ : value => []) (VArr srcs) |} /\
    trim reply = reply /\
    jslength srcs = Z.min 5 1.
Proof.
  apply (ask_from_the_page demo_server 10 demo_upload (one_pdf (lit "Hello  world"))
           (snd (post_index demo_server 10 (Some demo_upload)
                   (one_pdf (lit "Hello  world"))))
           (send_json 200
              (VObj [("ok", VBool true);
                     ("indexPath", VStr (lit "data/index.json"));
                     ("stats", stats_value
                        {| stats_chunks := 1;
                           stats_embedModel := lit "nomic-embed-text";
                           stats_source := lit "doc.pdf" |})]))
           (VObj [("ok", VBool true);
                  ("indexPath", VStr (lit "data/index.json"));
                  ("stats", stats_value
                     {| stats_chunks := 1;
                        stats_embedModel := lit "nomic-embed-text";
                        stats_source := lit "doc.pdf" |})])
           1 (fun _ => []) (fun _ => []) (lit " Quoi ? ") used_page).
  - reflexivity.
  - reflexivity.
  - reflexivity.
  - lia.
  - intros model text. by exists [3; 4]%float.
  - intros model system user. by eexists _, _.
  - vm_compute. discriminate.
Defined.
